(** * Request lifecycle and post-step bookkeeping of the serving engine

    A shallow embedding of [cpp/serve/request_state.h] and
    [cpp/serve/engine_actions/action_commons.cc]: the request state tree,
    the post-step reconciliation ([UpdatePrefixCache],
    [ActionStepPostProcess], [ProcessFinishedRequestStateEntries]) and
    preemption ([PreemptLastRunningRequestStateEntry]).

    The C++ code mutates reference-counted nodes in place.  Here the whole
    mutable world is one record, [Machine], threaded through a small
    state-and-fault monad; a failed [ICHECK], a null dereference or an
    access out of range ends a run in [Fault]. *)

From stdpp Require Import gmap strings list.
From Stdlib Require Import ZArith Lia Floats.
Open Scope Z_scope.

(** ** Machine integers *)

(** Conversion of an integer to the 32-bit [int] (two's complement). *)
Definition to_int (z : Z) : Z := (z + 2 ^ 31) `mod` 2 ^ 32 - 2 ^ 31.

Definition INT_MAX : Z := 2 ^ 31 - 1.

(** ** Machine doubles *)

(** A [double] is a binary64 floating-point number, the kernel's [float];
    [+] and [/] on it round to nearest, ties to even, as the hardware
    does.  [static_cast<double>(z)] of a 64-bit integer is the binary64
    number nearest to [z]. *)
Definition double_of_int64 (z : Z) : float :=
  SF2Prim (binary_normalize prec emax z 0 false).

(** [v[i]] for an [int] or [int64_t] index: negative and too large indices
    are invalid accesses. *)
Definition at_index {A : Type} (v : list A) (i : Z) : option A :=
  if i <? 0 then None else v !! Z.to_nat i.

(** ** Data model ([request_state.h]) *)

(** [Data] is a polymorphic node; [TokenDataNode] carries [token_ids] (an
    [IntTuple] of 64-bit integers), every other modality is opaque except
    for its length. *)
Inductive Data : Type :=
| TokenData (token_ids : list Z)
| ImageData (embed_len : Z).

(** [data->GetLength()]. *)
Definition GetLength (data : Data) : Z :=
  match data with
  | TokenData token_ids => Z.of_nat (length token_ids)
  | ImageData embed_len => embed_len
  end.

(** [data.as<TokenDataNode>()]: [None] is the null pointer. *)
Definition as_TokenDataNode (data : Data) : option (list Z) :=
  match data with
  | TokenData token_ids => Some token_ids
  | ImageData _ => None
  end.

(** [SampleResult]: the sampled token id with its probability and the top
    log-probabilities.  The [float] components are kept as their bit
    patterns; no function below reads them. *)
Record SampleResult : Type := {
  sampled_token_id : Z * Z;
  top_logprobs : list (Z * Z)
}.

Record DebugConfig : Type := {
  pinned_system_prompt : bool
}.

Record GenerationConfig : Type := {
  n : Z;
  logprobs : Z;
  debug_config : option DebugConfig
}.

Record Request : Type := {
  id : string;
  req_inputs : list Data;
  generation_cfg : GenerationConfig
}.

(** [RequestModelStateNode].  The fields [request], [appeared_token_ids]
    and [grammar_state_matcher] are never read or written by
    [action_commons.cc] and are left out. *)
Record RequestModelState : Type := {
  internal_id : Z;
  model_id : Z;
  committed_tokens : list SampleResult;
  inputs : list Data;
  prefilled_inputs : list Data;
  cached_committed_tokens : Z;
  num_prefilled_tokens : Z;
  draft_output_tokens : list SampleResult;
  draft_token_slots : list Z
}.

Inductive RequestStateStatus : Type := kPending | kAlive | kFinished.

(** [RequestStateEntryNode].  Time points are nanosecond counts.  The
    [rng] and the [stop_str_handler] are only touched by
    [GetReturnTokenIds], whose body is not part of these files. *)
Record RequestStateEntry : Type := {
  status : RequestStateStatus;
  request : Request;
  parent_idx : Z;
  child_indices : list Z;
  mstates : list RequestModelState;
  next_callback_token_pos : Z;
  tadd : Z;
  tprefill_finish : Z
}.

Record RequestState : Type := {
  entries : list RequestStateEntry
}.

Record DeltaRequestReturn : Type := {
  delta_token_ids : list Z;
  delta_logprob_json_strs : list string;
  finish_reason : option string
}.

Record RequestStreamOutput : Type := {
  request_id : string;
  group_delta_token_ids : list (list Z);
  group_delta_logprob_json_strs : option (list (list string));
  group_finish_reason : list (option string)
}.

#[global] Instance Data_eq_dec : EqDecision Data.
Proof. solve_decision. Defined.
#[global] Instance DebugConfig_eq_dec : EqDecision DebugConfig.
Proof. solve_decision. Defined.
#[global] Instance GenerationConfig_eq_dec : EqDecision GenerationConfig.
Proof. solve_decision. Defined.
#[global] Instance Request_eq_dec : EqDecision Request.
Proof. solve_decision. Defined.
#[global] Instance RequestStateStatus_eq_dec : EqDecision RequestStateStatus.
Proof. solve_decision. Defined.

(** ** Field updates *)

Definition set_internal_id (v : Z) (m : RequestModelState) : RequestModelState :=
  {| internal_id := v; model_id := model_id m;
     committed_tokens := committed_tokens m; inputs := inputs m;
     prefilled_inputs := prefilled_inputs m;
     cached_committed_tokens := cached_committed_tokens m;
     num_prefilled_tokens := num_prefilled_tokens m;
     draft_output_tokens := draft_output_tokens m;
     draft_token_slots := draft_token_slots m |}.

Definition set_inputs (v : list Data) (m : RequestModelState) : RequestModelState :=
  {| internal_id := internal_id m; model_id := model_id m;
     committed_tokens := committed_tokens m; inputs := v;
     prefilled_inputs := prefilled_inputs m;
     cached_committed_tokens := cached_committed_tokens m;
     num_prefilled_tokens := num_prefilled_tokens m;
     draft_output_tokens := draft_output_tokens m;
     draft_token_slots := draft_token_slots m |}.

Definition set_prefilled_inputs (v : list Data) (m : RequestModelState) : RequestModelState :=
  {| internal_id := internal_id m; model_id := model_id m;
     committed_tokens := committed_tokens m; inputs := inputs m;
     prefilled_inputs := v;
     cached_committed_tokens := cached_committed_tokens m;
     num_prefilled_tokens := num_prefilled_tokens m;
     draft_output_tokens := draft_output_tokens m;
     draft_token_slots := draft_token_slots m |}.

Definition set_cached_committed_tokens (v : Z) (m : RequestModelState) : RequestModelState :=
  {| internal_id := internal_id m; model_id := model_id m;
     committed_tokens := committed_tokens m; inputs := inputs m;
     prefilled_inputs := prefilled_inputs m;
     cached_committed_tokens := v;
     num_prefilled_tokens := num_prefilled_tokens m;
     draft_output_tokens := draft_output_tokens m;
     draft_token_slots := draft_token_slots m |}.

Definition set_num_prefilled_tokens (v : Z) (m : RequestModelState) : RequestModelState :=
  {| internal_id := internal_id m; model_id := model_id m;
     committed_tokens := committed_tokens m; inputs := inputs m;
     prefilled_inputs := prefilled_inputs m;
     cached_committed_tokens := cached_committed_tokens m;
     num_prefilled_tokens := v;
     draft_output_tokens := draft_output_tokens m;
     draft_token_slots := draft_token_slots m |}.

Definition set_status (v : RequestStateStatus) (e : RequestStateEntry) : RequestStateEntry :=
  {| status := v; request := request e; parent_idx := parent_idx e;
     child_indices := child_indices e; mstates := mstates e;
     next_callback_token_pos := next_callback_token_pos e;
     tadd := tadd e; tprefill_finish := tprefill_finish e |}.

Definition set_mstates (v : list RequestModelState) (e : RequestStateEntry) : RequestStateEntry :=
  {| status := status e; request := request e; parent_idx := parent_idx e;
     child_indices := child_indices e; mstates := v;
     next_callback_token_pos := next_callback_token_pos e;
     tadd := tadd e; tprefill_finish := tprefill_finish e |}.

(** ** External collaborators

    The ID manager, the prefix cache and the models are used by
    [action_commons.cc] through their interfaces only; their code is not
    part of these files. *)

(** Modelled from the spec: the ID manager ([id_manager], missing
    [EngineInternalIDManager]).  "[new_id()] returns a never-before-used
    id; [recycle(id)] returns it to the free pool ... monotonic allocation
    with free-list reuse suffices". *)
Record IdManager : Type := {
  id_cnt : Z;
  available_ids : list Z
}.

Definition GetNewId (idm : IdManager) : Z * IdManager :=
  match available_ids idm with
  | i :: rest => (i, {| id_cnt := id_cnt idm; available_ids := rest |})
  | [] => (id_cnt idm, {| id_cnt := id_cnt idm + 1; available_ids := [] |})
  end.

Definition RecycleId (i : Z) (idm : IdManager) : IdManager :=
  {| id_cnt := id_cnt idm; available_ids := i :: available_ids idm |}.

(** Modelled from the spec: a model handle (missing [Model]), reduced to
    the set of sequences resident in its KV-cache;
    [remove_sequence(internal_id)] takes the sequence out. *)
Record Model : Type := {
  kv_sequences : gset Z
}.

Definition RemoveSequence (i : Z) (model : Model) : Model :=
  {| kv_sequences := kv_sequences model ∖ {[ i ]} |}.

(** Modelled from the spec: the prefix cache (missing [PrefixCache]).
    It "tracks which [internal_id]s it manages": [pc_active] maps a managed
    id to the tokens announced for it, [pc_reclaimable] keeps the tokens of
    lazily recycled sequences "for reuse by a future request". *)
Record PrefixCache : Type := {
  pc_active : gmap Z (list Z);
  pc_reclaimable : list (list Z)
}.

Definition HasSequence (pc : PrefixCache) (i : Z) : bool :=
  bool_decide (is_Some (pc_active pc !! i)).

(** "[extend_sequence(id, tokens)] (append tokens known to be in
    KV-cache)". *)
Definition ExtendSequence (i : Z) (tokens : list Z) (pc : PrefixCache) : PrefixCache :=
  {| pc_active := alter (λ l, l ++ tokens) i (pc_active pc);
     pc_reclaimable := pc_reclaimable pc |}.

(** "Eager ([lazy=false]): immediately releases the KV-cache slots and
    invalidates [id].  Lazy ([lazy=true]): marks the sequence reclaimable;
    ... The caller must not thereafter assume [id] refers to a resident
    sequence."  The KV-cache slots are those of every model. *)
Definition RecycleSequence (i : Z) (lazy : bool)
    (pcm : PrefixCache * list Model) : PrefixCache * list Model :=
  let '(pc, models) := pcm in
  if lazy then
    ({| pc_active := delete i (pc_active pc);
        pc_reclaimable :=
          match pc_active pc !! i with
          | Some l => l :: pc_reclaimable pc
          | None => pc_reclaimable pc
          end |}, models)
  else
    ({| pc_active := delete i (pc_active pc);
        pc_reclaimable := pc_reclaimable pc |},
     RemoveSequence i <$> models).

(** ** The engine state and the mutable world *)

Record EngineStatistics : Type := {
  total_prefill_length : Z;
  total_decode_length : Z;
  request_total_prefill_time : float;
  request_total_decode_time : float
}.

(** Calls to the collaborators, in the order they are made.  A call of
    [GetReturnTokenIds] is recorded with the handle of the entry (the key
    of its request state and its index) and the delta it returned. *)
Inductive Event : Type :=
| EvExtendSequence (i : Z) (tokens : list Z)
| EvRecycleSequence (i : Z) (lazy : bool)
| EvRemoveSequence (model : nat) (i : Z)
| EvRecycleId (i : Z)
| EvGetNewId (i : Z)
| EvFreeSlots (slots : list Z)
| EvGetReturnTokenIds (rsentry : string * nat) (delta : DeltaRequestReturn)
| EvStreamCallback (outputs : list RequestStreamOutput).

(** The first six fields are those of [EngineStateNode]; [request_states]
    holds the keys of the map and [rstate_store] the [RequestState] nodes
    they map to, addressed by request id: a node stays reachable through a
    [RequestStateEntry] handle after its key is erased.  [models] is the
    [Array<Model>] every action receives, [trace] the calls made so far,
    [clock_reads] how often the clock has been read. *)
Record Machine : Type := {
  running_queue : list Request;
  waiting_queue : list Request;
  request_states : gset string;
  id_manager : IdManager;
  prefix_cache : PrefixCache;
  stats : EngineStatistics;
  rstate_store : gmap string RequestState;
  models : list Model;
  trace : list Event;
  clock_reads : nat
}.

Definition set_running_queue (v : list Request) (s : Machine) : Machine :=
  {| running_queue := v; waiting_queue := waiting_queue s;
     request_states := request_states s; id_manager := id_manager s;
     prefix_cache := prefix_cache s; stats := stats s;
     rstate_store := rstate_store s; models := models s;
     trace := trace s; clock_reads := clock_reads s |}.

Definition set_waiting_queue (v : list Request) (s : Machine) : Machine :=
  {| running_queue := running_queue s; waiting_queue := v;
     request_states := request_states s; id_manager := id_manager s;
     prefix_cache := prefix_cache s; stats := stats s;
     rstate_store := rstate_store s; models := models s;
     trace := trace s; clock_reads := clock_reads s |}.

Definition set_request_states (v : gset string) (s : Machine) : Machine :=
  {| running_queue := running_queue s; waiting_queue := waiting_queue s;
     request_states := v; id_manager := id_manager s;
     prefix_cache := prefix_cache s; stats := stats s;
     rstate_store := rstate_store s; models := models s;
     trace := trace s; clock_reads := clock_reads s |}.

Definition set_id_manager (v : IdManager) (s : Machine) : Machine :=
  {| running_queue := running_queue s; waiting_queue := waiting_queue s;
     request_states := request_states s; id_manager := v;
     prefix_cache := prefix_cache s; stats := stats s;
     rstate_store := rstate_store s; models := models s;
     trace := trace s; clock_reads := clock_reads s |}.

Definition set_caches (v : PrefixCache * list Model) (s : Machine) : Machine :=
  {| running_queue := running_queue s; waiting_queue := waiting_queue s;
     request_states := request_states s; id_manager := id_manager s;
     prefix_cache := v.1; stats := stats s;
     rstate_store := rstate_store s; models := v.2;
     trace := trace s; clock_reads := clock_reads s |}.

Definition set_stats (v : EngineStatistics) (s : Machine) : Machine :=
  {| running_queue := running_queue s; waiting_queue := waiting_queue s;
     request_states := request_states s; id_manager := id_manager s;
     prefix_cache := prefix_cache s; stats := v;
     rstate_store := rstate_store s; models := models s;
     trace := trace s; clock_reads := clock_reads s |}.

Definition set_rstate_store (v : gmap string RequestState) (s : Machine) : Machine :=
  {| running_queue := running_queue s; waiting_queue := waiting_queue s;
     request_states := request_states s; id_manager := id_manager s;
     prefix_cache := prefix_cache s; stats := stats s;
     rstate_store := v; models := models s;
     trace := trace s; clock_reads := clock_reads s |}.

Definition emit (ev : Event) (s : Machine) : Machine :=
  {| running_queue := running_queue s; waiting_queue := waiting_queue s;
     request_states := request_states s; id_manager := id_manager s;
     prefix_cache := prefix_cache s; stats := stats s;
     rstate_store := rstate_store s; models := models s;
     trace := trace s ++ [ev]; clock_reads := clock_reads s |}.

Definition tick (s : Machine) : Machine :=
  {| running_queue := running_queue s; waiting_queue := waiting_queue s;
     request_states := request_states s; id_manager := id_manager s;
     prefix_cache := prefix_cache s; stats := stats s;
     rstate_store := rstate_store s; models := models s;
     trace := trace s; clock_reads := S (clock_reads s) |}.

(** ** The state-and-fault monad *)

(** A run ends normally ([Ok]), in a failed check or invalid access
    ([Fault]), or with its loop budget exhausted ([Spin]); each outcome
    carries the world as the run left it. *)
Inductive Res (A : Type) : Type :=
| Ok (a : A) (s : Machine)
| Fault (s : Machine)
| Spin (s : Machine).
Arguments Ok {A} a s.
Arguments Fault {A} s.
Arguments Spin {A} s.

Definition M (A : Type) : Type := Machine -> Res A.

Definition ret {A : Type} (a : A) : M A := fun s => Ok a s.

Definition bind {A B : Type} (c : M A) (k : A -> M B) : M B :=
  fun s =>
    match c s with
    | Ok a s' => k a s'
    | Fault s' => Fault s'
    | Spin s' => Spin s'
    end.

Notation "'let*' x ':=' c 'in' k" := (bind c (fun x => k))
  (at level 10, x pattern, c at level 100, k at level 200).
Notation "c1 ;;; c2" := (bind c1 (fun _ => c2))
  (at level 100, c2 at level 200, right associativity).

Definition fault {A : Type} : M A := fun s => Fault s.
Definition spin {A : Type} : M A := fun s => Spin s.
Definition gets {A : Type} (f : Machine -> A) : M A := fun s => Ok (f s) s.
Definition modify (f : Machine -> Machine) : M unit := fun s => Ok tt (f s).

(** [ICHECK(b)]. *)
Definition ICHECK (b : bool) : M unit := if b then ret tt else fault.

(** Dereference of a pointer or an element access that may be invalid. *)
Definition deref {A : Type} (o : option A) : M A :=
  match o with
  | Some a => ret a
  | None => fault
  end.

(** The world a run ends in. *)
Definition final {A : Type} (r : Res A) : Machine :=
  match r with
  | Ok _ s => s
  | Fault s => s
  | Spin s => s
  end.

Fixpoint forM_ {A : Type} (l : list A) (body : A -> M unit) : M unit :=
  match l with
  | [] => ret tt
  | x :: l' => body x ;;; forM_ l' body
  end.

Fixpoint mapM {A B : Type} (body : A -> M B) (l : list A) : M (list B) :=
  match l with
  | [] => ret []
  | x :: l' =>
      let* y := body x in
      let* ys := mapM body l' in
      ret (y :: ys)
  end.

(** ** Handles *)

(** A [RequestState] handle is the key of its node in [rstate_store]; a
    [RequestStateEntry] handle is that key with the index in [entries]. *)
Definition EntryRef : Type := string * nat.

Definition store_lookup (st : gmap string RequestState) (h : EntryRef)
    : option RequestStateEntry :=
  rs ← st !! h.1; entries rs !! h.2.

Definition store_write (h : EntryRef) (e : RequestStateEntry)
    (st : gmap string RequestState) : gmap string RequestState :=
  alter (fun rs => {| entries := <[h.2 := e]> (entries rs) |}) h.1 st.

Definition lookup_entry (s : Machine) (h : EntryRef) : option RequestStateEntry :=
  store_lookup (rstate_store s) h.

Definition load_rstate (rstate : string) : M RequestState :=
  let* o := gets (fun s => rstate_store s !! rstate) in deref o.

Definition load_entry (h : EntryRef) : M RequestStateEntry :=
  let* o := gets (fun s => lookup_entry s h) in deref o.

Definition write_entry (h : EntryRef) (e : RequestStateEntry) (s : Machine) : Machine :=
  set_rstate_store (store_write h e (rstate_store s)) s.

Definition store_entry (h : EntryRef) (e : RequestStateEntry) : M unit :=
  modify (write_entry h e).

(** Modelled from the spec: [estate->GetRequestState(request)] (missing
    [EngineStateNode]), the lookup of [request->id] in [request_states:
    mapping request_id → RS]; a missing key is a failed check. *)
Definition GetRequestState (req : Request) : M string :=
  let* known := gets (fun s => bool_decide (id req ∈ request_states s)) in
  ICHECK known ;;;
  load_rstate (id req) ;;;
  ret (id req).

(** Calls to the collaborators: the call is recorded and takes effect. *)
Definition call_ExtendSequence (i : Z) (tokens : list Z) : M unit :=
  modify (fun s =>
    emit (EvExtendSequence i tokens)
      (set_caches (ExtendSequence i tokens (prefix_cache s), models s) s)).

Definition call_RecycleSequence (i : Z) (lazy : bool) : M unit :=
  modify (fun s =>
    emit (EvRecycleSequence i lazy)
      (set_caches (RecycleSequence i lazy (prefix_cache s, models s)) s)).

Definition call_RecycleId (i : Z) : M unit :=
  modify (fun s => emit (EvRecycleId i) (set_id_manager (RecycleId i (id_manager s)) s)).

Definition call_GetNewId : M Z :=
  let* r := gets (fun s => GetNewId (id_manager s)) in
  modify (fun s => emit (EvGetNewId r.1) (set_id_manager r.2 s)) ;;;
  ret r.1.

(** ** [action_commons.cc] *)

(** [RemoveRequestFromModel]: [model->RemoveSequence(req_internal_id)] for
    every model, in order. *)
Definition RemoveRequestFromModel (req_internal_id : Z) : M unit :=
  modify (fun s =>
    {| running_queue := running_queue s; waiting_queue := waiting_queue s;
       request_states := request_states s; id_manager := id_manager s;
       prefix_cache := prefix_cache s; stats := stats s;
       rstate_store := rstate_store s;
       models := RemoveSequence req_internal_id <$> models s;
       trace := trace s ++
         ((fun k => EvRemoveSequence k req_internal_id) <$> seq 0 (length (models s)));
       clock_reads := clock_reads s |}).

(** [debug_config.has_value() && debug_config.value().pinned_system_prompt]. *)
Definition is_pinned (req : Request) : bool :=
  match debug_config (generation_cfg req) with
  | Some d => pinned_system_prompt d
  | None => false
  end.

Definition RemoveRequestStateEntry (rsentry : EntryRef) : M unit :=
  let* e := load_entry rsentry in
  let* m0 := deref (mstates e !! 0%nat) in
  let* held := gets (fun s => HasSequence (prefix_cache s) (internal_id m0)) in
  if held then
    if negb (is_pinned (request e)) then
      call_RecycleSequence (internal_id m0) true
    else ret tt
  else
    RemoveRequestFromModel (internal_id m0) ;;;
    call_RecycleId (internal_id m0).

(** The inner loop of [ProcessFinishedRequestStateEntries]: are all
    children finished?  [None] is an invalid [entries[child_idx]]. *)
Fixpoint all_children_finished (es : list RequestStateEntry) (cs : list Z) : option bool :=
  match cs with
  | [] => Some true
  | child_idx :: cs' =>
      match at_index es child_idx with
      | None => None
      | Some c =>
          if decide (status c = kFinished) then all_children_finished es cs'
          else Some false
      end
  end.

(** The [while (parent_idx != -1)] loop; it returns the [parent_idx] it
    leaves the loop with.  [fuel] bounds the number of iterations. *)
Fixpoint climb (fuel : nat) (rstate : string) (parent_idx0 : Z) : M Z :=
  if parent_idx0 =? -1 then ret parent_idx0
  else
    match fuel with
    | O => spin
    | S fuel' =>
        let* rs := load_rstate rstate in
        let* parent := deref (at_index (entries rs) parent_idx0) in
        let* all_finished := deref (all_children_finished (entries rs) (child_indices parent)) in
        if negb all_finished then ret parent_idx0
        else
          store_entry (rstate, Z.to_nat parent_idx0) (set_status kFinished parent) ;;;
          RemoveRequestStateEntry (rstate, Z.to_nat parent_idx0) ;;;
          climb fuel' rstate (parent_idx parent)
    end.

(** The body of the [for] loop of [ProcessFinishedRequestStateEntries] up
    to the end of the [while] loop; it returns [rsentry->request],
    [rstate] and the [parent_idx] the climb ended with. *)
Definition FinishEntryAndClimb (fuel : nat) (rsentry : EntryRef)
    : M (Request * string * Z) :=
  let* e := load_entry rsentry in
  ICHECK (bool_decide (child_indices e = [])) ;;;
  store_entry rsentry (set_status kFinished e) ;;;
  RemoveRequestStateEntry rsentry ;;;
  let* rstate := GetRequestState (request e) in
  let* parent_idx1 := climb fuel rstate (parent_idx e) in
  ret (request e, rstate, parent_idx1).

(** [std::find(running_queue.begin(), running_queue.end(), request)]. *)
Fixpoint find_request (req : Request) (q : list Request) : option nat :=
  match q with
  | [] => None
  | r :: q' => if decide (r = req) then Some 0%nat else S <$> find_request req q'
  end.

(** [static_cast<double>(d.count()) / 1e9] for a duration [d] of [nanos]
    nanoseconds: the count is converted to [double] and divided, in
    [double], by the literal [1e9]. *)
Definition seconds (nanos : Z) : float := (double_of_int64 nanos / 1e9)%float.

(** [stats.request_total_prefill_time += d], an addition of doubles. *)
Definition add_prefill_time (d : float) (st : EngineStatistics) : EngineStatistics :=
  {| total_prefill_length := total_prefill_length st;
     total_decode_length := total_decode_length st;
     request_total_prefill_time := (request_total_prefill_time st + d)%float;
     request_total_decode_time := request_total_decode_time st |}.

(** [stats.request_total_decode_time += d]. *)
Definition add_decode_time (d : float) (st : EngineStatistics) : EngineStatistics :=
  {| total_prefill_length := total_prefill_length st;
     total_decode_length := total_decode_length st;
     request_total_prefill_time := request_total_prefill_time st;
     request_total_decode_time := (request_total_decode_time st + d)%float |}.

Definition add_decode_length (d : Z) (st : EngineStatistics) : EngineStatistics :=
  {| total_prefill_length := total_prefill_length st;
     total_decode_length := total_decode_length st + d;
     request_total_prefill_time := request_total_prefill_time st;
     request_total_decode_time := request_total_decode_time st |}.

Definition add_prefill_length (d : Z) (st : EngineStatistics) : EngineStatistics :=
  {| total_prefill_length := total_prefill_length st + d;
     total_decode_length := total_decode_length st;
     request_total_prefill_time := request_total_prefill_time st;
     request_total_decode_time := request_total_decode_time st |}.

(** The shape shared by the loops over [requests] and the [entries] of
    each request's state. *)
Definition for_each_entry (requests : list Request) (body : EntryRef -> M unit) : M unit :=
  forM_ requests (fun req =>
    let* rstate := GetRequestState req in
    let* rs := load_rstate rstate in
    forM_ (seq 0 (length (entries rs))) (fun i => body (rstate, i))).

(** [rsentry->mstates[0]-> field = ...]. *)
Definition update_mstate0 (h : EntryRef) (f : RequestModelState -> RequestModelState) : M unit :=
  let* e := load_entry h in
  let* m0 := deref (mstates e !! 0%nat) in
  store_entry h (set_mstates (<[0%nat := f m0]> (mstates e)) e).

(** The loop [for (int i = cached_committed_tokens; i < size - 1; ++i)
    tokens.push_back(committed_tokens[i].sampled_token_id.first)], run for
    at most [fuel] iterations from [i] up to [hi]; [None] is an invalid
    [committed_tokens[i]] or the overflow of [++i]. *)
Fixpoint committed_range (fuel : nat) (i hi : Z) (toks : list SampleResult) : option (list Z) :=
  match fuel with
  | O => Some []
  | S fuel' =>
      if i <? hi then
        match at_index toks i with
        | None => None
        | Some t =>
            if i =? INT_MAX then None
            else cons (sampled_token_id t).1 <$> committed_range fuel' (i + 1) hi toks
        end
      else Some []
  end.

(** The body of the inner loop of [UpdatePrefixCache]. *)
Definition UpdatePrefixCacheEntry (rsentry : EntryRef) : M unit :=
  let* e := load_entry rsentry in
  let* m0 := deref (mstates e !! 0%nat) in
  let* held := gets (fun s => HasSequence (prefix_cache s) (internal_id m0)) in
  if held then
    (if negb (bool_decide (prefilled_inputs m0 = [])) then
       forM_ (prefilled_inputs m0) (fun data =>
         let* token_ids := deref (as_TokenDataNode data) in
         call_ExtendSequence (internal_id m0) token_ids) ;;;
       update_mstate0 rsentry (set_prefilled_inputs [])
     else ret tt) ;;;
    let size := Z.of_nat (length (committed_tokens m0)) in
    if cached_committed_tokens m0 <? size - 1 then
      let i0 := to_int (cached_committed_tokens m0) in
      let* tokens := deref (committed_range (Z.to_nat (size - 1 - i0)) i0 (size - 1)
                              (committed_tokens m0)) in
      call_ExtendSequence (internal_id m0) tokens ;;;
      update_mstate0 rsentry (set_cached_committed_tokens (size - 1))
    else ret tt
  else ret tt.

Definition UpdatePrefixCache (requests : list Request) : M unit :=
  for_each_entry requests UpdatePrefixCacheEntry.

(** The prefill statistics pass of [ActionStepPostProcess]. *)
Definition CountPrefilledEntry (rsentry : EntryRef) : M unit :=
  let* e := load_entry rsentry in
  let* m0 := deref (mstates e !! 0%nat) in
  if negb (bool_decide (prefilled_inputs m0 = [])) then
    forM_ (prefilled_inputs m0) (fun data =>
      modify (fun s => set_stats (add_prefill_length (GetLength data) (stats s)) s))
  else ret tt.

Section Engine.

(** [std::chrono::high_resolution_clock::now()]: the [k]-th reading of the
    clock, in nanoseconds. *)
Variable now : nat -> Z.

(** [rsentry->GetReturnTokenIds(tokenizer, max_single_sequence_length)];
    its body is not part of these files.  It returns the delta and leaves
    the entry updated. *)
Variable GetReturnTokenIds : Z -> RequestStateEntry -> DeltaRequestReturn * RequestStateEntry.

Definition read_clock : M Z :=
  let* k := gets clock_reads in
  modify tick ;;;
  ret (now k).

(** The body of [if (parent_idx == -1)] in
    [ProcessFinishedRequestStateEntries]. *)
Definition RetireRequest (req : Request) (rstate : string) : M unit :=
  let* q := gets running_queue in
  let* it := deref (find_request req q) in
  modify (set_running_queue (delete it q)) ;;;
  modify (fun s => set_request_states (request_states s ∖ {[ id req ]}) s) ;;;
  let* rs := load_rstate rstate in
  let* root_rsentry := deref (entries rs !! 0%nat) in
  let* trequest_finish := read_clock in
  modify (fun s => set_stats
    (add_prefill_time (seconds (tprefill_finish root_rsentry - tadd root_rsentry)) (stats s)) s) ;;;
  modify (fun s => set_stats
    (add_decode_time (seconds (trequest_finish - tprefill_finish root_rsentry)) (stats s)) s) ;;;
  forM_ (entries rs) (fun entry =>
    let* m0 := deref (mstates entry !! 0%nat) in
    modify (fun s => set_stats
      (add_decode_length (Z.of_nat (length (committed_tokens m0))) (stats s)) s)) ;;;
  modify (fun s => set_stats (add_decode_length (- n (generation_cfg req)) (stats s)) s).

(** The body of the [for] loop of [ProcessFinishedRequestStateEntries]:
    [FinishEntryAndClimb], then the retirement of the request when the
    climb has passed the root. *)
Definition ProcessFinishedEntry (fuel : nat) (rsentry : EntryRef) : M unit :=
  let* r := FinishEntryAndClimb fuel rsentry in
  if r.2 =? -1 then RetireRequest r.1.1 r.1.2
  else ret tt.

Definition ProcessFinishedRequestStateEntries (fuel : nat)
    (finished_rsentries : list EntryRef) : M unit :=
  forM_ finished_rsentries (ProcessFinishedEntry fuel).

(** One iteration of [for (int i = 0; i < n; ++i)] in
    [ActionStepPostProcess]: the entry it reads and its delta. *)
Definition CollectEntry (max_single_sequence_length : Z) (rstate : string) (n0 : Z)
    (i : nat) : M (EntryRef * DeltaRequestReturn) :=
  let h : EntryRef := (rstate, if n0 =? 1 then 0%nat else S i) in
  let* e := load_entry h in
  let r := GetReturnTokenIds max_single_sequence_length e in
  store_entry h r.2 ;;;
  modify (emit (EvGetReturnTokenIds h r.1)) ;;;
  ret (h, r.1).

Definition has_finish_reason (d : DeltaRequestReturn) : bool :=
  bool_decide (is_Some (finish_reason d)).

Definition has_delta (d : DeltaRequestReturn) : bool :=
  negb (bool_decide (delta_token_ids d = [])).

(** [invoke_callback] after the loop over the [n] generations. *)
Definition invoke_callback (ds : list DeltaRequestReturn) : bool :=
  existsb (fun d => has_finish_reason d || has_delta d) ds.

Definition make_output (req : Request) (ds : list DeltaRequestReturn) : RequestStreamOutput :=
  {| request_id := id req;
     group_delta_token_ids := delta_token_ids <$> ds;
     group_delta_logprob_json_strs :=
       if 0 <? logprobs (generation_cfg req)
       then Some (delta_logprob_json_strs <$> ds) else None;
     group_finish_reason := finish_reason <$> ds |}.

(** The body of the collection loop for one request: the output it adds
    to [callback_delta_outputs], if any, and the entries it adds to
    [finished_rsentries]. *)
Definition CollectRequest (max_single_sequence_length : Z) (req : Request)
    : M (option RequestStreamOutput * list EntryRef) :=
  let n0 := n (generation_cfg req) in
  let* rstate := GetRequestState req in
  let* rets := mapM (CollectEntry max_single_sequence_length rstate n0)
                    (seq 0 (Z.to_nat n0)) in
  ret (if invoke_callback (snd <$> rets) then Some (make_output req (snd <$> rets)) else None,
       fst <$> filter (fun r => has_finish_reason r.2 = true) rets).

(** Everything [ActionStepPostProcess] does before it invokes the stream
    callback. *)
Definition CollectStep (requests : list Request) (max_single_sequence_length : Z)
    : M (list RequestStreamOutput * list EntryRef) :=
  for_each_entry requests CountPrefilledEntry ;;;
  UpdatePrefixCache requests ;;;
  let* rets := mapM (CollectRequest max_single_sequence_length) requests in
  ret (omap fst rets, concat (snd <$> rets)).

Definition ActionStepPostProcess (fuel : nat) (requests : list Request)
    (max_single_sequence_length : Z) : M unit :=
  let* r := CollectStep requests max_single_sequence_length in
  modify (emit (EvStreamCallback r.1)) ;;;
  ProcessFinishedRequestStateEntries fuel r.2.

End Engine.

(** ** Preemption *)

(** The search [for (int i = size - 1; i >= 0; --i)] for the last alive
    entry, over the indices below [k]. *)
Fixpoint find_last_alive (k : nat) (es : list RequestStateEntry) : option nat :=
  match k with
  | O => None
  | S k' =>
      match es !! k' with
      | Some e =>
          if decide (status e = kAlive) then Some k' else find_last_alive k' es
      | None => None
      end
  end.

Definition committed_token_ids (m : RequestModelState) : list Z :=
  (fun t => (sampled_token_id t).1) <$> committed_tokens m.

(** The [inputs] rebuilt for one model state; [None] is [inputs.back()] on
    an empty array. *)
Definition rebuild_inputs (req : Request) (parent_idx0 : Z) (ids : list Z)
    : option (list Data) :=
  if parent_idx0 =? -1 then
    let inputs0 := req_inputs req in
    match last inputs0 with
    | None => None
    | Some back =>
        match as_TokenDataNode back with
        | Some token_input =>
            Some (<[Z.to_nat (Z.of_nat (length inputs0) - 1) :=
                     TokenData ((to_int <$> token_input) ++ ids)]> inputs0)
        | None =>
            Some (if negb (bool_decide (ids = [])) then inputs0 ++ [TokenData ids]
                  else inputs0)
        end
    end
  else
    Some (if negb (bool_decide (ids = [])) then [TokenData ids] else []).

(** Modelled from the spec: [mstate->RemoveAllDraftTokens(&slots)]
    (missing body), "release all draft-token slots": the slots of the model
    state are handed out and its draft tokens and slots are cleared. *)
Definition RemoveAllDraftTokens (m : RequestModelState) : list Z * RequestModelState :=
  (draft_token_slots m,
   {| internal_id := internal_id m; model_id := model_id m;
      committed_tokens := committed_tokens m; inputs := inputs m;
      prefilled_inputs := prefilled_inputs m;
      cached_committed_tokens := cached_committed_tokens m;
      num_prefilled_tokens := num_prefilled_tokens m;
      draft_output_tokens := []; draft_token_slots := [] |}).

Definition update_mstate (h : EntryRef) (j : nat)
    (f : RequestModelState -> RequestModelState) : M unit :=
  let* e := load_entry h in
  let* m := deref (mstates e !! j) in
  store_entry h (set_mstates (<[j := f m]> (mstates e)) e).

(** The body of the first [for (RequestModelState mstate : rsentry->mstates)]
    of [PreemptLastRunningRequestStateEntry], for the [j]-th model state;
    [workspace] is [draft_token_workspace_manager.defined()]. *)
Definition PreemptModelState (workspace : bool) (req : Request) (rsentry : EntryRef)
    (j : nat) : M unit :=
  (if workspace then
     let* e := load_entry rsentry in
     let* m := deref (mstates e !! j) in
     update_mstate rsentry j (fun m => (RemoveAllDraftTokens m).2) ;;;
     modify (emit (EvFreeSlots (RemoveAllDraftTokens m).1))
   else ret tt) ;;;
  let* e := load_entry rsentry in
  let* m := deref (mstates e !! j) in
  update_mstate rsentry j (set_num_prefilled_tokens 0) ;;;
  let* inputs1 := deref (rebuild_inputs req (parent_idx e) (committed_token_ids m)) in
  update_mstate rsentry j (set_inputs inputs1) ;;;
  update_mstate rsentry j (set_prefilled_inputs []) ;;;
  update_mstate rsentry j (set_cached_committed_tokens 0).

Definition PreemptLastRunningRequestStateEntry (workspace : bool) : M EntryRef :=
  let* q := gets running_queue in
  ICHECK (negb (bool_decide (q = []))) ;;;
  let* req := deref (last q) in
  let* rstate := GetRequestState req in
  let* rs := load_rstate rstate in
  let size := to_int (Z.of_nat (length (entries rs))) in
  let* preempt_rstate_idx := deref (find_last_alive (Z.to_nat size) (entries rs)) in
  let rsentry : EntryRef := (rstate, preempt_rstate_idx) in
  let* e := load_entry rsentry in
  let* m0 := deref (mstates e !! 0%nat) in
  let partially_alive := negb (bool_decide (inputs m0 = [])) in
  store_entry rsentry (set_status kPending e) ;;;
  forM_ (seq 0 (length (mstates e))) (PreemptModelState workspace req rsentry) ;;;
  let* held := gets (fun s => HasSequence (prefix_cache s) (internal_id m0)) in
  (if held then call_RecycleSequence (internal_id m0) false
   else RemoveRequestFromModel (internal_id m0)) ;;;
  let* new_seq_id := call_GetNewId in
  forM_ (seq 0 (length (mstates e))) (fun j =>
    update_mstate rsentry j (set_internal_id new_seq_id)) ;;;
  (if bool_decide (preempt_rstate_idx = 0%nat) then
     modify (fun s => set_running_queue (removelast (running_queue s)) s)
   else ret tt) ;;;
  (if negb partially_alive && (Z.of_nat preempt_rstate_idx =? size - 1) then
     modify (fun s => set_waiting_queue (req :: waiting_queue s) s)
   else ret tt) ;;;
  ret rsentry.

(** * Specification vocabulary *)

Definition is_token_data (data : Data) : Prop := is_Some (as_TokenDataNode data).

(** The tokens [UpdatePrefixCache] pushes for the committed tokens of a
    model state whose watermark is behind: those at the positions from the
    watermark up to, and without, the last one. *)
Definition pushed_committed (m : RequestModelState) : list Z :=
  (fun t => (sampled_token_id t).1) <$>
    take (length (committed_tokens m) - 1 - Z.to_nat (cached_committed_tokens m))
         (drop (Z.to_nat (cached_committed_tokens m)) (committed_tokens m)).

(** The world after [ExtendSequence] was called for each token list. *)
Definition announced (i : Z) (blocks : list (list Z)) (s : Machine) : Machine :=
  foldl (fun s' tokens =>
           emit (EvExtendSequence i tokens)
             (set_caches (ExtendSequence i tokens (prefix_cache s'), models s') s'))
        s blocks.

(** What a step leaves alone outside the request state nodes, the
    statistics and the trace. *)
Definition engine_frame (s s' : Machine) : Prop :=
  request_states s' = request_states s /\
  running_queue s' = running_queue s /\
  waiting_queue s' = waiting_queue s /\
  id_manager s' = id_manager s /\
  models s' = models s /\
  clock_reads s' = clock_reads s /\
  (forall j, HasSequence (prefix_cache s') j = HasSequence (prefix_cache s) j).

(** The model state [UpdatePrefixCache] leaves behind for a sequence the
    prefix cache holds. *)
Definition reconciled (m : RequestModelState) : RequestModelState :=
  set_cached_committed_tokens
    (if cached_committed_tokens m <? Z.of_nat (length (committed_tokens m)) - 1
     then Z.of_nat (length (committed_tokens m)) - 1
     else cached_committed_tokens m)
    (set_prefilled_inputs [] m).

(** The calls [UpdatePrefixCache] makes for such a model state. *)
Definition reconcile_calls (m : RequestModelState) : list Event :=
  (EvExtendSequence (internal_id m) <$> omap as_TokenDataNode (prefilled_inputs m)) ++
  (if cached_committed_tokens m <? Z.of_nat (length (committed_tokens m)) - 1
   then [EvExtendSequence (internal_id m) (pushed_committed m)] else []).

(** What [UpdatePrefixCache] needs of an entry to get through it: a first
    model state and, when the prefix cache holds its sequence, prefilled
    blocks that are token data, a watermark that is a count, and a number
    of committed tokens an [int] can index. *)
Definition entry_ready (pc : PrefixCache) (e : RequestStateEntry) : Prop :=
  exists m0, mstates e !! 0%nat = Some m0 /\
    (HasSequence pc (internal_id m0) = true ->
     Forall is_token_data (prefilled_inputs m0) /\
     0 <= cached_committed_tokens m0 /\
     Z.of_nat (length (committed_tokens m0)) <= 2 ^ 31).

Definition store_ready (pc : PrefixCache) (st : gmap string RequestState) : Prop :=
  forall h e, store_lookup st h = Some e -> entry_ready pc e.

(** The entry [UpdatePrefixCache] leaves behind. *)
Definition settle (pc : PrefixCache) (e : RequestStateEntry) : RequestStateEntry :=
  match mstates e !! 0%nat with
  | Some m0 =>
      if HasSequence pc (internal_id m0)
      then set_mstates (<[0%nat := reconciled m0]> (mstates e)) e
      else e
  | None => e
  end.

Definition settle_at (pc : PrefixCache) (h : EntryRef)
    (st : gmap string RequestState) : gmap string RequestState :=
  alter (fun rs => {| entries := alter (settle pc) h.2 (entries rs) |}) h.1 st.

Definition settle_all (pc : PrefixCache) (hs : list EntryRef)
    (st : gmap string RequestState) : gmap string RequestState :=
  foldl (fun st' h => settle_at pc h st') st hs.

(** The handles of the entries of a request, in the order of the loop. *)
Definition entry_refs (st : gmap string RequestState) (req : Request) : list EntryRef :=
  match st !! id req with
  | Some rs => (fun i => (id req, i)) <$> seq 0 (length (entries rs))
  | None => []
  end.

(** The calls [UpdatePrefixCache] makes for the entry behind a handle. *)
Definition entry_calls (pc : PrefixCache) (st : gmap string RequestState) (h : EntryRef)
    : list Event :=
  match store_lookup st h with
  | Some e =>
      match mstates e !! 0%nat with
      | Some m0 => if HasSequence pc (internal_id m0) then reconcile_calls m0 else []
      | None => []
      end
  | None => []
  end.

(** The requests of a step are known to the engine. *)
Definition requests_known (s : Machine) (requests : list Request) : Prop :=
  Forall (fun req => id req ∈ request_states s /\ is_Some (rstate_store s !! id req)) requests.

(** From a world in [P], the run ends normally in [Q] or abnormally in
    [E]. *)
Definition triple {A : Type} (P : Machine -> Prop) (c : M A)
    (Q : A -> Machine -> Prop) (E : Machine -> Prop) : Prop :=
  forall s, P s ->
    match c s with
    | Ok a s' => Q a s'
    | Fault s' => E s'
    | Spin s' => E s'
    end.

(** [I] holds in whatever world the run ends. *)
Definition stable {A : Type} (I : Machine -> Prop) (c : M A) : Prop :=
  triple I c (fun _ => I) I.

(** The child at index [c] exists and is finished. *)
Definition child_finished (es : list RequestStateEntry) (c : Z) : Prop :=
  match at_index es c with
  | Some ec => status ec = kFinished
  | None => False
  end.

#[global] Instance child_finished_dec es c : Decision (child_finished es c).
Proof. unfold child_finished. destruct (at_index es c); apply _. Defined.

(** No entry is finished while one of its children is not. *)
Definition entry_post_order (es : list RequestStateEntry) (e : RequestStateEntry) : Prop :=
  status e = kFinished -> Forall (child_finished es) (child_indices e).

Definition rstate_post_order (rs : RequestState) : Prop :=
  Forall (entry_post_order (entries rs)) (entries rs).

Definition post_order (s : Machine) : Prop :=
  map_Forall (fun _ rs => rstate_post_order rs) (rstate_store s).

(** Entries change by being marked finished, and in no other way. *)
Definition only_finishes (s s' : Machine) : Prop :=
  forall h e, lookup_entry s h = Some e ->
    lookup_entry s' h = Some e \/ lookup_entry s' h = Some (set_status kFinished e).

(** What [ProcessFinishedRequestStateEntries] keeps, relative to the world
    [s0] it started from. *)
Definition finishing (s0 s : Machine) : Prop := (post_order s0 -> post_order s) /\ only_finishes s0 s.

Definition committed_count (e : RequestStateEntry) : Z :=
  match mstates e !! 0%nat with
  | Some m0 => Z.of_nat (length (committed_tokens m0))
  | None => 0
  end.

(** The sum of [|mstates[0].committed_tokens|] over the entries. *)
Definition sum_committed (es : list RequestStateEntry) : Z :=
  foldr (fun e acc => committed_count e + acc) 0 es.

(** What finishing an entry and climbing leave alone. *)
Definition retire_frame (s0 s : Machine) : Prop :=
  stats s = stats s0 /\
  running_queue s = running_queue s0 /\
  waiting_queue s = waiting_queue s0 /\
  request_states s = request_states s0 /\
  clock_reads s = clock_reads s0.

(** The tree of a request state: a parent comes before its children, the
    child indices are valid, and every entry has a first model state. *)
Definition tree_wf (rs : RequestState) : Prop :=
  forall i e, entries rs !! i = Some e ->
    (parent_idx e = -1 \/ 0 <= parent_idx e < Z.of_nat i) /\
    Forall (fun c => is_Some (at_index (entries rs) c)) (child_indices e) /\
    is_Some (mstates e !! 0%nat).

(** The model state preemption leaves behind, before the new id is
    stamped on it. *)
Definition preempted (workspace : bool) (inputs1 : list Data) (m : RequestModelState)
    : RequestModelState :=
  set_cached_committed_tokens 0
    (set_prefilled_inputs []
       (set_inputs inputs1
          (set_num_prefilled_tokens 0
             (if workspace then (RemoveAllDraftTokens m).2 else m)))).

Definition entry_with (e : RequestStateEntry) (j : nat) (m : RequestModelState)
    : RequestStateEntry :=
  set_mstates (<[j := m]> (mstates e)) e.

(** Everything but the request state nodes and the trace is as before. *)
Definition engine_same (s s' : Machine) : Prop :=
  running_queue s' = running_queue s /\
  waiting_queue s' = waiting_queue s /\
  request_states s' = request_states s /\
  id_manager s' = id_manager s /\
  prefix_cache s' = prefix_cache s /\
  stats s' = stats s /\
  models s' = models s /\
  clock_reads s' = clock_reads s.

(** The inputs rebuilt for a model state, where [rebuild_inputs] yields
    some. *)
Definition rebuilt (req : Request) (parent_idx0 : Z) (m : RequestModelState) : list Data :=
  default [] (rebuild_inputs req parent_idx0 (committed_token_ids m)).

(** What preemption needs to get through: a last running request with a
    state, an alive entry in it, a first model state on that entry, fewer
    entries than an [int] can count, and, to rebuild the inputs of a root
    entry, a request with at least one input block. *)
Record preemptible (s : Machine) (req : Request) (rs : RequestState) (k : nat)
    (e : RequestStateEntry) (m0 : RequestModelState) : Prop := {
  pre_last : last (running_queue s) = Some req;
  pre_known : id req ∈ request_states s;
  pre_rstate : rstate_store s !! id req = Some rs;
  pre_size : Z.of_nat (length (entries rs)) < 2 ^ 31;
  pre_alive : find_last_alive (length (entries rs)) (entries rs) = Some k;
  pre_entry : entries rs !! k = Some e;
  pre_mstate : mstates e !! 0%nat = Some m0;
  pre_inputs : parent_idx e = -1 -> req_inputs req <> []
}.

(** The model state after preemption, with the new id. *)
Definition restarted (workspace : bool) (req : Request) (p new_seq_id : Z)
    (m : RequestModelState) : RequestModelState :=
  set_internal_id new_seq_id (preempted workspace (rebuilt req p m) m).

(** The calls that release the sequence of a preempted entry. *)
Definition release_calls (s : Machine) (i : Z) : list Event :=
  if HasSequence (prefix_cache s) i then [EvRecycleSequence i false]
  else (fun k => EvRemoveSequence k i) <$> seq 0 (length (models s)).

(** An id the ID manager has handed out and not got back. *)
Definition id_in_use (idm : IdManager) (i : Z) : Prop :=
  i < id_cnt idm /\ (i ∉ available_ids idm) /\
  Forall (fun j => j < id_cnt idm) (available_ids idm).

Definition is_int32 (z : Z) : Prop := - 2 ^ 31 <= z < 2 ^ 31.

Definition is_RecycleId (ev : Event) : Prop :=
  match ev with EvRecycleId _ => True | _ => False end.

Definition is_GetNewId (ev : Event) : Prop :=
  match ev with EvGetNewId _ => True | _ => False end.

Definition sum_lengths (blocks : list Data) : Z :=
  foldr (fun d acc => GetLength d + acc) 0 blocks.

(** The length the statistics pass counts for an entry. *)
Definition prefilled_length (e : RequestStateEntry) : Z :=
  match mstates e !! 0%nat with
  | Some m0 => sum_lengths (prefilled_inputs m0)
  | None => 0
  end.

Definition is_callback (ev : Event) : Prop :=
  match ev with EvStreamCallback _ => True | _ => False end.

Definition is_delta_report (ev : Event) : Prop :=
  match ev with EvGetReturnTokenIds _ _ => True | _ => False end.

(** The calls made since [s0] all satisfy [P]. *)
Definition extends_by (P : Event -> Prop) (s0 s : Machine) : Prop :=
  exists evs, trace s = trace s0 ++ evs /\ Forall P evs.

(** Nothing has been erased since [s0], and the request state nodes have
    kept their shape. *)
Definition collect_frame (s0 s : Machine) : Prop :=
  request_states s = request_states s0 /\
  running_queue s = running_queue s0 /\
  (forall h, is_Some (lookup_entry s h) <-> is_Some (lookup_entry s0 h)) /\
  (forall r, is_Some (rstate_store s !! r) <-> is_Some (rstate_store s0 !! r)).

(** The entry of the [i]-th generation of a request. *)
Definition generation_ref (req : Request) (i : nat) : EntryRef :=
  (id req, if n (generation_cfg req) =? 1 then 0%nat else S i).

Definition generation_refs (req : Request) : list EntryRef :=
  generation_ref req <$> seq 0 (Z.to_nat (n (generation_cfg req))).

(** The requests of a step have their generation entries. *)
Definition generations_present (s : Machine) (requests : list Request) : Prop :=
  Forall (fun req => Forall (fun h => is_Some (lookup_entry s h)) (generation_refs req))
         requests.

Definition report_events (g : list (EntryRef * DeltaRequestReturn)) : list Event :=
  (fun r => EvGetReturnTokenIds r.1 r.2) <$> g.

(** What the collection loop yields for a request, from the deltas of its
    generations. *)
Definition request_result (req : Request) (g : list (EntryRef * DeltaRequestReturn))
    : option RequestStreamOutput * list EntryRef :=
  (if invoke_callback (snd <$> g) then Some (make_output req (snd <$> g)) else None,
   fst <$> filter (fun r => has_finish_reason r.2 = true) g).

Definition new_delta (d : DeltaRequestReturn) : Prop :=
  delta_token_ids d <> [] \/ is_Some (finish_reason d).

#[global] Instance new_delta_dec (d : DeltaRequestReturn) : Decision (new_delta d).
Proof. unfold new_delta. apply _. Defined.

(** The output for a request whose generation entries returned the deltas
    [g], in the order of the generations: the delta token ids and the
    finish reasons of all of them, and their log-probabilities when the
    request asks for some. *)
Definition stream_output (req : Request) (g : list (EntryRef * DeltaRequestReturn))
    : RequestStreamOutput :=
  {| request_id := id req;
     group_delta_token_ids := (fun r => delta_token_ids r.2) <$> g;
     group_delta_logprob_json_strs :=
       if decide (0 < logprobs (generation_cfg req))
       then Some ((fun r => delta_logprob_json_strs r.2) <$> g) else None;
     group_finish_reason := (fun r => finish_reason r.2) <$> g |}.

(** The batch of a step: the outputs of the requests one of whose
    generation entries returned something new, in the order of the
    requests. *)
Definition batch_of (requests : list Request)
    (gs : list (list (EntryRef * DeltaRequestReturn))) : list RequestStreamOutput :=
  omap (fun rg : Request * list (EntryRef * DeltaRequestReturn) =>
          if decide (Exists (fun r => new_delta r.2) rg.2)
          then Some (stream_output rg.1 rg.2) else None)
       (zip requests gs).

(** The delta [r] carries is the one [GetReturnTokenIds] returns for the
    entry behind its handle in world [s]. *)
Definition returned_in
    (GetReturnTokenIds : Z -> RequestStateEntry -> DeltaRequestReturn * RequestStateEntry)
    (max_single_sequence_length : Z) (s : Machine)
    (r : EntryRef * DeltaRequestReturn) : Prop :=
  exists e, lookup_entry s r.1 = Some e /\
    r.2 = (GetReturnTokenIds max_single_sequence_length e).1.

(** The delta [r] carries is the one [GetReturnTokenIds] returns for the
    entry behind its handle as the reconciliation of a step from world [s]
    leaves that entry. *)
Definition delta_of
    (GetReturnTokenIds : Z -> RequestStateEntry -> DeltaRequestReturn * RequestStateEntry)
    (max_single_sequence_length : Z) (s : Machine)
    (r : EntryRef * DeltaRequestReturn) : Prop :=
  exists e, lookup_entry s r.1 = Some e /\
    r.2 = (GetReturnTokenIds max_single_sequence_length
             (settle (prefix_cache s) e)).1.

(** The calls of the reconciliation before the collection are neither a
    stream callback nor a delta report. *)
Definition plain_call (ev : Event) : Prop := ~ is_callback ev /\ ~ is_delta_report ev.

Definition no_callback (ev : Event) : Prop := ~ is_callback ev.

(** An entry [UpdatePrefixCache] has nothing to do for: when the prefix
    cache holds its sequence, no prefilled block is left and the watermark
    is not below the number of committed tokens minus one. *)
Definition entry_settled (pc : PrefixCache) (e : RequestStateEntry) : Prop :=
  exists m0, mstates e !! 0%nat = Some m0 /\
    (HasSequence pc (internal_id m0) = true ->
     prefilled_inputs m0 = [] /\
     ~ cached_committed_tokens m0 < Z.of_nat (length (committed_tokens m0)) - 1).

(** Model states that differ at most in [prefilled_inputs] and
    [cached_committed_tokens]. *)
Definition mstate_kept (m m' : RequestModelState) : Prop :=
  internal_id m' = internal_id m /\
  model_id m' = model_id m /\
  committed_tokens m' = committed_tokens m /\
  inputs m' = inputs m /\
  num_prefilled_tokens m' = num_prefilled_tokens m /\
  draft_output_tokens m' = draft_output_tokens m /\
  draft_token_slots m' = draft_token_slots m.

(** Entries that differ at most in those two fields of their first model
    state. *)
Definition entry_kept (e e' : RequestStateEntry) : Prop :=
  status e' = status e /\
  request e' = request e /\
  parent_idx e' = parent_idx e /\
  child_indices e' = child_indices e /\
  next_callback_token_pos e' = next_callback_token_pos e /\
  tadd e' = tadd e /\
  tprefill_finish e' = tprefill_finish e /\
  Forall2 mstate_kept (mstates e) (mstates e') /\
  drop 1 (mstates e') = drop 1 (mstates e).

(** Worlds that differ at most in the prefix cache, the models, the trace
    and those two fields of the entries. *)
Definition cache_notes_only (s0 s : Machine) : Prop :=
  running_queue s = running_queue s0 /\
  waiting_queue s = waiting_queue s0 /\
  request_states s = request_states s0 /\
  id_manager s = id_manager s0 /\
  stats s = stats s0 /\
  clock_reads s = clock_reads s0 /\
  forall h, option_Forall2 entry_kept (lookup_entry s0 h) (lookup_entry s h).

Definition is_ExtendSequence (ev : Event) : Prop :=
  match ev with EvExtendSequence _ _ => True | _ => False end.

(** The sum of the lengths of the prefilled blocks of the entries behind
    the handles. *)
Definition sum_prefilled (st : gmap string RequestState) (hs : list EntryRef) : Z :=
  foldr (fun h acc => from_option prefilled_length 0 (store_lookup st h) + acc) 0 hs.

(** Nothing has been added to the queues or to [request_states]. *)
Definition never_enqueues (s0 s : Machine) : Prop :=
  waiting_queue s = waiting_queue s0 /\
  running_queue s `sublist_of` running_queue s0 /\
  request_states s ⊆ request_states s0.

(** The entries [GetReturnTokenIds] was called for, in the order of the
    calls. *)
Definition reported_entries (evs : list Event) : list EntryRef :=
  omap (fun ev => match ev with EvGetReturnTokenIds h _ => Some h | _ => None end) evs.

(** The calls made since the world [s0]. *)
Definition calls_since (s0 s : Machine) : list Event :=
  drop (length (trace s0)) (trace s).

(** The entries of a request's generations whose delta carries a finish
    reason. *)
Definition finished_of (g : list (EntryRef * DeltaRequestReturn)) : list EntryRef :=
  fst <$> filter (fun r => has_finish_reason r.2 = true) g.

(** A delta report carries a delta that [GetReturnTokenIds] returned. *)
Definition reports_from
    (GetReturnTokenIds : Z -> RequestStateEntry -> DeltaRequestReturn * RequestStateEntry)
    (max_single_sequence_length : Z) (ev : Event) : Prop :=
  match ev with
  | EvGetReturnTokenIds _ d => exists e, d = (GetReturnTokenIds max_single_sequence_length e).1
  | _ => True
  end.

(** The length of the inputs preemption rebuilds for a model state with
    [committed] committed tokens: that of the request's inputs for a root
    entry, nothing for a child, and the committed tokens. *)
Definition restart_length (req : Request) (parent_idx0 : Z) (committed : nat) : Z :=
  (if decide (parent_idx0 = -1) then sum_lengths (req_inputs req) else 0)
  + Z.of_nat committed.

Definition is_FreeSlots (ev : Event) : Prop :=
  match ev with EvFreeSlots _ => True | _ => False end.

(** The token ids at the positions from [lo] up to, and without, [hi] of
    a list of committed tokens. *)
Definition committed_slice (lo hi : nat) (committed : list SampleResult) : list Z :=
  (fun t => (sampled_token_id t).1) <$> take (hi - lo) (drop lo committed).

(** The call that pushes committed tokens, if there are any to push. *)
Definition push_call (i : Z) (tokens : list Z) : list Event :=
  if decide (tokens = []) then [] else [EvExtendSequence i tokens].

(** The calls that announce prefilled blocks. *)
Definition block_calls (i : Z) (blocks : list Data) : list Event :=
  EvExtendSequence i <$> omap as_TokenDataNode blocks.

Definition is_release (ev : Event) : Prop :=
  match ev with
  | EvRecycleSequence _ _ | EvRemoveSequence _ _ | EvRecycleId _ => True
  | _ => False
  end.

(** The calls [RemoveRequestStateEntry] makes for an entry in world [s]:
    none for a pinned sequence the prefix cache holds, its lazy recycling
    for a held one that is not pinned, else its removal from every model
    and the recycling of its id. *)
Definition retire_calls (s : Machine) (e : RequestStateEntry) : list Event :=
  match mstates e !! 0%nat with
  | Some m0 =>
      if HasSequence (prefix_cache s) (internal_id m0) then
        if is_pinned (request e) then [] else [EvRecycleSequence (internal_id m0) true]
      else
        ((fun k => EvRemoveSequence k (internal_id m0)) <$> seq 0 (length (models s)))
        ++ [EvRecycleId (internal_id m0)]
  | None => []
  end.

(** The prefix cache, the models and the ID manager after those calls: a
    lazily recycled sequence is no longer managed by the prefix cache, a
    sequence the prefix cache did not hold is in no model any more and its
    id is back in the free pool. *)
Definition retired_caches (s : Machine) (e : RequestStateEntry)
    : PrefixCache * list Model * IdManager :=
  match mstates e !! 0%nat with
  | Some m0 =>
      if HasSequence (prefix_cache s) (internal_id m0) then
        if is_pinned (request e) then (prefix_cache s, models s, id_manager s)
        else (RecycleSequence (internal_id m0) true (prefix_cache s, models s), id_manager s)
      else
        (prefix_cache s, RemoveSequence (internal_id m0) <$> models s,
         RecycleId (internal_id m0) (id_manager s))
  | None => (prefix_cache s, models s, id_manager s)
  end.

(** In world [s] the entry behind [h] is [e], and every child of it is
    finished. *)
Definition children_finished (s : Machine) (h : EntryRef) (e : RequestStateEntry) : Prop :=
  exists rs, rstate_store s !! h.1 = Some rs /\ entries rs !! h.2 = Some e /\
    Forall (child_finished (entries rs)) (child_indices e).

(** World [s'] is world [s] after the entry [e] behind [h], all of whose
    children were finished, was marked finished and its resources were
    released: [e] is the one entry that changed, the calls made are those
    that release its sequence, with their effect on the prefix cache, the
    models and the ID manager, and the rest of the engine state is as it
    was. *)
Definition finished_and_released (h : EntryRef) (e : RequestStateEntry)
    (s s' : Machine) : Prop :=
  children_finished s h e /\
  is_Some (mstates e !! 0%nat) /\
  rstate_store s' = store_write h (set_status kFinished e) (rstate_store s) /\
  trace s' = trace s ++ retire_calls s e /\
  (prefix_cache s', models s', id_manager s') = retired_caches s e /\
  retire_frame s s'.

(** One step of the processing of finished entries: an entry whose
    children are all finished is marked finished and released
    ([step_release]); such an entry is marked, and its release is an
    invalid access for want of a first model state ([step_mark]); or
    neither an entry, nor a cache, nor the ID manager is touched and no
    call is made ([step_retire]). *)
Inductive finish_step (s s' : Machine) : Prop :=
| step_release (h : EntryRef) (e : RequestStateEntry) :
    finished_and_released h e s s' -> finish_step s s'
| step_mark (h : EntryRef) (e : RequestStateEntry) :
    children_finished s h e -> mstates e !! 0%nat = None ->
    s' = write_entry h (set_status kFinished e) s -> finish_step s s'
| step_retire :
    rstate_store s' = rstate_store s -> trace s' = trace s ->
    prefix_cache s' = prefix_cache s -> models s' = models s ->
    id_manager s' = id_manager s -> finish_step s s'.

(** The way up from the entry at index [p] of a request state: from world
    [s] the entries at [p], at its parent, and so on, were each marked
    finished and released with all their children finished, up to and
    without the index [p'], in world [s']. *)
Inductive finish_trail (rstate : string) : Z -> Machine -> Z -> Machine -> Prop :=
| trail_end (p : Z) (s : Machine) : finish_trail rstate p s p s
| trail_up (p : Z) (s s2 : Machine) (parent : RequestStateEntry) (p' : Z) (s' : Machine) :
    0 <= p ->
    finished_and_released (rstate, Z.to_nat p) parent s s2 ->
    finish_trail rstate (parent_idx parent) s2 p' s' ->
    finish_trail rstate p s p' s'.

(** * Scenarios *)

Definition token (i : Z) : SampleResult :=
  {| sampled_token_id := (i, 0); top_logprobs := [] |}.

Definition config (n0 : Z) (pinned : bool) : GenerationConfig :=
  {| n := n0; logprobs := 0;
     debug_config := if pinned then Some {| pinned_system_prompt := true |} else None |}.

Definition no_stats : EngineStatistics :=
  {| total_prefill_length := 0; total_decode_length := 0;
     request_total_prefill_time := 0%float; request_total_decode_time := 0%float |}.

Definition fresh_mstate (i : Z) (committed : list Z) (prefilled : list Data)
    : RequestModelState :=
  {| internal_id := i; model_id := 0; committed_tokens := token <$> committed;
     inputs := []; prefilled_inputs := prefilled; cached_committed_tokens := 0;
     num_prefilled_tokens := sum_lengths prefilled;
     draft_output_tokens := []; draft_token_slots := [] |}.

(** One request with one generation: prompt [1; 2; 3], prefilled, and
    three committed tokens. *)
Definition request_a : Request :=
  {| id := "a"; req_inputs := [TokenData [1; 2; 3]]; generation_cfg := config 1 false |}.

Definition mstate_a : RequestModelState :=
  fresh_mstate 0 [7; 8; 9] [TokenData [1; 2; 3]].

Definition entry_a : RequestStateEntry :=
  {| status := kAlive; request := request_a; parent_idx := -1; child_indices := [];
     mstates := [mstate_a]; next_callback_token_pos := 0; tadd := 10;
     tprefill_finish := 25 |}.

(** The sequence of [request_a] is held by the prefix cache. *)
Definition world_a : Machine :=
  {| running_queue := [request_a]; waiting_queue := [];
     request_states := {[ "a" ]};
     id_manager := {| id_cnt := 1; available_ids := [] |};
     prefix_cache := {| pc_active := {[ 0 := [] ]}; pc_reclaimable := [] |};
     stats := no_stats;
     rstate_store := {[ "a" := {| entries := [entry_a] |} ]};
     models := [ {| kv_sequences := {[ 0 ]} |} ];
     trace := []; clock_reads := 0 |}.

(** The same without a prefix cache entry: the sequence is in the model's
    KV-cache only. *)
Definition world_cold : Machine :=
  {| running_queue := [request_a]; waiting_queue := [];
     request_states := {[ "a" ]};
     id_manager := {| id_cnt := 1; available_ids := [] |};
     prefix_cache := {| pc_active := ∅; pc_reclaimable := [] |};
     stats := no_stats;
     rstate_store := {[ "a" := {| entries := [entry_a] |} ]};
     models := [ {| kv_sequences := {[ 0 ]} |} ];
     trace := []; clock_reads := 0 |}.

(** A request whose prompt is an image; its sequence is held by the prefix
    cache and the image block has been prefilled. *)
Definition request_img : Request :=
  {| id := "img"; req_inputs := [ImageData 16]; generation_cfg := config 1 false |}.

Definition entry_img : RequestStateEntry :=
  {| status := kAlive; request := request_img; parent_idx := -1; child_indices := [];
     mstates := [fresh_mstate 0 [] [ImageData 16]]; next_callback_token_pos := 0;
     tadd := 0; tprefill_finish := 0 |}.

Definition world_img : Machine :=
  {| running_queue := [request_img]; waiting_queue := [];
     request_states := {[ "img" ]};
     id_manager := {| id_cnt := 1; available_ids := [] |};
     prefix_cache := {| pc_active := {[ 0 := [] ]}; pc_reclaimable := [] |};
     stats := no_stats;
     rstate_store := {[ "img" := {| entries := [entry_img] |} ]};
     models := [ {| kv_sequences := {[ 0 ]} |} ];
     trace := []; clock_reads := 0 |}.

(** A request with two parallel generations: the root and two children,
    the first of which has finished before. *)
Definition request_b : Request :=
  {| id := "b"; req_inputs := [TokenData [5; 5]]; generation_cfg := config 2 false |}.

Definition entries_b : list RequestStateEntry :=
  [ {| status := kAlive; request := request_b; parent_idx := -1; child_indices := [1; 2];
       mstates := [fresh_mstate 1 [] []]; next_callback_token_pos := 0; tadd := 100;
       tprefill_finish := 130 |};
    {| status := kFinished; request := request_b; parent_idx := 0; child_indices := [];
       mstates := [fresh_mstate 2 [9; 2] []]; next_callback_token_pos := 2; tadd := 100;
       tprefill_finish := 130 |};
    {| status := kAlive; request := request_b; parent_idx := 0; child_indices := [];
       mstates := [fresh_mstate 3 [9; 10; 11] []]; next_callback_token_pos := 3;
       tadd := 100; tprefill_finish := 130 |} ].

Definition world_b : Machine :=
  {| running_queue := [request_b]; waiting_queue := [];
     request_states := {[ "b" ]};
     id_manager := {| id_cnt := 4; available_ids := [2; 0] |};
     prefix_cache := {| pc_active := ∅; pc_reclaimable := [] |};
     stats := no_stats;
     rstate_store := {[ "b" := {| entries := entries_b |} ]};
     models := [ {| kv_sequences := {[ 1; 3 ]} |} ];
     trace := []; clock_reads := 0 |}.

(** A clock that reads 1000 ns, and a [GetReturnTokenIds] that reports
    nothing new. *)
Definition clock_1000 : nat -> Z := fun _ => 1000.

Definition nothing_new (max_single_sequence_length : Z) (e : RequestStateEntry)
    : DeltaRequestReturn * RequestStateEntry :=
  ({| delta_token_ids := []; delta_logprob_json_strs := []; finish_reason := None |}, e).

(** A [GetReturnTokenIds] that reports one token and the finish reason
    ["stop"]. *)
Definition reports_stop (max_single_sequence_length : Z) (e : RequestStateEntry)
    : DeltaRequestReturn * RequestStateEntry :=
  ({| delta_token_ids := [9]; delta_logprob_json_strs := [];
      finish_reason := Some "stop" |}, e).

(** The request with two generations after all its entries were
    preempted: none is alive. *)
Definition world_idle : Machine :=
  {| running_queue := [request_b]; waiting_queue := [];
     request_states := {[ "b" ]};
     id_manager := {| id_cnt := 4; available_ids := [2; 0] |};
     prefix_cache := {| pc_active := ∅; pc_reclaimable := [] |};
     stats := no_stats;
     rstate_store := {[ "b" := {| entries := set_status kPending <$> entries_b |} ]};
     models := [ {| kv_sequences := ∅ |} ];
     trace := []; clock_reads := 0 |}.

(** The request with two generations, with only its root entry. *)
Definition world_short : Machine :=
  {| running_queue := [request_b]; waiting_queue := [];
     request_states := {[ "b" ]};
     id_manager := {| id_cnt := 4; available_ids := [] |};
     prefix_cache := {| pc_active := ∅; pc_reclaimable := [] |};
     stats := no_stats;
     rstate_store := {[ "b" := {| entries := take 1 entries_b |} ]};
     models := [ {| kv_sequences := {[ 1 ]} |} ];
     trace := []; clock_reads := 0 |}.

(** [request_a], held by the prefix cache, while it is not in
    [running_queue]. *)
Definition world_parked : Machine :=
  {| running_queue := []; waiting_queue := [request_a];
     request_states := {[ "a" ]};
     id_manager := {| id_cnt := 1; available_ids := [] |};
     prefix_cache := {| pc_active := {[ 0 := [] ]}; pc_reclaimable := [] |};
     stats := no_stats;
     rstate_store := {[ "a" := {| entries := [entry_a] |} ]};
     models := [ {| kv_sequences := {[ 0 ]} |} ];
     trace := []; clock_reads := 0 |}.

(** [request_a] two decode steps after a reconciliation: two more tokens
    are committed, the prefilled block is drained and the watermark is at
    two. *)
Definition mstate_a_later : RequestModelState :=
  {| internal_id := 0; model_id := 0; committed_tokens := token <$> [7; 8; 9; 10; 11];
     inputs := []; prefilled_inputs := []; cached_committed_tokens := 2;
     num_prefilled_tokens := 3; draft_output_tokens := []; draft_token_slots := [] |}.

Definition entry_a_later : RequestStateEntry :=
  {| status := kAlive; request := request_a; parent_idx := -1; child_indices := [];
     mstates := [mstate_a_later]; next_callback_token_pos := 3; tadd := 10;
     tprefill_finish := 25 |}.

Definition world_a_later : Machine :=
  {| running_queue := [request_a]; waiting_queue := [];
     request_states := {[ "a" ]};
     id_manager := {| id_cnt := 1; available_ids := [] |};
     prefix_cache := {| pc_active := {[ 0 := [1; 2; 3; 7; 8] ]}; pc_reclaimable := [] |};
     stats := no_stats;
     rstate_store := {[ "a" := {| entries := [entry_a_later] |} ]};
     models := [ {| kv_sequences := {[ 0 ]} |} ];
     trace := []; clock_reads := 0 |}.

(** * Verification *)

(** ** Running the monad *)

Lemma bind_Ok {A B : Type} (c : M A) (k : A -> M B) (s s' : Machine) (a : A) :
  c s = Ok a s' -> bind c k s = k a s'.
Proof. intros H. unfold bind. by rewrite H. Qed.

Lemma bind_Fault {A B : Type} (c : M A) (k : A -> M B) (s s' : Machine) :
  c s = Fault s' -> bind c k s = Fault s'.
Proof. intros H. unfold bind. by rewrite H. Qed.

Lemma bind_Spin {A B : Type} (c : M A) (k : A -> M B) (s s' : Machine) :
  c s = Spin s' -> bind c k s = Spin s'.
Proof. intros H. unfold bind. by rewrite H. Qed.

Lemma bind_assoc {A B C : Type} (c : M A) (k1 : A -> M B) (k2 : B -> M C) (s : Machine) :
  bind (bind c k1) k2 s = bind c (fun a => bind (k1 a) k2) s.
Proof. unfold bind. by destruct (c s). Qed.

Lemma load_entry_Ok (s : Machine) (h : EntryRef) (e : RequestStateEntry) :
  lookup_entry s h = Some e -> load_entry h s = Ok e s.
Proof. intros H. unfold load_entry, bind, gets. by rewrite H. Qed.

Lemma load_entry_None (s : Machine) (h : EntryRef) :
  lookup_entry s h = None -> load_entry h s = Fault s.
Proof. intros H. unfold load_entry, bind, gets. by rewrite H. Qed.

Lemma load_rstate_Ok (s : Machine) (rstate : string) (rs : RequestState) :
  rstate_store s !! rstate = Some rs -> load_rstate rstate s = Ok rs s.
Proof. intros H. unfold load_rstate, bind, gets. by rewrite H. Qed.

Lemma store_lookup_Some (st : gmap string RequestState) (h : EntryRef)
    (e : RequestStateEntry) :
  store_lookup st h = Some e <->
  exists rs, st !! h.1 = Some rs /\ entries rs !! h.2 = Some e.
Proof.
  unfold store_lookup. destruct (st !! h.1) as [rs|]; simpl.
  - split; [eauto | intros (rs' & [= <-] & H); done].
  - split; [done | intros (rs' & [=] & _)].
Qed.

Lemma store_lookup_write (st : gmap string RequestState) (h h' : EntryRef)
    (e : RequestStateEntry) :
  store_lookup (store_write h e st) h'
  = if decide (h = h') then (fun _ => e) <$> store_lookup st h' else store_lookup st h'.
Proof.
  destruct h as [r i], h' as [r' i']. unfold store_lookup, store_write; simpl.
  rewrite lookup_alter. destruct (decide (r = r')) as [->|Hr]; simpl.
  - destruct (st !! r') as [rs|]; simpl; [|by destruct (decide _)].
    rewrite list_lookup_insert. destruct (decide (i = i')) as [->|Hi].
    + rewrite (decide_True (P := (r', i') = (r', i'))) by done.
      destruct (entries rs !! i') eqn:Hl.
      * rewrite decide_True by (split; [done|by eapply lookup_lt_Some]). done.
      * rewrite decide_False; [done|]. apply lookup_ge_None in Hl. lia.
    + rewrite decide_False by tauto. rewrite decide_False by congruence. done.
  - by rewrite decide_False by congruence.
Qed.

Lemma store_write_write (st : gmap string RequestState) (h : EntryRef)
    (e1 e2 : RequestStateEntry) :
  store_write h e2 (store_write h e1 st) = store_write h e2 st.
Proof.
  unfold store_write. rewrite alter_alter_eq. apply alter_ext.
  intros rs _. simpl. by rewrite list_insert_insert_eq.
Qed.

Lemma store_write_id (st : gmap string RequestState) (h : EntryRef)
    (e : RequestStateEntry) :
  store_lookup st h = Some e -> store_write h e st = st.
Proof.
  intros H0. apply store_lookup_Some in H0 as (rs & Hrs & He).
  unfold store_write. apply map_eq. intros r.
  rewrite lookup_alter. case_decide as Hr; [|done]. subst r.
  rewrite Hrs; simpl. rewrite (list_insert_id _ _ _ He). by destruct rs.
Qed.

Lemma lookup_entry_write_eq (s : Machine) (h : EntryRef) (e e0 : RequestStateEntry) :
  lookup_entry s h = Some e0 -> lookup_entry (write_entry h e s) h = Some e.
Proof.
  intros H0. unfold lookup_entry, write_entry in *; simpl.
  rewrite store_lookup_write, decide_True by done. by rewrite H0.
Qed.

Lemma lookup_entry_write_ne (s : Machine) (h h' : EntryRef) (e : RequestStateEntry) :
  h <> h' -> lookup_entry (write_entry h e s) h' = lookup_entry s h'.
Proof.
  intros Hne. unfold lookup_entry, write_entry; simpl.
  by rewrite store_lookup_write, decide_False.
Qed.

(** ** Resource release of a retired entry *)

Lemma RemoveRequestFromModel_gone (i : Z) (s : Machine) (model : Model) :
  model ∈ models (final (RemoveRequestFromModel i s)) -> i ∉ kv_sequences model.
Proof.
  simpl. intros Hin. apply list_elem_of_fmap in Hin as (m & Hm & _).
  subst model. simpl. rewrite elem_of_difference, elem_of_singleton. tauto.
Qed.

(** C2. Retiring one entry: a pinned sequence held by the prefix cache
    leaves the whole world as it is; a held, unpinned one is recycled
    lazily and nothing else is called; a sequence the prefix cache does not
    hold is removed from every model and its id is recycled through the ID
    manager. *)
Theorem RemoveRequestStateEntry_policy (s : Machine) (rsentry : EntryRef)
    (e : RequestStateEntry) (m0 : RequestModelState) :
  lookup_entry s rsentry = Some e ->
  mstates e !! 0%nat = Some m0 ->
  (HasSequence (prefix_cache s) (internal_id m0) = true ->
   is_pinned (request e) = true ->
   RemoveRequestStateEntry rsentry s = Ok tt s) /\
  (HasSequence (prefix_cache s) (internal_id m0) = true ->
   is_pinned (request e) = false ->
   exists s', RemoveRequestStateEntry rsentry s = Ok tt s' /\
     trace s' = trace s ++ [EvRecycleSequence (internal_id m0) true] /\
     models s' = models s /\
     id_manager s' = id_manager s) /\
  (HasSequence (prefix_cache s) (internal_id m0) = false ->
   exists s', RemoveRequestStateEntry rsentry s = Ok tt s' /\
     trace s' = trace s ++
       ((fun k => EvRemoveSequence k (internal_id m0)) <$> seq 0 (length (models s))) ++
       [EvRecycleId (internal_id m0)] /\
     models s' = RemoveSequence (internal_id m0) <$> models s /\
     (forall model, model ∈ models s' -> internal_id m0 ∉ kv_sequences model) /\
     id_manager s' = RecycleId (internal_id m0) (id_manager s) /\
     prefix_cache s' = prefix_cache s).
Proof.
  intros He Hm0. unfold RemoveRequestStateEntry.
  rewrite (bind_Ok _ _ _ _ _ (load_entry_Ok _ _ _ He)), Hm0.
  unfold deref. cbn [bind ret gets].
  split; [|split].
  - intros -> ->. reflexivity.
  - intros -> ->. eexists; split; [reflexivity|]. by simpl.
  - intros ->. eexists; split; [reflexivity|]. simpl.
    rewrite <- app_assoc. repeat split; try done.
    intros model Hin. by apply (RemoveRequestFromModel_gone _ s).
Qed.

(** ** Announcing tokens to the prefix cache *)

Lemma to_int_small (z : Z) : - 2 ^ 31 <= z < 2 ^ 31 -> to_int z = z.
Proof.
  intros H. unfold to_int.
  rewrite Z.mod_small by lia. lia.
Qed.

Lemma committed_range_spec (toks : list SampleResult) (fuel : nat) (i hi : Z) :
  0 <= i -> hi <= Z.of_nat (length toks) -> hi <= INT_MAX ->
  fuel = Z.to_nat (hi - i) ->
  committed_range fuel i hi toks =
    Some ((fun t => (sampled_token_id t).1) <$> take fuel (drop (Z.to_nat i) toks)).
Proof.
  revert i. induction fuel as [|fuel IH]; intros i Hi Hhi Hmax Hfuel; simpl.
  - reflexivity.
  - assert (i < hi) as Hlt by lia.
    destruct (Z.ltb_spec i hi) as [_|]; [|lia].
    unfold at_index. destruct (Z.ltb_spec i 0) as [|_]; [lia|].
    destruct (toks !! Z.to_nat i) as [t|] eqn:Ht.
    + destruct (Z.eqb_spec i INT_MAX) as [|_]; [lia|].
      rewrite (IH (i + 1)) by lia.
      rewrite (drop_S _ _ _ Ht). simpl.
      by replace (Z.to_nat (i + 1)) with (S (Z.to_nat i)) by lia.
    + apply lookup_ge_None in Ht. lia.
Qed.

Lemma HasSequence_ExtendSequence (pc : PrefixCache) (i j : Z) (tokens : list Z) :
  HasSequence (ExtendSequence i tokens pc) j = HasSequence pc j.
Proof.
  unfold HasSequence, ExtendSequence; simpl.
  apply bool_decide_ext. rewrite lookup_alter.
  case_decide; [subst; by rewrite fmap_is_Some|done].
Qed.

Lemma announced_frame (i : Z) (blocks : list (list Z)) (s : Machine) :
  let s' := announced i blocks s in
  trace s' = trace s ++ (EvExtendSequence i <$> blocks) /\
  rstate_store s' = rstate_store s /\
  request_states s' = request_states s /\
  running_queue s' = running_queue s /\
  waiting_queue s' = waiting_queue s /\
  stats s' = stats s /\
  id_manager s' = id_manager s /\
  models s' = models s /\
  clock_reads s' = clock_reads s /\
  (forall j, HasSequence (prefix_cache s') j = HasSequence (prefix_cache s) j).
Proof.
  revert s. induction blocks as [|b blocks IH]; intros s; simpl.
  - rewrite app_nil_r. repeat split; done.
  - destruct (IH (emit (EvExtendSequence i b)
        (set_caches (ExtendSequence i b (prefix_cache s), models s) s)))
      as (Ht & Hr & Hq & Hrun & Hw & Hst & Hid & Hm & Hc & Hh).
    unfold announced in *. simpl in *.
    rewrite Ht, <- app_assoc. repeat split; try done.
    intros j. rewrite Hh. apply HasSequence_ExtendSequence.
Qed.

Lemma announce_prefilled_Ok (i : Z) (prefilled : list Data) (s : Machine) :
  Forall is_token_data prefilled ->
  forM_ prefilled (fun data =>
    let* token_ids := deref (as_TokenDataNode data) in
    call_ExtendSequence i token_ids) s
  = Ok tt (announced i (omap as_TokenDataNode prefilled) s).
Proof.
  intros Hall. revert s. induction Hall as [|d l [t Ht] _ IH]; intros s; simpl.
  - reflexivity.
  - rewrite Ht. simpl. unfold bind at 1. simpl. apply IH.
Qed.

(** A block that is not [TokenData] stops the announcement at the null
    pointer it yields. *)
Lemma announce_prefilled_Fault (i : Z) (prefilled : list Data) (s : Machine) :
  ~ Forall is_token_data prefilled ->
  exists s', forM_ prefilled (fun data =>
    let* token_ids := deref (as_TokenDataNode data) in
    call_ExtendSequence i token_ids) s = Fault s'.
Proof.
  revert s. induction prefilled as [|d l IH]; intros s Hn.
  - destruct Hn. constructor.
  - simpl. destruct (as_TokenDataNode d) as [t|] eqn:Ht.
    + unfold bind at 1. simpl.
      destruct (IH (emit (EvExtendSequence i t)
         (set_caches (ExtendSequence i t (prefix_cache s), models s) s))) as [s' Hs'].
      { intros Hl. apply Hn. constructor; [by exists t|done]. }
      eexists. apply Hs'.
    + eexists. reflexivity.
Qed.

Lemma set_mstates_id (e : RequestStateEntry) : set_mstates (mstates e) e = e.
Proof. by destruct e. Qed.

Lemma set_prefilled_inputs_id (m : RequestModelState) :
  prefilled_inputs m = [] -> set_prefilled_inputs [] m = m.
Proof. destruct m; simpl. by intros ->. Qed.

Lemma update_mstate_Ok (s : Machine) (h : EntryRef) (j : nat) (e : RequestStateEntry)
    (m : RequestModelState) (f : RequestModelState -> RequestModelState) :
  lookup_entry s h = Some e -> mstates e !! j = Some m ->
  update_mstate h j f s = Ok tt (write_entry h (set_mstates (<[j := f m]> (mstates e)) e) s).
Proof.
  intros He Hm. unfold update_mstate.
  rewrite (bind_Ok _ _ _ _ _ (load_entry_Ok _ _ _ He)), Hm. reflexivity.
Qed.

Lemma update_mstate0_Ok (s : Machine) (h : EntryRef) (e : RequestStateEntry)
    (m0 : RequestModelState) (f : RequestModelState -> RequestModelState) :
  lookup_entry s h = Some e -> mstates e !! 0%nat = Some m0 ->
  update_mstate0 h f s
  = Ok tt (write_entry h (set_mstates (<[0%nat := f m0]> (mstates e)) e) s).
Proof. apply update_mstate_Ok. Qed.

Lemma engine_frame_refl (s : Machine) : engine_frame s s.
Proof. by repeat split. Qed.

Lemma engine_frame_trans (s1 s2 s3 : Machine) :
  engine_frame s1 s2 -> engine_frame s2 s3 -> engine_frame s1 s3.
Proof.
  intros (A1&A2&A3&A4&A5&A6&A7) (B1&B2&B3&B4&B5&B6&B7).
  repeat split; try congruence.
  all: intros j; by rewrite B7, A7.
Qed.

Lemma engine_frame_write (s : Machine) (h : EntryRef) (e : RequestStateEntry) :
  engine_frame s (write_entry h e s).
Proof. by repeat split. Qed.

Lemma engine_frame_announced (s : Machine) (i : Z) (blocks : list (list Z)) :
  engine_frame s (announced i blocks s).
Proof.
  destruct (announced_frame i blocks s) as (_&_&A1&A2&A3&_&A4&A5&A6&A7).
  by repeat split.
Qed.

(** The effect of [UpdatePrefixCache] on one entry held by the prefix cache
    whose prefilled blocks are all token data. *)
Lemma UpdatePrefixCacheEntry_held (s : Machine) (rsentry : EntryRef)
    (e : RequestStateEntry) (m0 : RequestModelState) :
  lookup_entry s rsentry = Some e ->
  mstates e !! 0%nat = Some m0 ->
  HasSequence (prefix_cache s) (internal_id m0) = true ->
  Forall is_token_data (prefilled_inputs m0) ->
  0 <= cached_committed_tokens m0 ->
  Z.of_nat (length (committed_tokens m0)) <= 2 ^ 31 ->
  exists s',
    UpdatePrefixCacheEntry rsentry s = Ok tt s' /\
    rstate_store s' =
      store_write rsentry (set_mstates (<[0%nat := reconciled m0]> (mstates e)) e)
        (rstate_store s) /\
    trace s' = trace s ++ reconcile_calls m0 /\
    stats s' = stats s /\
    engine_frame s s'.
Proof.
  intros He Hm0 Hheld Htok Hpos Hlen.
  unfold UpdatePrefixCacheEntry.
  rewrite (bind_Ok _ _ _ _ _ (load_entry_Ok _ _ _ He)), Hm0.
  unfold deref at 1. cbn [bind ret gets]. rewrite Hheld.
  (* the announcement of the prefilled blocks *)
  set (e1 := set_mstates (<[0%nat := set_prefilled_inputs [] m0]> (mstates e)) e).
  assert (exists s1,
    (if negb (bool_decide (prefilled_inputs m0 = [])) then
       forM_ (prefilled_inputs m0) (fun data =>
         let* token_ids := deref (as_TokenDataNode data) in
         call_ExtendSequence (internal_id m0) token_ids) ;;;
       update_mstate0 rsentry (set_prefilled_inputs [])
     else ret tt) s = Ok tt s1 /\
    rstate_store s1 = store_write rsentry e1 (rstate_store s) /\
    trace s1 = trace s ++
      (EvExtendSequence (internal_id m0) <$> omap as_TokenDataNode (prefilled_inputs m0)) /\
    stats s1 = stats s /\ engine_frame s s1) as (s1 & Hrun1 & Hs1 & Ht1 & Hst1 & Hf1).
  { case_bool_decide as Hp; simpl.
    - exists s. split; [done|]. rewrite Hp; simpl. rewrite app_nil_r.
      split; [|by auto using engine_frame_refl].
      symmetry. apply store_write_id. subst e1.
      rewrite (set_prefilled_inputs_id _ Hp), (list_insert_id _ _ _ Hm0).
      by rewrite set_mstates_id.
    - rewrite (bind_Ok _ _ _ _ _ (announce_prefilled_Ok _ _ _ Htok)).
      set (sa := announced _ _ s).
      destruct (announced_frame (internal_id m0)
                  (omap as_TokenDataNode (prefilled_inputs m0)) s)
        as (Hta & Hra & _ & _ & _ & Hsa & _).
      fold sa in Hra, Hta, Hsa.
      assert (lookup_entry sa rsentry = Some e) as Hea.
      { unfold lookup_entry. rewrite Hra. exact He. }
      rewrite (update_mstate0_Ok _ _ _ _ _ Hea Hm0).
      eexists; split; [reflexivity|].
      split; [simpl; by rewrite Hra|].
      split; [exact Hta|].
      split; [exact Hsa|].
      eapply engine_frame_trans; [apply engine_frame_announced|].
      apply engine_frame_write. }
  rewrite (bind_Ok _ _ _ _ _ Hrun1).
  assert (lookup_entry s1 rsentry = Some e1) as He1.
  { unfold lookup_entry. rewrite Hs1, store_lookup_write, decide_True by done.
    unfold lookup_entry in He. by rewrite He. }
  assert (mstates e1 !! 0%nat = Some (set_prefilled_inputs [] m0)) as Hm1.
  { subst e1; simpl. apply list_lookup_insert_eq. by eapply lookup_lt_Some. }
  unfold reconciled, reconcile_calls.
  destruct (Z.ltb_spec (cached_committed_tokens m0)
              (Z.of_nat (length (committed_tokens m0)) - 1)) as [Hlt|Hge].
  - rewrite to_int_small by lia.
    rewrite (committed_range_spec (committed_tokens m0) _ (cached_committed_tokens m0))
      by (unfold INT_MAX; lia).
    unfold deref. cbn [bind ret].
    unfold call_ExtendSequence at 1. cbn [bind modify].
    set (s2 := emit _ _).
    assert (lookup_entry s2 rsentry = Some e1) as He2 by exact He1.
    rewrite (update_mstate0_Ok _ _ _ _ _ He2 Hm1).
    eexists; split; [reflexivity|].
    split.
    { simpl. rewrite Hs1, store_write_write. f_equal.
      subst e1; simpl. by rewrite list_insert_insert_eq. }
    split.
    { simpl. rewrite Ht1, <- app_assoc. f_equal. f_equal. f_equal. f_equal.
      unfold pushed_committed. f_equal. f_equal. lia. }
    split; [exact Hst1|].
    eapply engine_frame_trans; [exact Hf1|].
    repeat split. intros j. simpl. apply HasSequence_ExtendSequence.
  - exists s1. split; [reflexivity|].
    split; [exact Hs1|].
    split; [by rewrite Ht1, app_nil_r|].
    split; [exact Hst1|exact Hf1].
Qed.

Lemma UpdatePrefixCacheEntry_not_held (s : Machine) (rsentry : EntryRef)
    (e : RequestStateEntry) (m0 : RequestModelState) :
  lookup_entry s rsentry = Some e ->
  mstates e !! 0%nat = Some m0 ->
  HasSequence (prefix_cache s) (internal_id m0) = false ->
  UpdatePrefixCacheEntry rsentry s = Ok tt s.
Proof.
  intros He Hm0 Hh. unfold UpdatePrefixCacheEntry.
  rewrite (bind_Ok _ _ _ _ _ (load_entry_Ok _ _ _ He)), Hm0.
  unfold deref. cbn [bind ret gets]. by rewrite Hh.
Qed.

(** ** [UpdatePrefixCache] over all entries of the requests of a step *)

Lemma reconciled_idem (m : RequestModelState) : reconciled (reconciled m) = reconciled m.
Proof.
  destruct m as [i mi ct inp pre c np dr ds].
  unfold reconciled, set_cached_committed_tokens, set_prefilled_inputs; simpl.
  f_equal. repeat case_match; lia.
Qed.

Lemma settle_idem (pc : PrefixCache) (e : RequestStateEntry) :
  settle pc (settle pc e) = settle pc e.
Proof.
  unfold settle. destruct (mstates e !! 0%nat) as [m0|] eqn:Hm0; [|by rewrite Hm0].
  destruct (HasSequence pc (internal_id m0)) eqn:Hh; [|by rewrite Hm0, Hh].
  simpl. rewrite list_lookup_insert_eq by (by eapply lookup_lt_Some).
  change (internal_id (reconciled m0)) with (internal_id m0). rewrite Hh.
  unfold set_mstates; simpl. by rewrite list_insert_insert_eq, reconciled_idem.
Qed.

Lemma settle_ext (pc pc' : PrefixCache) (e : RequestStateEntry) :
  (forall j, HasSequence pc' j = HasSequence pc j) -> settle pc' e = settle pc e.
Proof. intros H. unfold settle. destruct (mstates e !! 0%nat); [by rewrite H|done]. Qed.

Lemma settle_at_ext (pc pc' : PrefixCache) (h : EntryRef) (st : gmap string RequestState) :
  (forall j, HasSequence pc' j = HasSequence pc j) -> settle_at pc' h st = settle_at pc h st.
Proof.
  intros H. unfold settle_at. apply alter_ext. intros rs _. f_equal.
  apply list_eq. intros k. rewrite !list_lookup_alter.
  case_decide; [|done]. destruct (entries rs !! h.2); simpl; [|done].
  by rewrite (settle_ext pc pc').
Qed.

Lemma entry_ready_ext (pc pc' : PrefixCache) (e : RequestStateEntry) :
  (forall j, HasSequence pc' j = HasSequence pc j) -> entry_ready pc e -> entry_ready pc' e.
Proof. intros H (m0 & Hm0 & Hr). exists m0. split; [done|]. rewrite H. exact Hr. Qed.

Lemma entry_ready_settle (pc : PrefixCache) (e : RequestStateEntry) :
  entry_ready pc e -> entry_ready pc (settle pc e).
Proof.
  intros (m0 & Hm0 & Hr). unfold settle. rewrite Hm0.
  destruct (HasSequence pc (internal_id m0)) eqn:Hh; [|by exists m0; rewrite Hh].
  exists (reconciled m0). split.
  { simpl. apply list_lookup_insert_eq. by eapply lookup_lt_Some. }
  intros _. destruct (Hr eq_refl) as (_ & Hpos & Hlen).
  unfold reconciled; simpl. split; [constructor|]. split; [|done].
  case_match; lia.
Qed.

Lemma settle_at_lookup (pc : PrefixCache) (h h' : EntryRef) (st : gmap string RequestState) :
  store_lookup (settle_at pc h st) h'
  = (if decide (h = h') then settle pc else fun e => e) <$> store_lookup st h'.
Proof.
  destruct h as [r i], h' as [r' i']. unfold store_lookup, settle_at; simpl.
  rewrite lookup_alter. destruct (decide (r = r')) as [->|Hr]; simpl.
  - destruct (st !! r') as [rs|]; simpl; [|by destruct (decide ((r', i) = (r', i')))].
    rewrite list_lookup_alter. destruct (decide (i = i')) as [->|Hi].
    + by rewrite (decide_True (P := (r', i') = (r', i'))).
    + rewrite decide_False by congruence. by rewrite option_fmap_id.
  - rewrite decide_False by congruence. by rewrite option_fmap_id.
Qed.

Lemma settle_at_store_ready (pc : PrefixCache) (h : EntryRef) (st : gmap string RequestState) :
  store_ready pc st -> store_ready pc (settle_at pc h st).
Proof.
  intros Hst h' e. rewrite settle_at_lookup.
  destruct (store_lookup st h') as [e0|] eqn:He0; simpl; [|done].
  intros [= <-]. pose proof (Hst _ _ He0).
  case_decide; [by apply entry_ready_settle|done].
Qed.

Lemma settle_at_entry_refs (pc : PrefixCache) (h : EntryRef) (st : gmap string RequestState)
    (req : Request) :
  entry_refs (settle_at pc h st) req = entry_refs st req.
Proof.
  unfold entry_refs, settle_at. rewrite lookup_alter.
  case_decide as Hh; [rewrite Hh|done]. destruct (st !! id req); simpl; [|done].
  by rewrite length_alter.
Qed.

Lemma settle_all_entry_refs (pc : PrefixCache) (hs : list EntryRef)
    (st : gmap string RequestState) (req : Request) :
  entry_refs (settle_all pc hs st) req = entry_refs st req.
Proof.
  revert st. induction hs as [|h hs IH]; intros st; simpl; [done|].
  unfold settle_all in *. simpl. by rewrite IH, settle_at_entry_refs.
Qed.

Lemma settle_all_app (pc : PrefixCache) (hs hs' : list EntryRef)
    (st : gmap string RequestState) :
  settle_all pc (hs ++ hs') st = settle_all pc hs' (settle_all pc hs st).
Proof. unfold settle_all. apply foldl_app. Qed.

Lemma settle_all_lookup (pc : PrefixCache) (hs : list EntryRef)
    (st : gmap string RequestState) (h : EntryRef) :
  store_lookup (settle_all pc hs st) h
  = (if decide (h ∈ hs) then settle pc else fun e => e) <$> store_lookup st h.
Proof.
  revert st. induction hs as [|h0 hs IH]; intros st.
  - destruct (decide (h ∈ [])) as [Hin|_]; [by apply elem_of_nil in Hin|].
    unfold settle_all; simpl. by rewrite option_fmap_id.
  - change (settle_all pc (h0 :: hs) st) with (settle_all pc hs (settle_at pc h0 st)).
    rewrite IH, settle_at_lookup.
    destruct (store_lookup st h) as [e|]; simpl; [|done]. f_equal.
    destruct (decide (h0 = h)) as [->|Hne].
    + rewrite (decide_True (P := h ∈ h :: hs)) by left.
      case_decide; [apply settle_idem|done].
    + destruct (decide (h ∈ hs)) as [Hin|Hnin].
      * by rewrite decide_True by (by right).
      * rewrite decide_False; [done|]. rewrite elem_of_cons.
        intros [Heq|Hin']; [congruence|done].
Qed.

Lemma settle_all_is_Some (pc : PrefixCache) (hs : list EntryRef)
    (st : gmap string RequestState) (r : string) :
  is_Some (settle_all pc hs st !! r) <-> is_Some (st !! r).
Proof.
  revert st. induction hs as [|h hs IH]; intros st; [done|].
  change (settle_all pc (h :: hs) st) with (settle_all pc hs (settle_at pc h st)).
  rewrite IH. unfold settle_at. rewrite lookup_alter.
  case_decide as Hh; [rewrite Hh; by rewrite fmap_is_Some|done].
Qed.

Lemma settle_all_store_ready (pc : PrefixCache) (hs : list EntryRef)
    (st : gmap string RequestState) :
  store_ready pc st -> store_ready pc (settle_all pc hs st).
Proof.
  revert st. induction hs as [|h hs IH]; intros st Hst; [done|].
  apply IH. by apply settle_at_store_ready.
Qed.

Lemma store_write_settle (pc : PrefixCache) (st : gmap string RequestState)
    (h : EntryRef) (e : RequestStateEntry) :
  store_lookup st h = Some e -> store_write h (settle pc e) st = settle_at pc h st.
Proof.
  intros H0. apply store_lookup_Some in H0 as (rs & Hrs & He).
  unfold store_write, settle_at. apply alter_ext. intros rs' Hrs'.
  assert (rs' = rs) as -> by congruence. f_equal. apply list_eq. intros k.
  rewrite list_lookup_alter, list_lookup_insert.
  destruct (decide (h.2 = k)) as [<-|Hk].
  - rewrite decide_True by (split; [done|by eapply lookup_lt_Some]).
    by rewrite He.
  - by rewrite decide_False by tauto.
Qed.

Lemma entry_calls_ext (pc pc' : PrefixCache) (st : gmap string RequestState) (h : EntryRef) :
  (forall j, HasSequence pc' j = HasSequence pc j) -> entry_calls pc' st h = entry_calls pc st h.
Proof.
  intros H. unfold entry_calls. destruct (store_lookup st h) as [e|]; [|done].
  destruct (mstates e !! 0%nat); [by rewrite H|done].
Qed.

Lemma entry_calls_settle_at (pc : PrefixCache) (st : gmap string RequestState)
    (h h' : EntryRef) :
  h <> h' -> entry_calls pc (settle_at pc h st) h' = entry_calls pc st h'.
Proof.
  intros Hne. unfold entry_calls. rewrite settle_at_lookup, decide_False by done.
  by rewrite option_fmap_id.
Qed.

Lemma UpdatePrefixCacheEntry_settle (s : Machine) (rsentry : EntryRef)
    (e : RequestStateEntry) :
  lookup_entry s rsentry = Some e ->
  entry_ready (prefix_cache s) e ->
  exists s',
    UpdatePrefixCacheEntry rsentry s = Ok tt s' /\
    rstate_store s' = settle_at (prefix_cache s) rsentry (rstate_store s) /\
    trace s' = trace s ++ entry_calls (prefix_cache s) (rstate_store s) rsentry /\
    stats s' = stats s /\
    engine_frame s s'.
Proof.
  intros He (m0 & Hm0 & Hr).
  rewrite <- (store_write_settle _ _ _ _ He). unfold entry_calls, settle.
  unfold lookup_entry in He. rewrite He, Hm0. fold (lookup_entry s rsentry) in He.
  destruct (HasSequence (prefix_cache s) (internal_id m0)) eqn:Hh.
  - destruct (Hr eq_refl) as (Htok & Hpos & Hlen).
    destruct (UpdatePrefixCacheEntry_held s rsentry e m0 He Hm0 Hh Htok Hpos Hlen)
      as (s' & Hrun & Hs' & Htr & Hst & Hf).
    by exists s'.
  - rewrite (UpdatePrefixCacheEntry_not_held _ _ _ _ He Hm0 Hh).
    exists s. split; [done|]. split; [symmetry; by apply store_write_id|].
    rewrite app_nil_r. by auto using engine_frame_refl.
Qed.

Lemma forM__fmap {A B : Type} (f : A -> B) (l : list A) (body : B -> M unit) (s : Machine) :
  forM_ (f <$> l) body s = forM_ l (fun x => body (f x)) s.
Proof.
  revert s. induction l as [|x l IH]; intros s; simpl; [done|].
  unfold bind. destruct (body (f x) s); [apply IH|done..].
Qed.

Lemma UpdatePrefixCache_handles (pc0 : PrefixCache) (hs : list EntryRef) (s : Machine) :
  (forall j, HasSequence (prefix_cache s) j = HasSequence pc0 j) ->
  store_ready pc0 (rstate_store s) ->
  Forall (fun h => is_Some (lookup_entry s h)) hs ->
  exists s',
    forM_ hs UpdatePrefixCacheEntry s = Ok tt s' /\
    rstate_store s' = settle_all pc0 hs (rstate_store s) /\
    (NoDup hs -> trace s' = trace s ++ concat (entry_calls pc0 (rstate_store s) <$> hs)) /\
    stats s' = stats s /\
    engine_frame s s'.
Proof.
  revert s. induction hs as [|h hs IH]; intros s Hpc Hst Hall.
  - exists s. simpl. rewrite app_nil_r. by auto using engine_frame_refl.
  - apply Forall_cons in Hall as [[e He] Hall].
    destruct (UpdatePrefixCacheEntry_settle s h e He) as (s1 & Hrun & Hs1 & Htr1 & Hst1 & Hf1).
    { eapply entry_ready_ext; [exact Hpc|]. by eapply Hst. }
    rewrite (settle_at_ext pc0) in Hs1 by done.
    rewrite (entry_calls_ext pc0) in Htr1 by done.
    destruct (IH s1) as (s' & Hrun' & Hs' & Htr' & Hst' & Hf').
    { intros j. destruct Hf1 as (_&_&_&_&_&_&Hh). by rewrite Hh. }
    { rewrite Hs1. by apply settle_at_store_ready. }
    { eapply Forall_impl; [exact Hall|]. intros h' [e' He']. unfold lookup_entry in *.
      rewrite Hs1, settle_at_lookup, He'. by eexists. }
    exists s'. simpl. rewrite (bind_Ok _ _ _ _ _ Hrun).
    split; [done|]. split; [by rewrite Hs', Hs1|].
    split; [|split; [congruence|by eapply engine_frame_trans]].
    intros Hnd. apply NoDup_cons in Hnd as [Hnin Hnd].
    rewrite (Htr' Hnd), Htr1, <- app_assoc. do 2 f_equal.
    rewrite Hs1. apply (f_equal (@concat Event)). apply list_fmap_ext. intros k h' Hk.
    apply entry_calls_settle_at. intros ->. apply Hnin.
    by eapply list_elem_of_lookup_2.
Qed.

Lemma GetRequestState_Ok (s : Machine) (req : Request) :
  id req ∈ request_states s -> is_Some (rstate_store s !! id req) ->
  GetRequestState req s = Ok (id req) s.
Proof.
  intros Hin [rs Hrs]. unfold GetRequestState. cbn [bind gets].
  rewrite bool_decide_true by done. cbn [ICHECK bind ret].
  rewrite (bind_Ok _ _ _ _ _ (load_rstate_Ok _ _ _ Hrs)). reflexivity.
Qed.

Lemma entry_refs_lookup (st : gmap string RequestState) (req : Request) :
  Forall (fun h => is_Some (store_lookup st h)) (entry_refs st req).
Proof.
  unfold entry_refs. destruct (st !! id req) as [rs|] eqn:Hrs; [|constructor].
  apply Forall_fmap, Forall_forall. intros i Hi. apply elem_of_seq in Hi.
  unfold store_lookup; simpl. rewrite Hrs; simpl. apply lookup_lt_is_Some. lia.
Qed.

Lemma entry_refs_bind_settle_all (pc : PrefixCache) (hs : list EntryRef)
    (st : gmap string RequestState) (requests : list Request) :
  requests ≫= entry_refs (settle_all pc hs st) = requests ≫= entry_refs st.
Proof.
  induction requests as [|r requests IH]; [done|].
  by rewrite !bind_cons, IH, settle_all_entry_refs.
Qed.

Lemma entry_calls_settle_all (pc : PrefixCache) (hs : list EntryRef)
    (st : gmap string RequestState) (h : EntryRef) :
  h ∉ hs -> entry_calls pc (settle_all pc hs st) h = entry_calls pc st h.
Proof.
  intros Hnin. unfold entry_calls. rewrite settle_all_lookup, decide_False by done.
  by rewrite option_fmap_id.
Qed.

Lemma UpdatePrefixCache_settles (pc0 : PrefixCache) (requests : list Request) (s : Machine) :
  (forall j, HasSequence (prefix_cache s) j = HasSequence pc0 j) ->
  requests_known s requests ->
  store_ready pc0 (rstate_store s) ->
  exists s',
    UpdatePrefixCache requests s = Ok tt s' /\
    rstate_store s' = settle_all pc0 (requests ≫= entry_refs (rstate_store s)) (rstate_store s) /\
    (NoDup (requests ≫= entry_refs (rstate_store s)) ->
     trace s' = trace s ++
       concat (entry_calls pc0 (rstate_store s) <$> (requests ≫= entry_refs (rstate_store s)))) /\
    stats s' = stats s /\
    engine_frame s s'.
Proof.
  unfold UpdatePrefixCache, for_each_entry.
  revert s. induction requests as [|req requests IH]; intros s Hpc Hknown Hst.
  - exists s. simpl. rewrite app_nil_r. by auto using engine_frame_refl.
  - apply Forall_cons in Hknown as [[Hin [rs Hrs]] Hknown].
    destruct (UpdatePrefixCache_handles pc0 (entry_refs (rstate_store s) req) s Hpc Hst)
      as (s1 & Hrun1 & Hs1 & Htr1 & Hst1 & Hf1).
    { apply entry_refs_lookup. }
    destruct (IH s1) as (s' & Hrun' & Hs' & Htr' & Hst' & Hf').
    { intros j. destruct Hf1 as (_&_&_&_&_&_&Hh). by rewrite Hh. }
    { destruct Hf1 as (Hrq&_). eapply Forall_impl; [exact Hknown|].
      intros r [Hr1 Hr2]. rewrite Hrq, Hs1. split; [done|]. by apply settle_all_is_Some. }
    { rewrite Hs1. by apply settle_all_store_ready. }
    exists s'. cbn [forM_].
    assert ((let* rstate := GetRequestState req in
             let* rs0 := load_rstate rstate in
             forM_ (seq 0 (length (entries rs0)))
               (fun i => UpdatePrefixCacheEntry (rstate, i))) s = Ok tt s1) as Hbody.
    { rewrite (bind_Ok _ _ _ _ _ (GetRequestState_Ok _ _ Hin (ex_intro _ rs Hrs))).
      rewrite (bind_Ok _ _ _ _ _ (load_rstate_Ok _ _ _ Hrs)).
      rewrite <- forM__fmap. unfold entry_refs in Hrun1. by rewrite Hrs in Hrun1. }
    rewrite (bind_Ok _ _ _ _ _ Hbody).
    split; [exact Hrun'|].
    rewrite Hs1, entry_refs_bind_settle_all in Hs', Htr'.
    split; [by rewrite Hs', bind_cons, settle_all_app|].
    split; [|split; [congruence|by eapply engine_frame_trans]].
    rewrite bind_cons. intros Hnd. apply NoDup_app in Hnd as (Hnd1 & Hdisj & Hnd2).
    rewrite (Htr' Hnd2), (Htr1 Hnd1), <- app_assoc, fmap_app, concat_app.
    do 2 f_equal. apply (f_equal (@concat Event)). apply list_fmap_ext. intros k h' Hk.
    apply entry_calls_settle_all. intros Hin'. eapply Hdisj; [exact Hin'|].
    by eapply list_elem_of_lookup_2.
Qed.

Lemma entry_refs_elem (st : gmap string RequestState) (req : Request) (i : nat)
    (e : RequestStateEntry) :
  store_lookup st (id req, i) = Some e -> (id req, i) ∈ entry_refs st req.
Proof.
  intros H0. apply store_lookup_Some in H0 as (rs & Hrs & He). simpl in *.
  unfold entry_refs. rewrite Hrs. apply list_elem_of_fmap. exists i. split; [done|].
  apply elem_of_seq. apply lookup_lt_Some in He. lia.
Qed.

(** C1. [UpdatePrefixCache] gets through the entries of the requests of a
    step and, for every entry whose sequence the prefix cache holds: when
    the watermark is below the number of committed tokens minus one, the
    tokens at the positions from the watermark up to, and without, the last
    committed one are pushed by one [ExtendSequence] call after the
    prefilled blocks, and the watermark becomes that number minus one;
    otherwise no committed token is pushed and the watermark stays.  A
    watermark that was at most [max 0 (size - 1)] is so afterwards. *)
Theorem UpdatePrefixCache_watermark (requests : list Request) (s : Machine) :
  requests_known s requests ->
  store_ready (prefix_cache s) (rstate_store s) ->
  NoDup (requests ≫= entry_refs (rstate_store s)) ->
  exists s',
    UpdatePrefixCache requests s = Ok tt s' /\
    trace s' = trace s ++
      concat (entry_calls (prefix_cache s) (rstate_store s) <$>
                (requests ≫= entry_refs (rstate_store s))) /\
    forall req i e m0,
      req ∈ requests ->
      lookup_entry s (id req, i) = Some e ->
      mstates e !! 0%nat = Some m0 ->
      HasSequence (prefix_cache s) (internal_id m0) = true ->
      let size := Z.of_nat (length (committed_tokens m0)) in
      let announced_blocks :=
        EvExtendSequence (internal_id m0) <$> omap as_TokenDataNode (prefilled_inputs m0) in
      exists e' m0',
        lookup_entry s' (id req, i) = Some e' /\
        mstates e' !! 0%nat = Some m0' /\
        committed_tokens m0' = committed_tokens m0 /\
        (cached_committed_tokens m0 <= Z.max 0 (size - 1) ->
         cached_committed_tokens m0' <= Z.max 0 (size - 1)) /\
        (cached_committed_tokens m0 < size - 1 ->
         cached_committed_tokens m0' = size - 1 /\
         entry_calls (prefix_cache s) (rstate_store s) (id req, i) =
           announced_blocks ++ [EvExtendSequence (internal_id m0) (pushed_committed m0)]) /\
        (~ cached_committed_tokens m0 < size - 1 ->
         cached_committed_tokens m0' = cached_committed_tokens m0 /\
         entry_calls (prefix_cache s) (rstate_store s) (id req, i) = announced_blocks).
Proof.
  intros Hknown Hready Hnd.
  destruct (UpdatePrefixCache_settles (prefix_cache s) requests s)
    as (s' & Hrun & Hs' & Htr & _ & _); [done..|].
  exists s'. split; [done|]. split; [by apply Htr|].
  intros req i e m0 Hreq He Hm0 Hheld size blocks.
  exists (set_mstates (<[0%nat := reconciled m0]> (mstates e)) e), (reconciled m0).
  split.
  { unfold lookup_entry in *. rewrite Hs', settle_all_lookup, He.
    rewrite decide_True.
    - simpl. unfold settle. by rewrite Hm0, Hheld.
    - apply list_elem_of_bind. exists req. split; [|done]. by eapply entry_refs_elem. }
  split.
  { simpl. apply list_lookup_insert_eq. by eapply lookup_lt_Some. }
  split; [done|].
  assert (entry_calls (prefix_cache s) (rstate_store s) (id req, i) = reconcile_calls m0)
    as ->.
  { unfold entry_calls. unfold lookup_entry in He. by rewrite He, Hm0, Hheld. }
  unfold reconciled, reconcile_calls; simpl. fold size. fold blocks.
  destruct (Z.ltb_spec (cached_committed_tokens m0) (size - 1)) as [Hlt|Hge].
  - split; [lia|]. split; [done|]. intros Hn. lia.
  - split; [done|]. split; [lia|]. intros _. by rewrite app_nil_r.
Qed.

(** ** A Hoare logic for runs *)

Section Triples.
Context {A B : Type}.
Implicit Types (P E : Machine -> Prop).

Lemma triple_weaken P P' (c : M A) (Q Q' : A -> Machine -> Prop) E E' :
  triple P c Q E ->
  (forall s, P' s -> P s) -> (forall a s, Q a s -> Q' a s) -> (forall s, E s -> E' s) ->
  triple P' c Q' E'.
Proof.
  intros H HP HQ HE s Hs. specialize (H s (HP s Hs)).
  destruct (c s); auto.
Qed.

Lemma triple_bind P (c : M A) (Q : A -> Machine -> Prop) (k : A -> M B)
    (Q' : B -> Machine -> Prop) E :
  triple P c Q E -> (forall a, triple (Q a) (k a) Q' E) -> triple P (bind c k) Q' E.
Proof.
  intros Hc Hk s Hs. specialize (Hc s Hs). unfold bind.
  destruct (c s) as [a s'| |]; [by apply Hk|done..].
Qed.

Lemma triple_ret P (a : A) E : triple P (ret a) (fun a' s => P s /\ a' = a) E.
Proof. intros s Hs. by simpl. Qed.

Lemma triple_fault P (Q : A -> Machine -> Prop) : triple P fault Q P.
Proof. intros s Hs. by simpl. Qed.

Lemma triple_spin P (Q : A -> Machine -> Prop) : triple P spin Q P.
Proof. intros s Hs. by simpl. Qed.

Lemma triple_gets P (f : Machine -> A) E :
  triple P (gets f) (fun a s => P s /\ a = f s) E.
Proof. intros s Hs. by simpl. Qed.

Lemma triple_deref P (o : option A) E :
  (forall s, P s -> E s) ->
  triple P (deref o) (fun a s => P s /\ o = Some a) E.
Proof. intros HE s Hs. destruct o; simpl; auto. Qed.
End Triples.

Lemma triple_modify (P : Machine -> Prop) (f : Machine -> Machine) (E : Machine -> Prop) :
  triple P (modify f) (fun _ s' => exists s, P s /\ s' = f s) E.
Proof. intros s Hs. simpl. eauto. Qed.

Lemma triple_ICHECK (P : Machine -> Prop) (b : bool) (E : Machine -> Prop) :
  (forall s, P s -> E s) ->
  triple P (ICHECK b) (fun _ s => P s /\ b = true) E.
Proof. intros HE s Hs. destruct b; simpl; auto. Qed.

Lemma stable_bind {A B : Type} (I : Machine -> Prop) (c : M A) (k : A -> M B) :
  stable I c -> (forall a, stable I (k a)) -> stable I (bind c k).
Proof. intros Hc Hk. eapply triple_bind; [exact Hc|]. intros a. apply Hk. Qed.

Lemma stable_pure {A : Type} (I : Machine -> Prop) (c : M A) :
  (forall s, final (c s) = s) -> stable I c.
Proof.
  intros H s Hs. specialize (H s). destruct (c s); simpl in H; by subst.
Qed.

Lemma stable_modify (I : Machine -> Prop) (f : Machine -> Machine) :
  (forall s, I s -> I (f s)) -> stable I (modify f).
Proof. intros H s Hs. simpl. auto. Qed.

Lemma stable_forM_ {A : Type} (I : Machine -> Prop) (l : list A) (body : A -> M unit) :
  (forall x, x ∈ l -> stable I (body x)) -> stable I (forM_ l body).
Proof.
  induction l as [|x l IH]; intros H.
  - by intros s Hs.
  - simpl. apply stable_bind; [apply H; left|].
    intros _. apply IH. intros y Hy. apply H. by right.
Qed.

Lemma stable_mapM {A B : Type} (I : Machine -> Prop) (l : list A) (body : A -> M B) :
  (forall x, x ∈ l -> stable I (body x)) -> stable I (mapM body l).
Proof.
  induction l as [|x l IH]; intros H.
  - by intros s Hs.
  - simpl. apply stable_bind; [apply H; left|].
    intros y. apply stable_bind; [apply IH; intros z Hz; apply H; by right|].
    intros ys. by intros s Hs.
Qed.

Lemma stable_final {A : Type} (I : Machine -> Prop) (c : M A) (s : Machine) :
  stable I c -> I s -> I (final (c s)).
Proof. intros H Hs. specialize (H s Hs). by destruct (c s). Qed.

Lemma final_stable {A : Type} (I : Machine -> Prop) (c : M A) :
  (forall s, I s -> I (final (c s))) -> stable I c.
Proof. intros H s Hs. specialize (H s Hs). by destruct (c s). Qed.

(** Runs that read the world without changing it. *)
Lemma load_entry_final (h : EntryRef) (s : Machine) : final (load_entry h s) = s.
Proof. unfold load_entry, bind, gets, deref. by destruct (lookup_entry s h). Qed.

Lemma load_rstate_final (rstate : string) (s : Machine) : final (load_rstate rstate s) = s.
Proof. unfold load_rstate, bind, gets, deref. by destruct (rstate_store s !! rstate). Qed.

Lemma deref_final {A : Type} (o : option A) (s : Machine) : final (deref o s) = s.
Proof. by destruct o. Qed.

Lemma ICHECK_final (b : bool) (s : Machine) : final (ICHECK b s) = s.
Proof. by destruct b. Qed.

Lemma gets_final {A : Type} (f : Machine -> A) (s : Machine) : final (gets f s) = s.
Proof. done. Qed.

Lemma GetRequestState_final (req : Request) (s : Machine) :
  final (GetRequestState req s) = s.
Proof.
  unfold GetRequestState. cbn [bind gets].
  destruct (bool_decide (id req ∈ request_states s)); [|done]. cbn [ICHECK bind ret].
  unfold load_rstate, bind, gets, deref. by destruct (rstate_store s !! id req).
Qed.

(** Breaking a run into its primitive steps: what is left to show is that
    every [modify] keeps the invariant. *)
Ltac stable_step :=
  lazymatch goal with
  | |- stable _ (bind _ _) => apply stable_bind; [|intros ?]
  | |- stable _ (ret _) => apply stable_pure; intros ?; reflexivity
  | |- stable _ fault => apply stable_pure; intros ?; reflexivity
  | |- stable _ spin => apply stable_pure; intros ?; reflexivity
  | |- stable _ (gets _) => apply stable_pure; intros ?; reflexivity
  | |- stable _ (deref _) => apply stable_pure, deref_final
  | |- stable _ (ICHECK _) => apply stable_pure, ICHECK_final
  | |- stable _ (load_entry _) => apply stable_pure, load_entry_final
  | |- stable _ (load_rstate _) => apply stable_pure, load_rstate_final
  | |- stable _ (GetRequestState _) => apply stable_pure, GetRequestState_final
  | |- stable _ (forM_ _ _) => apply stable_forM_; intros ? _
  | |- stable _ (mapM _ _) => apply stable_mapM; intros ? _
  | |- stable _ (if ?b then _ else _) => destruct b
  | |- stable _ (match ?o with Some _ => _ | None => _ end) => destruct o
  | |- stable _ (modify _) => apply stable_modify; intros ? ?
  end.

Lemma triple_load_rstate (P : Machine -> Prop) (rstate : string) (E : Machine -> Prop) :
  (forall s, P s -> E s) ->
  triple P (load_rstate rstate) (fun rs s => P s /\ rstate_store s !! rstate = Some rs) E.
Proof.
  intros HE s Hs. unfold load_rstate, bind, gets, deref.
  destruct (rstate_store s !! rstate) eqn:H; simpl; auto.
Qed.

Lemma triple_load_entry (P : Machine -> Prop) (h : EntryRef) (E : Machine -> Prop) :
  (forall s, P s -> E s) ->
  triple P (load_entry h) (fun e s => P s /\ lookup_entry s h = Some e) E.
Proof.
  intros HE s Hs. unfold load_entry, bind, gets, deref.
  destruct (lookup_entry s h) eqn:H; simpl; auto.
Qed.

(** ** Finish propagates in post-order *)

Lemma all_children_finished_true (es : list RequestStateEntry) (cs : list Z) :
  all_children_finished es cs = Some true -> Forall (child_finished es) cs.
Proof.
  induction cs as [|c cs IH]; simpl; [constructor|].
  destruct (at_index es c) as [ec|] eqn:Hc; [|done].
  case_decide as Hs; [|done]. intros H. constructor; [|by apply IH].
  unfold child_finished. by rewrite Hc.
Qed.

Lemma all_children_finished_false (es : list RequestStateEntry) (cs : list Z) :
  all_children_finished es cs = Some false ->
  Exists (fun c => exists ec, at_index es c = Some ec /\ status ec <> kFinished) cs.
Proof.
  induction cs as [|c cs IH]; simpl; [done|].
  destruct (at_index es c) as [ec|] eqn:Hc; [|done].
  case_decide as Hs; intros H.
  - apply Exists_cons_tl. by apply IH.
  - apply Exists_cons_hd. by exists ec.
Qed.

Lemma child_finished_insert (es : list RequestStateEntry) (i : nat) (e : RequestStateEntry)
    (c : Z) :
  status e = kFinished -> child_finished es c -> child_finished (<[i := e]> es) c.
Proof.
  unfold child_finished, at_index. intros He. destruct (c <? 0); [done|].
  destruct (decide (i = Z.to_nat c)) as [->|Hne].
  - destruct (es !! Z.to_nat c) eqn:Hl; [|done].
    by rewrite list_lookup_insert_eq by (by eapply lookup_lt_Some).
  - by rewrite list_lookup_insert_ne.
Qed.

Lemma rstate_post_order_finish (rs : RequestState) (i : nat) (e : RequestStateEntry) :
  rstate_post_order rs ->
  entries rs !! i = Some e ->
  Forall (child_finished (entries rs)) (child_indices e) ->
  rstate_post_order {| entries := <[i := set_status kFinished e]> (entries rs) |}.
Proof.
  unfold rstate_post_order; simpl. intros Hrs He Hch.
  apply Forall_lookup. intros k e' Hk Hfin.
  assert (Forall (child_finished (entries rs)) (child_indices e')) as Hold.
  { destruct (decide (i = k)) as [->|Hne].
    - rewrite list_lookup_insert_eq in Hk by (by eapply lookup_lt_Some).
      by injection Hk as <-.
    - rewrite list_lookup_insert_ne in Hk by done.
      by apply (proj1 (Forall_lookup _ _) Hrs k e'). }
  eapply Forall_impl; [exact Hold|]. intros c. by apply child_finished_insert.
Qed.

Lemma post_order_finish (s : Machine) (h : EntryRef) (rs : RequestState)
    (e : RequestStateEntry) :
  post_order s ->
  rstate_store s !! h.1 = Some rs ->
  entries rs !! h.2 = Some e ->
  Forall (child_finished (entries rs)) (child_indices e) ->
  post_order (write_entry h (set_status kFinished e) s).
Proof.
  unfold post_order, write_entry, store_write; simpl. intros Hs Hrs He Hch r rs'.
  rewrite lookup_alter. case_decide as Hr.
  - rewrite Hrs; simpl. intros [= <-]. apply rstate_post_order_finish; [|done..].
    by apply (Hs h.1).
  - apply Hs.
Qed.

Lemma only_finishes_refl (s : Machine) : only_finishes s s.
Proof. intros h e He. by left. Qed.

Lemma only_finishes_trans (s1 s2 s3 : Machine) :
  only_finishes s1 s2 -> only_finishes s2 s3 -> only_finishes s1 s3.
Proof.
  intros H12 H23 h e He. destruct (H12 h e He) as [H2|H2]; destruct (H23 _ _ H2) as [H3|H3];
    rewrite H3; auto.
Qed.

Lemma only_finishes_write (s : Machine) (h : EntryRef) (e : RequestStateEntry) :
  lookup_entry s h = Some e -> only_finishes s (write_entry h (set_status kFinished e) s).
Proof.
  intros He h' e' He'. destruct (decide (h = h')) as [<-|Hne].
  - right. rewrite (lookup_entry_write_eq _ _ _ _ He). congruence.
  - left. by rewrite lookup_entry_write_ne.
Qed.

Lemma only_finishes_same_store (s s' : Machine) :
  rstate_store s' = rstate_store s -> only_finishes s s'.
Proof. intros H h e He. left. unfold lookup_entry in *. by rewrite H. Qed.

Lemma finishing_refl (s : Machine) : finishing s s.
Proof. split; [done|apply only_finishes_refl]. Qed.

Lemma finishing_same_store (s0 s s' : Machine) :
  rstate_store s' = rstate_store s -> finishing s0 s -> finishing s0 s'.
Proof.
  intros H [Hp Ho]. split.
  - intros H0. unfold post_order. rewrite H. by apply Hp.
  - eapply only_finishes_trans; [exact Ho|]. by apply only_finishes_same_store.
Qed.

Lemma finishing_finish (s0 s : Machine) (h : EntryRef) (rs : RequestState)
    (e : RequestStateEntry) :
  finishing s0 s ->
  rstate_store s !! h.1 = Some rs ->
  entries rs !! h.2 = Some e ->
  Forall (child_finished (entries rs)) (child_indices e) ->
  finishing s0 (write_entry h (set_status kFinished e) s).
Proof.
  intros [Hp Ho] Hrs He Hch. split.
  - intros H0. eapply post_order_finish; eauto.
  - eapply only_finishes_trans; [exact Ho|]. apply only_finishes_write.
    apply store_lookup_Some. eauto.
Qed.

Lemma RemoveRequestStateEntry_finishing (s0 : Machine) (h : EntryRef) :
  stable (finishing s0) (RemoveRequestStateEntry h).
Proof.
  unfold RemoveRequestStateEntry, RemoveRequestFromModel, call_RecycleSequence,
    call_RecycleId.
  repeat stable_step; by eapply finishing_same_store.
Qed.

Lemma climb_finishing (s0 : Machine) (fuel : nat) (rstate : string) (p : Z) :
  stable (finishing s0) (climb fuel rstate p).
Proof.
  revert p. induction fuel as [|fuel IH]; intros p; simpl.
  - destruct (p =? -1); repeat stable_step.
  - destruct (p =? -1); [repeat stable_step|].
    eapply triple_bind; [by apply triple_load_rstate|]. intros rs.
    eapply triple_bind; [apply triple_deref; by intros s [Hs _]|]. intros parent.
    eapply triple_bind; [apply triple_deref; by intros s [[Hs _] _]|]. intros b.
    destruct b; simpl.
    + eapply triple_bind.
      { apply (triple_modify _ _ (finishing s0)). }
      intros u. eapply triple_weaken with (P := finishing s0) (Q := fun _ => finishing s0);
        [|idtac|done|done].
      * apply stable_bind; [apply RemoveRequestStateEntry_finishing|]. intros _. apply IH.
      * intros s' (s & (((Hs & Hrs) & Hp) & Hch) & ->).
        unfold at_index in Hp. destruct (p <? 0); [done|].
        eapply finishing_finish; eauto.
        by apply all_children_finished_true.
    + intros s (((Hs & _) & _) & _). done.
Qed.

Lemma RetireRequest_finishing (now : nat -> Z) (s0 : Machine) (req : Request)
    (rstate : string) :
  stable (finishing s0) (RetireRequest now req rstate).
Proof.
  unfold RetireRequest, read_clock.
  repeat stable_step; by eapply finishing_same_store.
Qed.

Lemma FinishEntryAndClimb_finishing (s0 : Machine) (fuel : nat) (h : EntryRef) :
  stable (finishing s0) (FinishEntryAndClimb fuel h).
Proof.
  unfold FinishEntryAndClimb.
  eapply triple_bind; [by apply triple_load_entry|]. intros e.
  eapply triple_bind; [apply triple_ICHECK; by intros s [Hs _]|]. intros u.
  eapply triple_bind; [apply (triple_modify _ _ (finishing s0))|]. intros u'.
  eapply triple_weaken with (P := finishing s0) (Q := fun _ => finishing s0);
    [|idtac|done|done].
  - apply stable_bind; [apply RemoveRequestStateEntry_finishing|]. intros _.
    apply stable_bind; [stable_step|]. intros rstate.
    apply stable_bind; [apply climb_finishing|]. intros p. stable_step.
  - intros s' (s & ((Hs & He) & Hleaf) & ->).
    apply bool_decide_eq_true in Hleaf.
    apply store_lookup_Some in He as (rs & Hrs & He).
    eapply finishing_finish; eauto. rewrite Hleaf. constructor.
Qed.

Lemma ProcessFinishedEntry_finishing (now : nat -> Z) (s0 : Machine) (fuel : nat)
    (h : EntryRef) :
  stable (finishing s0) (ProcessFinishedEntry now fuel h).
Proof.
  unfold ProcessFinishedEntry.
  apply stable_bind; [apply FinishEntryAndClimb_finishing|]. intros r.
  destruct (r.2 =? -1); [apply RetireRequest_finishing|stable_step].
Qed.

Lemma ProcessFinished_finishing (now : nat -> Z) (s0 : Machine) (fuel : nat)
    (hs : list EntryRef) :
  stable (finishing s0) (ProcessFinishedRequestStateEntries now fuel hs).
Proof.
  unfold ProcessFinishedRequestStateEntries. apply stable_forM_.
  intros h _. apply ProcessFinishedEntry_finishing.
Qed.

(** Where the climb stops short of the root, the entry it stops at still
    has a child that is not finished. *)
Lemma climb_stops (fuel : nat) (rstate : string) (p p' : Z) (s s' : Machine) :
  climb fuel rstate p s = Ok p' s' ->
  p' <> -1 ->
  exists rs parent,
    rstate_store s' !! rstate = Some rs /\
    at_index (entries rs) p' = Some parent /\
    Exists (fun c => exists ec, at_index (entries rs) c = Some ec /\ status ec <> kFinished)
           (child_indices parent).
Proof.
  revert p s. induction fuel as [|fuel IH]; intros p s; simpl.
  - destruct (Z.eqb_spec p (-1)); [|done]. intros [= <- <-]. done.
  - destruct (Z.eqb_spec p (-1)); [intros [= <- <-]; done|].
    unfold bind at 1. unfold load_rstate, bind, gets.
    destruct (rstate_store s !! rstate) as [rs|] eqn:Hrs; [|done]. simpl.
    destruct (at_index (entries rs) p) as [parent|] eqn:Hp; [|done]. simpl.
    destruct (all_children_finished (entries rs) (child_indices parent)) as [b|] eqn:Hch;
      [|done]. simpl.
    destruct b; simpl.
    + destruct (RemoveRequestStateEntry (rstate, Z.to_nat p)
                  (write_entry (rstate, Z.to_nat p) (set_status kFinished parent) s))
        as [u s1| |] eqn:Hrm; [|done..].
      apply IH.
    + intros [= <- <-] _. exists rs, parent. split; [done|]. split; [done|].
      by apply all_children_finished_false.
Qed.

(** *** When resources are released *)

Lemma RemoveRequestStateEntry_run (s : Machine) (h : EntryRef) (e : RequestStateEntry) :
  lookup_entry s h = Some e -> is_Some (mstates e !! 0%nat) ->
  exists s', RemoveRequestStateEntry h s = Ok tt s' /\
    trace s' = trace s ++ retire_calls s e /\
    (prefix_cache s', models s', id_manager s') = retired_caches s e /\
    rstate_store s' = rstate_store s /\
    retire_frame s s'.
Proof.
  intros He [m0 Hm0]. unfold RemoveRequestStateEntry, retire_calls, retired_caches.
  rewrite (bind_Ok _ _ _ _ _ (load_entry_Ok _ _ _ He)), Hm0.
  unfold deref. cbn [bind ret gets].
  destruct (HasSequence (prefix_cache s) (internal_id m0)).
  - destruct (is_pinned (request e)); cbn [negb].
    + exists s. rewrite app_nil_r. by repeat split.
    + eexists. split; [reflexivity|]. by repeat split.
  - eexists. split; [reflexivity|]. simpl. rewrite <- app_assoc. by repeat split.
Qed.

Lemma RemoveRequestStateEntry_no_mstate (s : Machine) (h : EntryRef)
    (e : RequestStateEntry) :
  lookup_entry s h = Some e -> mstates e !! 0%nat = None ->
  RemoveRequestStateEntry h s = Fault s.
Proof.
  intros He Hm0. unfold RemoveRequestStateEntry.
  by rewrite (bind_Ok _ _ _ _ _ (load_entry_Ok _ _ _ He)), Hm0.
Qed.

(** Marking an entry finished and releasing it, as one step. *)
Lemma mark_and_release (s : Machine) (h : EntryRef) (e : RequestStateEntry) :
  children_finished s h e ->
  match (store_entry h (set_status kFinished e) ;;; RemoveRequestStateEntry h) s with
  | Ok _ s' => finished_and_released h e s s'
  | Fault s' => mstates e !! 0%nat = None /\ s' = write_entry h (set_status kFinished e) s
  | Spin _ => False
  end.
Proof.
  intros Hch. pose proof Hch as (rs & Hrs & He & Hall).
  assert (lookup_entry s h = Some e) as Hl by (apply store_lookup_Some; eauto).
  unfold store_entry. cbn [bind modify].
  set (s1 := write_entry h (set_status kFinished e) s).
  assert (lookup_entry s1 h = Some (set_status kFinished e)) as Hl1
    by (by apply (lookup_entry_write_eq _ _ _ e)).
  destruct (mstates e !! 0%nat) as [m0|] eqn:Hm0.
  - destruct (RemoveRequestStateEntry_run s1 h _ Hl1) as (s' & Hrun & Htr & Hc & Hst & Hf).
    { simpl. rewrite Hm0. by eexists. }
    rewrite Hrun. split; [done|]. split; [by eexists|]. split; [by rewrite Hst|].
    split; [|split; [|exact Hf]].
    + rewrite Htr. unfold retire_calls. simpl. by rewrite Hm0.
    + rewrite Hc. unfold retired_caches. simpl. by rewrite Hm0.
  - by rewrite (RemoveRequestStateEntry_no_mstate s1 h _ Hl1 Hm0).
Qed.

Lemma mark_and_release_step (s : Machine) (h : EntryRef) (e : RequestStateEntry) :
  children_finished s h e ->
  finish_step s
    (final ((store_entry h (set_status kFinished e) ;;; RemoveRequestStateEntry h) s)).
Proof.
  intros Hch. pose proof (mark_and_release s h e Hch) as Hrun.
  destruct ((store_entry h (set_status kFinished e) ;;; RemoveRequestStateEntry h) s)
    as [u s'|s'|s']; simpl.
  - by eapply step_release.
  - destruct Hrun as [Hm0 ->]. by eapply step_mark.
  - done.
Qed.

Lemma children_finished_intro (s : Machine) (rstate : string) (rs : RequestState)
    (p : Z) (parent : RequestStateEntry) :
  rstate_store s !! rstate = Some rs ->
  at_index (entries rs) p = Some parent ->
  all_children_finished (entries rs) (child_indices parent) = Some true ->
  0 <= p /\ children_finished s (rstate, Z.to_nat p) parent.
Proof.
  intros Hrs Hp Hall. unfold at_index in Hp.
  destruct (Z.ltb_spec p 0); [done|]. split; [done|].
  exists rs. split; [done|]. split; [done|]. by apply all_children_finished_true.
Qed.

Lemma steps_same (s0 s s' : Machine) :
  rstate_store s' = rstate_store s -> trace s' = trace s ->
  prefix_cache s' = prefix_cache s -> models s' = models s ->
  id_manager s' = id_manager s ->
  rtc finish_step s0 s -> rtc finish_step s0 s'.
Proof. intros H1 H2 H3 H4 H5 H. eapply rtc_r; [exact H|]. by apply step_retire. Qed.

Lemma mark_and_release_steps (s0 : Machine) (h : EntryRef) (e : RequestStateEntry)
    {A : Type} (k : M A) :
  (stable (rtc finish_step s0) k) ->
  triple (fun s => rtc finish_step s0 s /\ children_finished s h e)
    (store_entry h (set_status kFinished e) ;;; RemoveRequestStateEntry h ;;; k)
    (fun _ => rtc finish_step s0) (rtc finish_step s0).
Proof.
  intros Hk s [Hs Hch].
  pose proof (mark_and_release_step s h e Hch) as Hstep.
  rewrite <- (bind_assoc (store_entry h (set_status kFinished e))
                (fun _ => RemoveRequestStateEntry h) (fun _ => k) s).
  unfold bind at 1.
  destruct ((store_entry h (set_status kFinished e) ;;; RemoveRequestStateEntry h) s)
    as [u s'|s'|s']; simpl in Hstep.
  - apply Hk. by eapply rtc_r.
  - by eapply rtc_r.
  - by eapply rtc_r.
Qed.

Lemma climb_steps (s0 : Machine) (fuel : nat) (rstate : string) (p : Z) :
  stable (rtc finish_step s0) (climb fuel rstate p).
Proof.
  revert p. induction fuel as [|fuel IH]; intros p; simpl.
  - destruct (p =? -1); repeat stable_step.
  - destruct (p =? -1); [repeat stable_step|].
    eapply triple_bind; [by apply triple_load_rstate|]. intros rs.
    eapply triple_bind; [apply triple_deref; by intros s [Hs _]|]. intros parent.
    eapply triple_bind; [apply triple_deref; by intros s [[Hs _] _]|]. intros b.
    destruct b; simpl.
    + eapply triple_weaken; [apply (mark_and_release_steps s0 _ parent), IH|idtac|done|done].
      intros s (((Hs & Hrs) & Hp) & Hch). split; [done|].
      by apply (children_finished_intro s rstate rs p parent).
    + intros s (((Hs & _) & _) & _). done.
Qed.

Lemma RetireRequest_steps (now : nat -> Z) (s0 : Machine) (req : Request)
    (rstate : string) :
  stable (rtc finish_step s0) (RetireRequest now req rstate).
Proof.
  unfold RetireRequest, read_clock.
  repeat stable_step; (eapply steps_same; cycle 5; [eassumption|done..]).
Qed.

Lemma FinishEntryAndClimb_steps (s0 : Machine) (fuel : nat) (h : EntryRef) :
  stable (rtc finish_step s0) (FinishEntryAndClimb fuel h).
Proof.
  unfold FinishEntryAndClimb.
  eapply triple_bind; [by apply triple_load_entry|]. intros e.
  eapply triple_bind; [apply triple_ICHECK; by intros s [Hs _]|]. intros u.
  eapply triple_weaken; [apply (mark_and_release_steps s0 h e)|idtac|done|done].
  - apply stable_bind; [stable_step|]. intros rstate.
    apply stable_bind; [apply climb_steps|]. intros p. stable_step.
  - intros s ((Hs & He) & Hleaf). split; [done|].
    apply bool_decide_eq_true in Hleaf.
    apply store_lookup_Some in He as (rs & Hrs & He).
    exists rs. split; [done|]. split; [done|]. rewrite Hleaf. constructor.
Qed.

Lemma ProcessFinished_steps (now : nat -> Z) (s0 : Machine) (fuel : nat)
    (hs : list EntryRef) :
  stable (rtc finish_step s0) (ProcessFinishedRequestStateEntries now fuel hs).
Proof.
  unfold ProcessFinishedRequestStateEntries. apply stable_forM_. intros h _.
  unfold ProcessFinishedEntry.
  apply stable_bind; [apply FinishEntryAndClimb_steps|]. intros r.
  destruct (r.2 =? -1); [apply RetireRequest_steps|stable_step].
Qed.

(** A climb that returns has gone up a trail. *)
Lemma climb_trail (fuel : nat) (rstate : string) (p p' : Z) (s s' : Machine) :
  climb fuel rstate p s = Ok p' s' -> finish_trail rstate p s p' s'.
Proof.
  revert p s. induction fuel as [|fuel IH]; intros p s; simpl.
  - destruct (Z.eqb_spec p (-1)); [|done]. intros [= <- <-]. constructor.
  - destruct (Z.eqb_spec p (-1)); [intros [= <- <-]; constructor|].
    unfold bind at 1. unfold load_rstate, bind, gets.
    destruct (rstate_store s !! rstate) as [rs|] eqn:Hrs; [|done]. simpl.
    destruct (at_index (entries rs) p) as [parent|] eqn:Hp; [|done]. simpl.
    destruct (all_children_finished (entries rs) (child_indices parent)) as [b|] eqn:Hch;
      [|done]. simpl.
    destruct b; simpl; [|intros [= <- <-]; constructor].
    destruct (children_finished_intro s rstate rs p parent Hrs Hp Hch) as [Hp0 Hcf].
    pose proof (mark_and_release s (rstate, Z.to_nat p) parent Hcf) as Hstep.
    intros Hrun.
    change (bind (store_entry (rstate, Z.to_nat p) (set_status kFinished parent))
              (fun _ => bind (RemoveRequestStateEntry (rstate, Z.to_nat p))
                          (fun _ => climb fuel rstate (parent_idx parent))) s = Ok p' s')
      in Hrun.
    rewrite <- (bind_assoc _ (fun _ => RemoveRequestStateEntry (rstate, Z.to_nat p))
                  (fun _ => climb fuel rstate (parent_idx parent)) s) in Hrun.
    unfold bind at 1 in Hrun.
    destruct ((store_entry (rstate, Z.to_nat p) (set_status kFinished parent) ;;;
               RemoveRequestStateEntry (rstate, Z.to_nat p)) s) as [u s2|s2|s2]; [|done..].
    eapply trail_up; [exact Hp0|exact Hstep|]. by apply IH.
Qed.

(** Finishing a leaf and climbing, where it returns: the leaf had no
    child, was marked finished and released, and the climb went up a trail
    from its parent. *)
Lemma FinishEntryAndClimb_trail (fuel : nat) (h : EntryRef) (s : Machine)
    (req : Request) (rstate : string) (p' : Z) (s' : Machine) :
  FinishEntryAndClimb fuel h s = Ok (req, rstate, p') s' ->
  exists e s2,
    lookup_entry s h = Some e /\ child_indices e = [] /\
    req = request e /\ rstate = id (request e) /\
    finished_and_released h e s s2 /\
    finish_trail rstate (parent_idx e) s2 p' s'.
Proof.
  unfold FinishEntryAndClimb. unfold bind at 1. unfold load_entry, bind at 1, gets.
  destruct (lookup_entry s h) as [e|] eqn:He; [|done]. simpl.
  unfold bind at 1. case_bool_decide as Hleaf; [|done]. cbn [ICHECK ret].
  assert (children_finished s h e) as Hcf.
  { apply store_lookup_Some in He as (rs & Hrs & He).
    exists rs. split; [done|]. split; [done|]. rewrite Hleaf. constructor. }
  pose proof (mark_and_release s h e Hcf) as Hstep. intros Hrun.
  rewrite <- (bind_assoc (store_entry h (set_status kFinished e))
                (fun _ => RemoveRequestStateEntry h)
                (fun _ =>
                   let* rstate := GetRequestState (request e) in
                   let* parent_idx1 := climb fuel rstate (parent_idx e) in
                   ret (request e, rstate, parent_idx1)) s) in Hrun.
  unfold bind at 1 in Hrun.
  destruct ((store_entry h (set_status kFinished e) ;;; RemoveRequestStateEntry h) s)
    as [u s2|s2|s2]; [|done..].
  unfold bind at 1 in Hrun.
  pose proof (GetRequestState_final (request e) s2) as Hfin.
  destruct (GetRequestState (request e) s2) as [rstate0 s3|s3|s3] eqn:Hget; [|done..].
  simpl in Hfin. subst s3.
  assert (rstate0 = id (request e)) as ->.
  { revert Hget. unfold GetRequestState. cbn [bind gets].
    destruct (bool_decide _); [|done]. cbn [ICHECK bind ret].
    unfold load_rstate, bind, gets, deref.
    destruct (rstate_store s2 !! id (request e)); [|done]. by intros [= <-]. }
  unfold bind at 1 in Hrun.
  destruct (climb fuel (id (request e)) (parent_idx e) s2) as [p1 s4|s4|s4] eqn:Hclimb;
    [|done..].
  injection Hrun as <- <- <- <-.
  exists e, s2. do 4 (split; [done|]). split; [exact Hstep|].
  by apply (climb_trail fuel).
Qed.

(** Every step keeps the post-order. *)
Lemma finish_step_post_order (s s' : Machine) :
  finish_step s s' -> post_order s -> post_order s'.
Proof.
  assert (forall h e, children_finished s h e -> post_order s ->
            rstate_store s' = store_write h (set_status kFinished e) (rstate_store s) ->
            post_order s') as Hmark.
  { intros h e (rs & Hrs & He & Hall) Hs Hst.
    pose proof (post_order_finish s h rs e Hs Hrs He Hall) as Hp.
    unfold post_order in *. by rewrite Hst. }
  intros [h e (Hch & _ & Hst & _)|h e Hch _ ->|Hst _ _ _ _] Hs.
  - by eapply Hmark.
  - by eapply Hmark.
  - unfold post_order in *. by rewrite Hst.
Qed.

Lemma finish_steps_post_order (s s' : Machine) :
  rtc finish_step s s' -> post_order s -> post_order s'.
Proof. induction 1; eauto using finish_step_post_order. Qed.

(** C3. [ProcessFinishedRequestStateEntries] keeps the post-order of
    finished entries at every point of its run: wherever the processing of
    the list, of one entry, or one climb stands or ends, no entry is
    finished while a child of it is not; an entry changes only by being
    marked finished; and a climb that stops before the root stops at an
    entry that still has a child that is not finished.  Resources are
    released only with the mark: whatever its outcome, the run is a
    sequence of steps each of which either marks finished one entry whose
    children are all finished already and makes, for that entry, the calls
    that release its sequence, or touches no entry, cache or id and makes
    no call; every world on such a path keeps the post-order.  Where a
    climb returns it has gone up the [parent_idx] links from where it
    started, marking and releasing each entry on its way; where finishing
    a leaf returns, the leaf had no child, was marked and released first,
    and the climb went on from its parent. *)
Theorem finish_propagates_post_order (now : nat -> Z) (fuel : nat) (s : Machine) :
  post_order s ->
  (forall hs,
     let s' := final (ProcessFinishedRequestStateEntries now fuel hs s) in
     post_order s' /\ only_finishes s s') /\
  (forall h,
     let s' := final (ProcessFinishedEntry now fuel h s) in
     post_order s' /\ only_finishes s s') /\
  (forall rstate p,
     let s' := final (climb fuel rstate p s) in
     post_order s' /\ only_finishes s s') /\
  (forall rstate p p' s',
     climb fuel rstate p s = Ok p' s' -> p' <> -1 ->
     exists rs parent,
       rstate_store s' !! rstate = Some rs /\
       at_index (entries rs) p' = Some parent /\
       Exists (fun c => exists ec, at_index (entries rs) c = Some ec /\
                                   status ec <> kFinished)
              (child_indices parent)) /\
  (forall hs,
     rtc finish_step s (final (ProcessFinishedRequestStateEntries now fuel hs s))) /\
  (forall s1, rtc finish_step s s1 -> post_order s1) /\
  (forall rstate p p' s',
     climb fuel rstate p s = Ok p' s' -> finish_trail rstate p s p' s') /\
  (forall h req rstate p' s',
     FinishEntryAndClimb fuel h s = Ok (req, rstate, p') s' ->
     exists e s2,
       lookup_entry s h = Some e /\ child_indices e = [] /\
       req = request e /\ rstate = id (request e) /\
       finished_and_released h e s s2 /\
       finish_trail rstate (parent_idx e) s2 p' s').
Proof.
  intros Hs. repeat split.
  - by apply (stable_final _ _ _ (ProcessFinished_finishing now s fuel hs) (finishing_refl s)).
  - by apply (stable_final _ _ _ (ProcessFinished_finishing now s fuel hs) (finishing_refl s)).
  - by apply (stable_final _ _ _ (ProcessFinishedEntry_finishing now s fuel h)
                (finishing_refl s)).
  - by apply (stable_final _ _ _ (ProcessFinishedEntry_finishing now s fuel h)
                (finishing_refl s)).
  - by apply (stable_final _ _ _ (climb_finishing s fuel rstate p) (finishing_refl s)).
  - by apply (stable_final _ _ _ (climb_finishing s fuel rstate p) (finishing_refl s)).
  - intros rstate p p' s'. apply climb_stops.
  - intros hs. apply (stable_final _ _ _ (ProcessFinished_steps now s fuel hs)). done.
  - intros s1 Hsteps. by apply (finish_steps_post_order s).
  - intros rstate p p' s'. apply climb_trail.
  - intros h req rstate p' s'. apply FinishEntryAndClimb_trail.
Qed.

(** ** Retiring a whole request *)

Lemma count_decode_Ok (es : list RequestStateEntry) (s : Machine) :
  Forall (fun e => is_Some (mstates e !! 0%nat)) es ->
  forM_ es (fun entry =>
    let* m0 := deref (mstates entry !! 0%nat) in
    modify (fun s => set_stats
      (add_decode_length (Z.of_nat (length (committed_tokens m0))) (stats s)) s)) s
  = Ok tt (set_stats (add_decode_length (sum_committed es) (stats s)) s).
Proof.
  intros Hall. revert s. induction Hall as [|e es [m0 Hm0] _ IH]; intros s; simpl.
  - f_equal. destruct s as [rq wq rqs idm pc [a b c d] st ms tr ck].
    unfold set_stats, add_decode_length; simpl. by rewrite Z.add_0_r.
  - rewrite Hm0. simpl. unfold bind at 1. simpl. rewrite IH.
    f_equal. unfold set_stats, add_decode_length, committed_count; simpl.
    rewrite Hm0. do 2 f_equal. lia.
Qed.

Lemma RemoveRequestStateEntry_frame (s0 : Machine) (h : EntryRef) :
  stable (retire_frame s0) (RemoveRequestStateEntry h).
Proof.
  unfold RemoveRequestStateEntry, RemoveRequestFromModel, call_RecycleSequence,
    call_RecycleId.
  repeat stable_step; done.
Qed.

Lemma climb_frame (s0 : Machine) (fuel : nat) (rstate : string) (p : Z) :
  stable (retire_frame s0) (climb fuel rstate p).
Proof.
  revert p. induction fuel as [|fuel IH]; intros p; simpl.
  - destruct (p =? -1); repeat stable_step.
  - destruct (p =? -1); [repeat stable_step|].
    do 3 (apply stable_bind; [stable_step|intros ?]).
    destruct (negb _); [stable_step|].
    apply stable_bind; [unfold store_entry; stable_step; done|]. intros _.
    apply stable_bind; [apply RemoveRequestStateEntry_frame|]. intros _. apply IH.
Qed.

Lemma FinishEntryAndClimb_frame (s0 : Machine) (fuel : nat) (h : EntryRef) :
  stable (retire_frame s0) (FinishEntryAndClimb fuel h).
Proof.
  unfold FinishEntryAndClimb.
  do 2 (apply stable_bind; [stable_step|intros ?]).
  apply stable_bind; [unfold store_entry; stable_step; done|]. intros _.
  apply stable_bind; [apply RemoveRequestStateEntry_frame|]. intros _.
  apply stable_bind; [stable_step|]. intros rstate.
  apply stable_bind; [apply climb_frame|]. intros p. stable_step.
Qed.

Lemma RetireRequest_Ok (now : nat -> Z) (req : Request) (rstate : string) (s : Machine)
    (it : nat) (rs : RequestState) (root_rsentry : RequestStateEntry) :
  find_request req (running_queue s) = Some it ->
  rstate_store s !! rstate = Some rs ->
  entries rs !! 0%nat = Some root_rsentry ->
  Forall (fun e => is_Some (mstates e !! 0%nat)) (entries rs) ->
  exists s',
    RetireRequest now req rstate s = Ok tt s' /\
    running_queue s' = delete it (running_queue s) /\
    request_states s' = request_states s ∖ {[ id req ]} /\
    total_prefill_length (stats s') = total_prefill_length (stats s) /\
    total_decode_length (stats s') =
      total_decode_length (stats s) + sum_committed (entries rs) - n (generation_cfg req) /\
    request_total_prefill_time (stats s') =
      (request_total_prefill_time (stats s) +
       double_of_int64 (tprefill_finish root_rsentry - tadd root_rsentry) / 1e9)%float /\
    request_total_decode_time (stats s') =
      (request_total_decode_time (stats s) +
       double_of_int64 (now (clock_reads s) - tprefill_finish root_rsentry) / 1e9)%float /\
    rstate_store s' = rstate_store s /\
    waiting_queue s' = waiting_queue s /\
    trace s' = trace s.
Proof.
  intros Hit Hrs Hroot Hall. unfold RetireRequest.
  cbn [bind gets]. rewrite Hit. cbn [deref bind ret modify].
  set (s1 := set_request_states _ _).
  assert (rstate_store s1 !! rstate = Some rs) as Hrs1 by exact Hrs.
  rewrite (bind_Ok _ _ _ _ _ (load_rstate_Ok _ _ _ Hrs1)), Hroot.
  cbn [deref bind ret]. unfold read_clock. cbn [bind gets modify ret].
  rewrite (bind_Ok _ _ _ _ _ (count_decode_Ok _ _ Hall)).
  eexists. split; [reflexivity|]. simpl.
  repeat split; try done; lia.
Qed.

(** The first occurrence of a request in a queue is where [std::find]
    stops, and erasing there leaves the requests ahead of it and behind
    it. *)
Lemma find_request_split (req : Request) (ahead behind : list Request) :
  req ∉ ahead -> find_request req (ahead ++ req :: behind) = Some (length ahead).
Proof.
  induction ahead as [|r ahead IH]; intros Hn; simpl.
  - by rewrite decide_True.
  - apply not_elem_of_cons in Hn as [Hne Hn].
    rewrite decide_False by done. by rewrite IH.
Qed.

Lemma delete_split {A : Type} (x : A) (ahead behind : list A) :
  delete (length ahead) (ahead ++ x :: behind) = ahead ++ behind.
Proof. induction ahead as [|y ahead IH]; simpl; [done|]. by rewrite IH. Qed.

(** C9. Finishing an entry and climbing leave the statistics, the queues
    and [request_states] alone.  When the climb ends past the root
    ([parent_idx == -1]) the request is retired at once: its first
    occurrence is erased from [running_queue], the requests ahead of it and
    behind it staying in order, and its id from [request_states]; the
    prefill time becomes the old one plus, in [double] arithmetic, the
    [double] of the nanoseconds [root.tprefill_finish - root.tadd] divided
    by [1e9]; the decode time likewise with [now - root.tprefill_finish];
    and [total_decode_length] grows by the sum of the committed tokens of
    all entries minus [n].  When the climb ends before the root, nothing
    more happens. *)
Theorem whole_request_retired (now : nat -> Z) (fuel : nat) (h : EntryRef) (s : Machine) :
  retire_frame s (final (FinishEntryAndClimb fuel h s)) /\
  forall req rstate p s1,
    FinishEntryAndClimb fuel h s = Ok (req, rstate, p) s1 ->
    (p <> -1 ->
     ProcessFinishedEntry now fuel h s = Ok tt s1 /\
     stats s1 = stats s /\
     running_queue s1 = running_queue s /\
     request_states s1 = request_states s) /\
    (p = -1 ->
     forall ahead behind rs root_rsentry,
       running_queue s = ahead ++ req :: behind ->
       req ∉ ahead ->
       rstate_store s1 !! rstate = Some rs ->
       entries rs !! 0%nat = Some root_rsentry ->
       Forall (fun e => is_Some (mstates e !! 0%nat)) (entries rs) ->
       exists s',
         ProcessFinishedEntry now fuel h s = Ok tt s' /\
         running_queue s' = ahead ++ behind /\
         waiting_queue s' = waiting_queue s /\
         request_states s' = request_states s ∖ {[ id req ]} /\
         total_prefill_length (stats s') = total_prefill_length (stats s) /\
         total_decode_length (stats s') =
           total_decode_length (stats s) + sum_committed (entries rs)
           - n (generation_cfg req) /\
         request_total_prefill_time (stats s') =
           (request_total_prefill_time (stats s) +
            double_of_int64 (tprefill_finish root_rsentry - tadd root_rsentry) / 1e9)%float /\
         request_total_decode_time (stats s') =
           (request_total_decode_time (stats s) +
            double_of_int64 (now (clock_reads s) - tprefill_finish root_rsentry) / 1e9)%float).
Proof.
  pose proof (stable_final _ _ s (FinishEntryAndClimb_frame s fuel h)) as Hframe.
  split; [by apply Hframe|].
  intros req rstate p s1 Hrun. rewrite Hrun in Hframe. simpl in Hframe.
  destruct Hframe as (Hst & Hrq & Hwq & Hrs & Hck); [done|].
  unfold ProcessFinishedEntry. rewrite (bind_Ok _ _ _ _ _ Hrun). simpl.
  split.
  - intros Hp. destruct (Z.eqb_spec p (-1)); [done|]. done.
  - intros -> ahead behind rs root Hq Hahead Hrs1 Hroot Hall. simpl.
    assert (find_request req (running_queue s1) = Some (length ahead)) as Hit.
    { rewrite Hrq, Hq. by apply find_request_split. }
    destruct (RetireRequest_Ok now req rstate s1 _ rs root Hit Hrs1 Hroot Hall)
      as (s' & Hret & H1 & H2 & H3 & H4 & H5 & H6 & _ & H8 & _).
    exists s'. rewrite <- Hst, <- Hrs, <- Hck, <- Hwq.
    split; [done|]. split; [by rewrite H1, Hrq, Hq, delete_split|]. done.
Qed.

(** ** The finish climb reaches its end *)

Lemma at_index_insert_is_Some {A : Type} (l : list A) (i : nat) (x : A) (c : Z) :
  is_Some (at_index (<[i := x]> l) c) <-> is_Some (at_index l c).
Proof.
  unfold at_index. destruct (c <? 0); [done|].
  rewrite !lookup_lt_is_Some. by rewrite length_insert.
Qed.

Lemma tree_wf_set_status (rs : RequestState) (i : nat) (e : RequestStateEntry)
    (v : RequestStateStatus) :
  tree_wf rs -> entries rs !! i = Some e ->
  tree_wf {| entries := <[i := set_status v e]> (entries rs) |}.
Proof.
  intros Hwf He k e' Hk. simpl in *.
  assert (exists e0, entries rs !! k = Some e0 /\ parent_idx e' = parent_idx e0 /\
            child_indices e' = child_indices e0 /\ mstates e' = mstates e0)
    as (e0 & He0 & -> & -> & ->).
  { destruct (decide (i = k)) as [->|Hne].
    - rewrite list_lookup_insert_eq in Hk by (by eapply lookup_lt_Some).
      injection Hk as <-. by exists e.
    - rewrite list_lookup_insert_ne in Hk by done. by exists e'. }
  destruct (Hwf k e0 He0) as (Hp & Hc & Hm). split; [done|]. split; [|done].
  eapply Forall_impl; [exact Hc|]. intros c. by rewrite at_index_insert_is_Some.
Qed.

Lemma all_children_finished_total (es : list RequestStateEntry) (cs : list Z) :
  Forall (fun c => is_Some (at_index es c)) cs -> is_Some (all_children_finished es cs).
Proof.
  induction 1 as [|c cs [ec Hc] _ IH]; simpl; [by eexists|].
  rewrite Hc. case_decide; [done|by eexists].
Qed.

Lemma RemoveRequestStateEntry_total (s : Machine) (h : EntryRef) (e : RequestStateEntry) :
  lookup_entry s h = Some e -> is_Some (mstates e !! 0%nat) ->
  exists s', RemoveRequestStateEntry h s = Ok tt s' /\
    rstate_store s' = rstate_store s /\ request_states s' = request_states s.
Proof.
  intros He [m0 Hm0]. unfold RemoveRequestStateEntry.
  rewrite (bind_Ok _ _ _ _ _ (load_entry_Ok _ _ _ He)), Hm0.
  unfold deref. cbn [bind ret gets].
  destruct (HasSequence _ _); [destruct (negb _)|]; by eexists.
Qed.

Lemma climb_total (fuel : nat) (rstate : string) (p : Z) (s : Machine) (rs : RequestState) :
  rstate_store s !! rstate = Some rs ->
  tree_wf rs ->
  p = -1 \/ 0 <= p < Z.of_nat (length (entries rs)) ->
  (Z.to_nat (p + 1) <= fuel)%nat ->
  exists p' s', climb fuel rstate p s = Ok p' s' /\
    request_states s' = request_states s.
Proof.
  revert p s rs. induction fuel as [|fuel IH]; intros p s rs Hrs Hwf Hp Hfuel; simpl.
  - destruct (Z.eqb_spec p (-1)); [by eexists _, _|lia].
  - destruct (Z.eqb_spec p (-1)); [by eexists _, _|].
    destruct Hp as [|Hp]; [done|].
    rewrite (bind_Ok _ _ _ _ _ (load_rstate_Ok _ _ _ Hrs)).
    assert (exists parent, entries rs !! Z.to_nat p = Some parent) as [parent Hparent].
    { apply lookup_lt_is_Some. lia. }
    assert (at_index (entries rs) p = Some parent) as Hat.
    { unfold at_index. destruct (Z.ltb_spec p 0); [lia|done]. }
    rewrite Hat. cbn [deref bind ret].
    destruct (Hwf _ _ Hparent) as (Hpp & Hc & Hm).
    destruct (all_children_finished_total _ _ Hc) as [b Hb]. rewrite Hb.
    cbn [deref bind ret]. destruct b; simpl; [|by eexists _, _].
    unfold store_entry. cbn [bind modify].
    set (s1 := write_entry _ _ s).
    assert (lookup_entry s1 (rstate, Z.to_nat p) = Some (set_status kFinished parent)) as He1.
    { apply (lookup_entry_write_eq _ _ _ parent). apply store_lookup_Some. eauto. }
    destruct (RemoveRequestStateEntry_total s1 _ _ He1 Hm) as (s2 & Hrm & Hst2 & Hrq2).
    rewrite (bind_Ok _ _ _ _ _ Hrm).
    destruct (IH (parent_idx parent) s2
                {| entries := <[Z.to_nat p := set_status kFinished parent]> (entries rs) |})
      as (p' & s' & Hrun & Hrq').
    + rewrite Hst2. subst s1. unfold write_entry, store_write; simpl.
      by rewrite lookup_alter_eq, Hrs.
    + by apply tree_wf_set_status.
    + simpl. rewrite length_insert. lia.
    + lia.
    + exists p', s'. split; [done|]. by rewrite Hrq', Hrq2.
Qed.

(** Finishing a leaf of a well-formed tree and climbing from it comes to
    an end, given fuel for the depth of the leaf. *)
Lemma FinishEntryAndClimb_total (fuel : nat) (h : EntryRef) (s : Machine)
    (e : RequestStateEntry) (rs : RequestState) :
  lookup_entry s h = Some e ->
  child_indices e = [] ->
  is_Some (mstates e !! 0%nat) ->
  id (request e) ∈ request_states s ->
  rstate_store s !! id (request e) = Some rs ->
  tree_wf rs ->
  parent_idx e = -1 \/ 0 <= parent_idx e < Z.of_nat (length (entries rs)) ->
  (Z.to_nat (parent_idx e + 1) <= fuel)%nat ->
  exists p s1, FinishEntryAndClimb fuel h s = Ok (request e, id (request e), p) s1.
Proof.
  intros He Hleaf Hm Hin Hrs Hwf Hp Hfuel. unfold FinishEntryAndClimb.
  rewrite (bind_Ok _ _ _ _ _ (load_entry_Ok _ _ _ He)).
  rewrite bool_decide_true by done. cbn [ICHECK bind ret].
  unfold store_entry. cbn [bind modify].
  set (s1 := write_entry _ _ s).
  assert (lookup_entry s1 h = Some (set_status kFinished e)) as He1.
  { by apply (lookup_entry_write_eq _ _ _ e). }
  destruct (RemoveRequestStateEntry_total s1 _ _ He1 Hm) as (s2 & Hrm & Hst2 & Hrq2).
  rewrite (bind_Ok _ _ _ _ _ Hrm).
  assert (exists rs2, rstate_store s2 !! id (request e) = Some rs2 /\ tree_wf rs2 /\
            length (entries rs2) = length (entries rs)) as (rs2 & Hrs2 & Hwf2 & Hlen2).
  { rewrite Hst2. subst s1. unfold write_entry, store_write; simpl.
    rewrite lookup_alter. case_decide as Hh.
    - rewrite Hh in *. rewrite Hrs. simpl. eexists. split; [done|].
      apply store_lookup_Some in He as (rs' & Hrs' & He').
      rewrite Hh in Hrs'. assert (rs' = rs) as -> by congruence.
      split; [by apply tree_wf_set_status|]. simpl. by rewrite length_insert.
    - by exists rs. }
  rewrite (bind_Ok _ _ _ _ _ (GetRequestState_Ok s2 (request e) ltac:(by rewrite Hrq2)
                                 ltac:(by eexists))).
  destruct (climb_total fuel (id (request e)) (parent_idx e) s2 rs2)
    as (p & s3 & Hclimb & _); [done|done|lia|done|].
  rewrite (bind_Ok _ _ _ _ _ Hclimb). by eexists _, _.
Qed.

(** ** Preemption *)

Lemma engine_same_refl (s : Machine) : engine_same s s.
Proof. by repeat split. Qed.

Lemma engine_same_trans (s1 s2 s3 : Machine) :
  engine_same s1 s2 -> engine_same s2 s3 -> engine_same s1 s3.
Proof.
  intros (A1&A2&A3&A4&A5&A6&A7&A8) (B1&B2&B3&B4&B5&B6&B7&B8).
  repeat split; congruence.
Qed.

Lemma entry_with_with (e : RequestStateEntry) (j : nat) (m1 m2 : RequestModelState) :
  entry_with (entry_with e j m1) j m2 = entry_with e j m2.
Proof. unfold entry_with, set_mstates; simpl. by rewrite list_insert_insert_eq. Qed.

Lemma entry_with_lookup (e : RequestStateEntry) (j : nat) (m m' : RequestModelState) :
  mstates e !! j = Some m -> mstates (entry_with e j m') !! j = Some m'.
Proof. intros H. simpl. apply list_lookup_insert_eq. by eapply lookup_lt_Some. Qed.

Lemma update_mstate_run (s : Machine) (h : EntryRef) (j : nat) (e : RequestStateEntry)
    (m : RequestModelState) (f : RequestModelState -> RequestModelState) :
  lookup_entry s h = Some e -> mstates e !! j = Some m ->
  exists s',
    update_mstate h j f s = Ok tt s' /\
    lookup_entry s' h = Some (entry_with e j (f m)) /\
    rstate_store s' = store_write h (entry_with e j (f m)) (rstate_store s) /\
    trace s' = trace s /\
    engine_same s s'.
Proof.
  intros He Hm. rewrite (update_mstate_Ok _ _ _ _ _ _ He Hm).
  eexists. split; [reflexivity|]. split; [by eapply lookup_entry_write_eq|].
  by repeat split.
Qed.

Lemma PreemptModelState_run (workspace : bool) (req : Request) (h : EntryRef) (j : nat)
    (s : Machine) (e : RequestStateEntry) (m : RequestModelState) (inputs1 : list Data) :
  lookup_entry s h = Some e ->
  mstates e !! j = Some m ->
  rebuild_inputs req (parent_idx e) (committed_token_ids m) = Some inputs1 ->
  exists s',
    PreemptModelState workspace req h j s = Ok tt s' /\
    rstate_store s' = store_write h (entry_with e j (preempted workspace inputs1 m))
                        (rstate_store s) /\
    trace s' = trace s ++ (if workspace then [EvFreeSlots (draft_token_slots m)] else []) /\
    engine_same s s'.
Proof.
  intros He Hm Hin. unfold PreemptModelState.
  (* the draft tokens *)
  set (ma := if workspace then (RemoveAllDraftTokens m).2 else m).
  assert (exists sa,
    (if workspace then
       let* e0 := load_entry h in
       let* m1 := deref (mstates e0 !! j) in
       update_mstate h j (fun m2 => (RemoveAllDraftTokens m2).2) ;;;
       modify (emit (EvFreeSlots (RemoveAllDraftTokens m1).1))
     else ret tt) s = Ok tt sa /\
    lookup_entry sa h = Some (entry_with e j ma) /\
    rstate_store sa = store_write h (entry_with e j ma) (rstate_store s) /\
    trace sa = trace s ++ (if workspace then [EvFreeSlots (draft_token_slots m)] else []) /\
    engine_same s sa) as (sa & Hruna & Hea & Hsa & Hta & Hfa).
  { subst ma. destruct workspace.
    - rewrite (bind_Ok _ _ _ _ _ (load_entry_Ok _ _ _ He)), Hm. cbn [deref bind ret].
      destruct (update_mstate_run s h j e m (fun m2 => (RemoveAllDraftTokens m2).2) He Hm)
        as (s1 & Hr1 & He1 & Hs1 & Ht1 & Hf1).
      rewrite (bind_Ok _ _ _ _ _ Hr1). eexists. split; [reflexivity|].
      split; [exact He1|]. split; [exact Hs1|]. split; [by simpl; rewrite Ht1|].
      exact Hf1.
    - exists s. split; [done|].
      assert (entry_with e j m = e) as ->.
      { unfold entry_with. rewrite (list_insert_id _ _ _ Hm). apply set_mstates_id. }
      split; [done|]. split; [symmetry; by apply store_write_id|].
      split; [by rewrite app_nil_r|apply engine_same_refl]. }
  rewrite (bind_Ok _ _ _ _ _ Hruna).
  rewrite (bind_Ok _ _ _ _ _ (load_entry_Ok _ _ _ Hea)).
  pose proof (entry_with_lookup e j m ma Hm) as Hma. rewrite Hma. cbn [deref bind ret].
  destruct (update_mstate_run sa h j _ ma (set_num_prefilled_tokens 0) Hea Hma)
    as (s1 & Hr1 & He1 & Hs1 & Ht1 & Hf1).
  rewrite (bind_Ok _ _ _ _ _ Hr1), entry_with_with in *.
  assert (committed_token_ids ma = committed_token_ids m) as ->.
  { subst ma. by destruct workspace. }
  change (parent_idx (entry_with e j ma)) with (parent_idx e). rewrite Hin.
  cbn [deref bind ret].
  destruct (update_mstate_run s1 h j _ _ (set_inputs inputs1) He1
              (entry_with_lookup e j m _ Hm))
    as (s2 & Hr2 & He2 & Hs2 & Ht2 & Hf2).
  rewrite (bind_Ok _ _ _ _ _ Hr2), entry_with_with in *.
  destruct (update_mstate_run s2 h j _ _ (set_prefilled_inputs []) He2
              (entry_with_lookup e j m _ Hm))
    as (s3 & Hr3 & He3 & Hs3 & Ht3 & Hf3).
  rewrite (bind_Ok _ _ _ _ _ Hr3), entry_with_with in *.
  destruct (update_mstate_run s3 h j _ _ (set_cached_committed_tokens 0) He3
              (entry_with_lookup e j m _ Hm))
    as (s4 & Hr4 & He4 & Hs4 & Ht4 & Hf4).
  rewrite Hr4, entry_with_with in *.
  exists s4. split; [done|]. split.
  { rewrite Hs4, Hs3, Hs2, Hs1, Hsa. by rewrite !store_write_write. }
  split; [congruence|].
  repeat (eapply engine_same_trans; [eassumption|]). apply engine_same_refl.
Qed.

Lemma rebuild_inputs_Some (req : Request) (p : Z) (m : RequestModelState) :
  (p = -1 -> req_inputs req <> []) ->
  rebuild_inputs req p (committed_token_ids m) = Some (rebuilt req p m).
Proof.
  intros H. unfold rebuilt, rebuild_inputs.
  destruct (Z.eqb_spec p (-1)) as [Hp|Hp]; [|done].
  destruct (last (req_inputs req)) as [back|] eqn:Hl.
  - by destruct (as_TokenDataNode back).
  - apply last_None in Hl. by destruct (H Hp).
Qed.

Lemma insert_take_drop {A : Type} (f : A -> A) (l : list A) (a : nat) (x : A) :
  l !! a = Some x ->
  <[a := f x]> ((f <$> take a l) ++ drop a l) = (f <$> take (S a) l) ++ drop (S a) l.
Proof.
  intros Hx. pose proof (lookup_lt_Some _ _ _ Hx) as Hlt.
  rewrite (take_S_r _ _ _ Hx), fmap_app, <- app_assoc. simpl.
  rewrite insert_app_r_alt by (rewrite length_fmap, length_take; lia).
  rewrite length_fmap, length_take, Nat.min_l, Nat.sub_diag by lia.
  by rewrite (drop_S _ _ _ Hx).
Qed.

Lemma PreemptModelStates_from (workspace : bool) (req : Request) (h : EntryRef)
    (e : RequestStateEntry) (d a : nat) (s : Machine) :
  let F := fun m => preempted workspace (rebuilt req (parent_idx e) m) m in
  (parent_idx e = -1 -> req_inputs req <> []) ->
  (a + d = length (mstates e))%nat ->
  lookup_entry s h = Some (set_mstates ((F <$> take a (mstates e)) ++ drop a (mstates e)) e) ->
  exists s',
    forM_ (seq a d) (PreemptModelState workspace req h) s = Ok tt s' /\
    rstate_store s' = store_write h (set_mstates (F <$> mstates e) e) (rstate_store s) /\
    trace s' = trace s ++
      (if workspace
       then (fun m => EvFreeSlots (draft_token_slots m)) <$> drop a (mstates e) else []) /\
    engine_same s s'.
Proof.
  intros F Hreq. revert a s. induction d as [|d IH]; intros a s Hlen He.
  - exists s. split; [done|].
    rewrite take_ge, drop_ge in * by lia. rewrite app_nil_r in He.
    split; [symmetry; by apply store_write_id|].
    split; [destruct workspace; by rewrite app_nil_r|apply engine_same_refl].
  - destruct (lookup_lt_is_Some_2 (mstates e) a) as [m Hm]; [lia|].
    set (ec := set_mstates _ e) in He.
    assert (mstates ec !! a = Some m) as Hmc.
    { subst ec; simpl. rewrite lookup_app_r by (rewrite length_fmap, length_take; lia).
      rewrite length_fmap, length_take, Nat.min_l, Nat.sub_diag by lia.
      by rewrite lookup_drop, Nat.add_0_r. }
    destruct (PreemptModelState_run workspace req h a s ec m
                (rebuilt req (parent_idx e) m) He Hmc)
      as (s1 & Hr1 & Hs1 & Ht1 & Hf1).
    { by apply rebuild_inputs_Some. }
    assert (entry_with ec a (F m) =
            set_mstates ((F <$> take (S a) (mstates e)) ++ drop (S a) (mstates e)) e) as Heq.
    { subst ec. unfold entry_with, set_mstates; simpl.
      by rewrite (insert_take_drop F _ _ _ Hm). }
    fold (F m) in Hs1. rewrite Heq in Hs1.
    destruct (IH (S a) s1) as (s' & Hr' & Hs' & Ht' & Hf'); [lia| |].
    { unfold lookup_entry. rewrite Hs1, store_lookup_write, decide_True by done.
      unfold lookup_entry in He. by rewrite He. }
    exists s'. cbn [seq forM_]. rewrite (bind_Ok _ _ _ _ _ Hr1).
    split; [exact Hr'|]. split; [by rewrite Hs', Hs1, store_write_write|].
    split; [|by eapply engine_same_trans].
    rewrite Ht', Ht1, <- app_assoc. f_equal.
    rewrite (drop_S _ _ _ Hm). by destruct workspace.
Qed.

Lemma update_mstates_from (h : EntryRef) (e : RequestStateEntry)
    (f : RequestModelState -> RequestModelState) (d a : nat) (s : Machine) :
  (a + d = length (mstates e))%nat ->
  lookup_entry s h = Some (set_mstates ((f <$> take a (mstates e)) ++ drop a (mstates e)) e) ->
  exists s',
    forM_ (seq a d) (fun j => update_mstate h j f) s = Ok tt s' /\
    rstate_store s' = store_write h (set_mstates (f <$> mstates e) e) (rstate_store s) /\
    trace s' = trace s /\
    engine_same s s'.
Proof.
  revert a s. induction d as [|d IH]; intros a s Hlen He.
  - exists s. split; [done|].
    rewrite take_ge, drop_ge in * by lia. rewrite app_nil_r in He.
    split; [symmetry; by apply store_write_id|].
    split; [done|apply engine_same_refl].
  - destruct (lookup_lt_is_Some_2 (mstates e) a) as [m Hm]; [lia|].
    set (ec := set_mstates _ e) in He.
    assert (mstates ec !! a = Some m) as Hmc.
    { subst ec; simpl. rewrite lookup_app_r by (rewrite length_fmap, length_take; lia).
      rewrite length_fmap, length_take, Nat.min_l, Nat.sub_diag by lia.
      by rewrite lookup_drop, Nat.add_0_r. }
    destruct (update_mstate_run s h a ec m f He Hmc) as (s1 & Hr1 & He1 & Hs1 & Ht1 & Hf1).
    assert (entry_with ec a (f m) =
            set_mstates ((f <$> take (S a) (mstates e)) ++ drop (S a) (mstates e)) e) as Heq.
    { subst ec. unfold entry_with, set_mstates; simpl.
      by rewrite (insert_take_drop f _ _ _ Hm). }
    rewrite Heq in He1, Hs1.
    destruct (IH (S a) s1) as (s' & Hr' & Hs' & Ht' & Hf'); [lia|done|].
    exists s'. cbn [seq forM_]. rewrite (bind_Ok _ _ _ _ _ Hr1).
    split; [exact Hr'|]. split; [by rewrite Hs', Hs1, store_write_write|].
    split; [congruence|by eapply engine_same_trans].
Qed.

Lemma find_last_alive_Some (k i : nat) (es : list RequestStateEntry) :
  find_last_alive k es = Some i ->
  (i < k)%nat /\
  (exists e, es !! i = Some e /\ status e = kAlive) /\
  (forall j e', (i < j < k)%nat -> es !! j = Some e' -> status e' <> kAlive).
Proof.
  induction k as [|k IH]; simpl; [done|].
  destruct (es !! k) as [e|] eqn:He; [|done].
  case_decide as Ha.
  - intros [= <-]. split; [lia|]. split; [by exists e|]. intros j e' Hj. lia.
  - intros Hi. destruct (IH Hi) as (Hlt & Hex & Hafter).
    split; [lia|]. split; [done|]. intros j e' Hj Hj'.
    destruct (decide (j = k)) as [->|Hne]; [congruence|]. apply (Hafter j); [lia|done].
Qed.

Lemma Preempt_run (workspace : bool) (s : Machine) (req : Request) (rs : RequestState)
    (k : nat) (e : RequestStateEntry) (m0 : RequestModelState) :
  preemptible s req rs k e m0 ->
  let new_seq_id := (GetNewId (id_manager s)).1 in
  exists s',
    PreemptLastRunningRequestStateEntry workspace s = Ok (id req, k) s' /\
    rstate_store s' =
      store_write (id req, k)
        (set_mstates (restarted workspace req (parent_idx e) new_seq_id <$> mstates e)
           (set_status kPending e))
        (rstate_store s) /\
    trace s' = trace s ++
      (if workspace
       then (fun m => EvFreeSlots (draft_token_slots m)) <$> mstates e else []) ++
      release_calls s (internal_id m0) ++ [EvGetNewId new_seq_id] /\
    (prefix_cache s', models s') =
      (if HasSequence (prefix_cache s) (internal_id m0)
       then RecycleSequence (internal_id m0) false (prefix_cache s, models s)
       else (prefix_cache s, RemoveSequence (internal_id m0) <$> models s)) /\
    id_manager s' = (GetNewId (id_manager s)).2 /\
    running_queue s' =
      (if bool_decide (k = 0%nat) then removelast (running_queue s) else running_queue s) /\
    waiting_queue s' =
      (if bool_decide (inputs m0 = []) && bool_decide (S k = length (entries rs))
       then req :: waiting_queue s else waiting_queue s) /\
    request_states s' = request_states s /\
    stats s' = stats s /\
    clock_reads s' = clock_reads s.
Proof.
  intros [Hlast Hknown Hrs Hsize Halive He Hm0 Hinp] new_seq_id.
  unfold PreemptLastRunningRequestStateEntry. cbn [bind gets].
  assert (running_queue s <> []) as Hne by (intros Hq; by rewrite Hq in Hlast).
  rewrite bool_decide_false by done. cbn [negb ICHECK bind ret]. rewrite Hlast.
  cbn [deref bind ret].
  rewrite (bind_Ok _ _ _ _ _ (GetRequestState_Ok _ _ Hknown (ex_intro _ rs Hrs))).
  rewrite (bind_Ok _ _ _ _ _ (load_rstate_Ok _ _ _ Hrs)).
  rewrite to_int_small by lia. rewrite Nat2Z.id, Halive. cbn [deref bind ret].
  assert (lookup_entry s (id req, k) = Some e) as Hle.
  { apply store_lookup_Some. eauto. }
  rewrite (bind_Ok _ _ _ _ _ (load_entry_Ok _ _ _ Hle)), Hm0. cbn [deref bind ret].
  unfold store_entry at 1. cbn [bind modify].
  set (h := (id req, k)). set (ep := set_status kPending e).
  set (sp := write_entry h ep s).
  (* the first loop over the model states *)
  destruct (PreemptModelStates_from workspace req h ep (length (mstates e)) 0 sp)
    as (s1 & Hr1 & Hs1 & Ht1 & Hf1); [done|done| |].
  { rewrite take_0, drop_0. simpl. change (set_mstates (mstates e) ep) with ep.
    by apply (lookup_entry_write_eq _ _ _ e). }
  rewrite (bind_Ok _ _ _ _ _ Hr1). cbn [bind gets].
  destruct Hf1 as (Hq1 & Hw1 & Hrq1 & Hid1 & Hpc1 & Hst1 & Hmd1 & Hck1).
  simpl in Hq1, Hw1, Hrq1, Hid1, Hpc1, Hst1, Hmd1, Hck1, Ht1, Hs1.
  rewrite Hpc1.
  (* the release of the sequence *)
  set (F := fun m => preempted workspace (rebuilt req (parent_idx ep) m) m) in *.
  set (e1 := set_mstates (F <$> mstates ep) ep) in *.
  assert (exists s2,
    (if HasSequence (prefix_cache s) (internal_id m0)
     then call_RecycleSequence (internal_id m0) false
     else RemoveRequestFromModel (internal_id m0)) s1 = Ok tt s2 /\
    rstate_store s2 = rstate_store s1 /\
    trace s2 = trace s1 ++ release_calls s (internal_id m0) /\
    (prefix_cache s2, models s2) =
      (if HasSequence (prefix_cache s) (internal_id m0)
       then RecycleSequence (internal_id m0) false (prefix_cache s, models s)
       else (prefix_cache s, RemoveSequence (internal_id m0) <$> models s)) /\
    id_manager s2 = id_manager s /\ running_queue s2 = running_queue s /\
    waiting_queue s2 = waiting_queue s /\ request_states s2 = request_states s /\
    stats s2 = stats s /\ clock_reads s2 = clock_reads s)
    as (s2 & Hr2 & Hs2 & Ht2 & Hc2 & Hid2 & Hq2 & Hw2 & Hrq2 & Hst2 & Hck2).
  { unfold release_calls. destruct (HasSequence (prefix_cache s) (internal_id m0)).
    - eexists. split; [reflexivity|]. simpl. rewrite Hpc1, Hmd1.
      repeat split; try done.
    - eexists. split; [reflexivity|]. simpl. rewrite Hpc1, Hmd1. by repeat split. }
  rewrite (bind_Ok _ _ _ _ _ Hr2).
  (* the new id *)
  unfold call_GetNewId. cbn [bind gets modify ret]. rewrite Hid2. fold new_seq_id.
  set (s3 := emit _ _).
  (* the second loop over the model states *)
  assert (lookup_entry s3 h = Some e1) as He3.
  { unfold lookup_entry. simpl. rewrite Hs2, Hs1.
    rewrite store_lookup_write, decide_True by done.
    subst sp. unfold write_entry; simpl.
    rewrite store_lookup_write, decide_True by done.
    unfold lookup_entry in Hle. fold h in Hle. by rewrite Hle. }
  destruct (update_mstates_from h e1 (set_internal_id new_seq_id) (length (mstates e)) 0 s3)
    as (s4 & Hr4 & Hs4 & Ht4 & Hf4).
  { subst e1; simpl. by rewrite length_fmap. }
  { rewrite take_0, drop_0. simpl. exact He3. }
  rewrite (bind_Ok _ _ _ _ _ Hr4).
  destruct Hf4 as (Hq4 & Hw4 & Hrq4 & Hid4 & Hpc4 & Hst4 & Hmd4 & Hck4).
  simpl in Hq4, Hw4, Hrq4, Hid4, Hpc4, Hst4, Hmd4, Hck4, Ht4, Hs4.
  (* the queues *)
  set (b1 := bool_decide (k = 0%nat)).
  set (b2 := negb (negb (bool_decide (inputs m0 = []))) &&
             (Z.of_nat k =? Z.of_nat (length (entries rs)) - 1)).
  assert (b2 = bool_decide (inputs m0 = []) && bool_decide (S k = length (entries rs)))
    as Hb2.
  { subst b2. rewrite negb_involutive. f_equal.
    destruct (Z.eqb_spec (Z.of_nat k) (Z.of_nat (length (entries rs)) - 1));
      [rewrite bool_decide_true by lia|rewrite bool_decide_false by lia]; done. }
  set (s5 := if b1 then set_running_queue (removelast (running_queue s4)) s4 else s4).
  exists (if b2 then set_waiting_queue (req :: waiting_queue s5) s5 else s5).
  split.
  { subst s5. destruct b1, b2; reflexivity. }
  rewrite <- Hb2. subst s5.
  split.
  { transitivity (rstate_store s4); [by destruct b1, b2|].
    rewrite Hs4. simpl. rewrite Hs2, Hs1. subst sp. unfold write_entry; simpl.
    rewrite !store_write_write. f_equal.
    subst e1 F ep. unfold set_mstates, restarted; simpl. f_equal.
    by rewrite <- list_fmap_compose. }
  split.
  { transitivity (trace s4); [by destruct b1, b2|].
    rewrite Ht4. simpl. rewrite Ht2, Ht1. simpl.
    rewrite drop_0, <- !app_assoc. done. }
  split.
  { transitivity (prefix_cache s4, models s4); [by destruct b1, b2|].
    rewrite Hpc4, Hmd4. simpl. done. }
  split.
  { transitivity (id_manager s4); [by destruct b1, b2|]. by rewrite Hid4. }
  split.
  { destruct b1, b2; simpl; rewrite ?Hq4; simpl; by rewrite ?Hq2. }
  split.
  { destruct b1, b2; simpl; rewrite ?Hw4; simpl; by rewrite ?Hw2. }
  split.
  { transitivity (request_states s4); [by destruct b1, b2|]. rewrite Hrq4. simpl. done. }
  split.
  { transitivity (stats s4); [by destruct b1, b2|]. rewrite Hst4. simpl. done. }
  transitivity (clock_reads s4); [by destruct b1, b2|]. rewrite Hck4. simpl. done.
Qed.

Lemma lookup_entry_store_write (s s' : Machine) (h : EntryRef) (e e0 : RequestStateEntry) :
  rstate_store s' = store_write h e (rstate_store s) ->
  lookup_entry s h = Some e0 ->
  lookup_entry s' h = Some e.
Proof.
  intros Hs He. unfold lookup_entry in *.
  by rewrite Hs, store_lookup_write, decide_True, He.
Qed.

Lemma GetNewId_fresh (idm : IdManager) (i : Z) :
  id_in_use idm i -> (GetNewId idm).1 <> i.
Proof.
  intros (Hlt & Hnin & _). unfold GetNewId.
  destruct (available_ids idm) as [|j rest] eqn:Hav; simpl; [lia|].
  intros ->. apply Hnin. left.
Qed.

Lemma RecycleSequence_eager_gone (i : Z) (pc : PrefixCache) (ms : list Model) :
  let r := RecycleSequence i false (pc, ms) in
  HasSequence r.1 i = false /\ forall model, model ∈ r.2 -> i ∉ kv_sequences model.
Proof.
  simpl. split.
  - unfold HasSequence; simpl. rewrite lookup_delete_eq.
    apply bool_decide_eq_false. by intros [x Hx].
  - intros model Hin. apply list_elem_of_fmap in Hin as (m & -> & _). simpl.
    rewrite elem_of_difference, elem_of_singleton. tauto.
Qed.

Lemma to_int_fmap_id (l : list Z) : Forall is_int32 l -> to_int <$> l = l.
Proof.
  induction 1 as [|x l Hx _ IH]; [done|].
  by rewrite fmap_cons, IH, (to_int_small x Hx).
Qed.

Lemma rebuilt_root_token (req : Request) (m : RequestModelState) (front : list Data)
    (ids : list Z) :
  req_inputs req = front ++ [TokenData ids] ->
  rebuilt req (-1) m = front ++ [TokenData ((to_int <$> ids) ++ committed_token_ids m)].
Proof.
  intros Hin. unfold rebuilt, rebuild_inputs. simpl. rewrite Hin, last_snoc. simpl.
  rewrite length_app. simpl.
  replace (Z.to_nat (Z.of_nat (length front + 1) - 1)) with (length front + 0)%nat by lia.
  by rewrite insert_app_r.
Qed.

Lemma rebuilt_root_other (req : Request) (m : RequestModelState) (front : list Data)
    (len : Z) :
  req_inputs req = front ++ [ImageData len] ->
  rebuilt req (-1) m =
    if decide (committed_token_ids m = []) then req_inputs req
    else req_inputs req ++ [TokenData (committed_token_ids m)].
Proof.
  intros Hin. unfold rebuilt, rebuild_inputs. simpl. rewrite Hin, last_snoc. simpl.
  case_bool_decide; by case_decide.
Qed.

Lemma rebuilt_child (req : Request) (p : Z) (m : RequestModelState) :
  p <> -1 ->
  rebuilt req p m =
    if decide (committed_token_ids m = []) then []
    else [TokenData (committed_token_ids m)].
Proof.
  intros Hp. unfold rebuilt, rebuild_inputs.
  destruct (Z.eqb_spec p (-1)); [done|]. simpl.
  case_bool_decide; by case_decide.
Qed.

(** C4. Preemption returns the last alive entry of the last running
    request with its status [kPending]; every model state of it has no
    prefilled tokens, no prefilled inputs and a watermark of zero, keeps its
    committed tokens and has them in its rebuilt inputs (merged into the
    final token block of the request's inputs for a root entry, appended as
    a block of their own otherwise, and on their own for a child entry);
    the old sequence is held by neither the prefix cache nor any model; and
    every model state carries the one new id, which differs from the id it
    had. *)
Theorem preemption_resets_entry (workspace : bool) (s : Machine) (req : Request)
    (rs : RequestState) (k : nat) (e : RequestStateEntry) (m0 : RequestModelState) :
  preemptible s req rs k e m0 ->
  Forall (fun m => id_in_use (id_manager s) (internal_id m)) (mstates e) ->
  exists s' e',
    PreemptLastRunningRequestStateEntry workspace s = Ok (id req, k) s' /\
    lookup_entry s' (id req, k) = Some e' /\
    (status e = kAlive /\
     forall j ej, (k < j)%nat -> entries rs !! j = Some ej -> status ej <> kAlive) /\
    status e' = kPending /\
    length (mstates e') = length (mstates e) /\
    (forall j m, mstates e !! j = Some m ->
       exists m', mstates e' !! j = Some m' /\
         num_prefilled_tokens m' = 0 /\
         prefilled_inputs m' = [] /\
         cached_committed_tokens m' = 0 /\
         committed_tokens m' = committed_tokens m /\
         (parent_idx e = -1 -> forall front ids,
            req_inputs req = front ++ [TokenData ids] -> Forall is_int32 ids ->
            inputs m' = front ++ [TokenData (ids ++ committed_token_ids m)]) /\
         (parent_idx e = -1 -> forall front len,
            req_inputs req = front ++ [ImageData len] ->
            inputs m' = if decide (committed_token_ids m = []) then req_inputs req
                        else req_inputs req ++ [TokenData (committed_token_ids m)]) /\
         (parent_idx e <> -1 ->
            inputs m' = if decide (committed_token_ids m = []) then []
                        else [TokenData (committed_token_ids m)]) /\
         internal_id m' = (GetNewId (id_manager s)).1 /\
         internal_id m' <> internal_id m) /\
    HasSequence (prefix_cache s') (internal_id m0) = false /\
    (forall model, model ∈ models s' -> internal_id m0 ∉ kv_sequences model) /\
    (HasSequence (prefix_cache s) (internal_id m0) = true ->
     EvRecycleSequence (internal_id m0) false ∈ drop (length (trace s)) (trace s')) /\
    (HasSequence (prefix_cache s) (internal_id m0) = false ->
     forall j, (j < length (models s))%nat ->
       EvRemoveSequence j (internal_id m0) ∈ drop (length (trace s)) (trace s')).
Proof.
  intros Hpre Hids.
  destruct (Preempt_run workspace s req rs k e m0 Hpre)
    as (s' & Hrun & Hs' & Htr & Hcaches & Hidm & _).
  destruct Hpre as [Hlast Hknown Hrs Hsize Halive He Hm0 Hinp].
  assert (lookup_entry s (id req, k) = Some e) as Hle by (apply store_lookup_Some; eauto).
  eexists s', _. split; [exact Hrun|].
  split; [by eapply lookup_entry_store_write|].
  split.
  { apply find_last_alive_Some in Halive as (Hlt & (e0 & He0 & Ha) & Hafter).
    assert (e0 = e) as -> by congruence. split; [done|].
    intros j ej Hj Hej. apply (Hafter j); [|done].
    apply lookup_lt_Some in Hej. lia. }
  split; [done|]. split; [simpl; by rewrite length_fmap|].
  split.
  { intros j m Hm. eexists. split; [simpl; by rewrite list_lookup_fmap, Hm|].
    simpl. do 3 (split; [done|]). split; [by destruct workspace|].
    split.
    { intros Hp front ids Hin Hint. rewrite Hp, (rebuilt_root_token _ _ _ _ Hin).
      by rewrite to_int_fmap_id. }
    split.
    { intros Hp front len Hin. rewrite Hp. by eapply rebuilt_root_other. }
    split; [intros Hp; by apply rebuilt_child|]. split; [done|].
    apply GetNewId_fresh. by eapply (proj1 (Forall_lookup _ _) Hids). }
  assert (drop (length (trace s)) (trace s') =
          (if workspace
           then (fun m => EvFreeSlots (draft_token_slots m)) <$> mstates e else []) ++
          release_calls s (internal_id m0) ++ [EvGetNewId (GetNewId (id_manager s)).1])
    as Hnew by (by rewrite Htr, drop_app_length).
  rewrite Hnew. unfold release_calls.
  destruct (HasSequence (prefix_cache s) (internal_id m0)) eqn:Hheld.
  - destruct (RecycleSequence_eager_gone (internal_id m0) (prefix_cache s) (models s))
      as [Hgone Hkv].
    injection Hcaches as Hpc Hmd. rewrite Hpc, Hmd.
    split; [done|]. split; [done|]. split; [|done].
    intros _. rewrite !elem_of_app. right. left. left.
  - injection Hcaches as Hpc Hmd. rewrite Hpc, Hmd.
    split; [done|]. split.
    { intros model Hin. apply list_elem_of_fmap in Hin as (m & -> & _). simpl.
      rewrite elem_of_difference, elem_of_singleton. tauto. }
    split; [done|]. intros _ j Hj. rewrite !elem_of_app. right. left.
    apply list_elem_of_fmap. exists j. split; [done|]. apply elem_of_seq. lia.
Qed.

Lemma removelast_neq {A : Type} (l : list A) : l <> [] -> removelast l <> l.
Proof.
  intros Hne Heq. apply (f_equal length) in Heq.
  destruct l as [|x l] using rev_ind; [done|].
  rewrite removelast_last, length_app in Heq. simpl in Heq. lia.
Qed.

Lemma cons_neq {A : Type} (x : A) (l : list A) : x :: l <> l.
Proof. intros Heq. apply (f_equal length) in Heq. simpl in Heq. lia. Qed.

(** C5. The queues after preemption, with [k] the index of the preempted
    entry and [partially_alive] the non-emptiness of its first model
    state's inputs before the rebuild: the request leaves the tail of
    [running_queue] exactly when [k = 0], it enters the front of
    [waiting_queue] exactly when [partially_alive] is false and [k] is the
    last index, and otherwise the queues stay as they are. *)
Theorem preemption_queue_updates (workspace : bool) (s : Machine) (req : Request)
    (rs : RequestState) (k : nat) (e : RequestStateEntry) (m0 : RequestModelState) :
  preemptible s req rs k e m0 ->
  let partially_alive := inputs m0 <> [] in
  let last_index := (S k = length (entries rs)) in
  exists s',
    PreemptLastRunningRequestStateEntry workspace s = Ok (id req, k) s' /\
    (k = 0%nat -> running_queue s' = removelast (running_queue s)) /\
    (k <> 0%nat -> running_queue s' = running_queue s) /\
    (running_queue s' = removelast (running_queue s) <-> k = 0%nat) /\
    (~ partially_alive /\ last_index -> waiting_queue s' = req :: waiting_queue s) /\
    (~ (~ partially_alive /\ last_index) -> waiting_queue s' = waiting_queue s) /\
    (waiting_queue s' = req :: waiting_queue s <-> ~ partially_alive /\ last_index).
Proof.
  intros Hpre pa li.
  destruct (Preempt_run workspace s req rs k e m0 Hpre)
    as (s' & Hrun & _ & _ & _ & _ & Hrq & Hwq & _).
  destruct Hpre as [Hlast _ _ _ _ _ _ _].
  assert (running_queue s <> []) as Hne by (intros Hq; by rewrite Hq in Hlast).
  exists s'. split; [done|]. rewrite Hrq, Hwq. subst pa li.
  split; [intros ->; by rewrite bool_decide_true|].
  split; [intros Hk; by rewrite bool_decide_false|].
  split.
  { destruct (decide (k = 0%nat)) as [Hk|Hk];
      [by rewrite bool_decide_true|rewrite bool_decide_false by done].
    split; [|done]. intros Heq. symmetry in Heq. by apply removelast_neq in Heq. }
  assert (bool_decide (inputs m0 = []) && bool_decide (S k = length (entries rs)) = true
          <-> ~ inputs m0 <> [] /\ S k = length (entries rs)) as Hb.
  { rewrite andb_true_iff, !bool_decide_eq_true.
    split; intros [H1 H2]; (split; [|done]); [by intros ?|].
    by destruct (decide (inputs m0 = [])). }
  destruct (bool_decide (inputs m0 = []) && bool_decide (S k = length (entries rs))).
  - split; [done|]. split; [intros Hn; destruct Hn; by apply Hb|].
    split; [intros _; by apply Hb|done].
  - split; [intros Hn; apply Hb in Hn; done|]. split; [done|].
    split; [intros Heq; symmetry in Heq; by apply cons_neq in Heq|].
    intros Hn. by apply Hb in Hn.
Qed.

(** C10. Preemption makes no [RecycleId] call on either release branch,
    so nothing enters the free pool of the ID manager; it makes exactly one
    [GetNewId] call, the last call of the preemption, which is all that
    happens to the ID manager; and the id it returns is stamped on every
    model state of the entry. *)
Theorem preemption_keeps_old_id (workspace : bool) (s : Machine) (req : Request)
    (rs : RequestState) (k : nat) (e : RequestStateEntry) (m0 : RequestModelState) :
  preemptible s req rs k e m0 ->
  exists s' e' calls,
    PreemptLastRunningRequestStateEntry workspace s = Ok (id req, k) s' /\
    lookup_entry s' (id req, k) = Some e' /\
    trace s' = trace s ++ calls ++ [EvGetNewId (GetNewId (id_manager s)).1] /\
    Forall (fun ev => ~ is_RecycleId ev /\ ~ is_GetNewId ev) calls /\
    id_manager s' = (GetNewId (id_manager s)).2 /\
    (forall i, i ∈ available_ids (id_manager s') -> i ∈ available_ids (id_manager s)) /\
    length (mstates e') = length (mstates e) /\
    Forall (fun m' => internal_id m' = (GetNewId (id_manager s)).1) (mstates e').
Proof.
  intros Hpre.
  destruct (Preempt_run workspace s req rs k e m0 Hpre)
    as (s' & Hrun & Hs' & Htr & _ & Hidm & _).
  destruct Hpre as [Hlast Hknown Hrs Hsize Halive He Hm0 Hinp].
  assert (lookup_entry s (id req, k) = Some e) as Hle by (apply store_lookup_Some; eauto).
  eexists s', _,
    ((if workspace then (fun m => EvFreeSlots (draft_token_slots m)) <$> mstates e else [])
     ++ release_calls s (internal_id m0)).
  split; [exact Hrun|].
  split; [by eapply lookup_entry_store_write|].
  split; [by rewrite Htr, <- app_assoc|].
  split.
  { apply Forall_app. split.
    - destruct workspace; [|constructor]. apply Forall_fmap, Forall_forall.
      intros m _. split; intros H; exact H.
    - unfold release_calls. destruct (HasSequence _ _).
      + constructor; [|constructor]. split; intros H; exact H.
      + apply Forall_fmap, Forall_forall. intros j _. split; intros H; exact H. }
  split; [done|]. split.
  { intros i. rewrite Hidm. unfold GetNewId.
    destruct (available_ids (id_manager s)); simpl; [done|]. by right. }
  split; [simpl; by rewrite length_fmap|].
  simpl. apply Forall_fmap, Forall_forall. by intros m _.
Qed.

(** ** The prefill statistics and the draining of [prefilled_inputs] *)

Lemma set_stats_id (s : Machine) : set_stats (stats s) s = s.
Proof. by destruct s. Qed.

Lemma set_stats_set_stats (st st' : EngineStatistics) (s : Machine) :
  set_stats st' (set_stats st s) = set_stats st' s.
Proof. done. Qed.

Lemma count_blocks_Ok (blocks : list Data) (s : Machine) :
  forM_ blocks (fun data =>
    modify (fun s => set_stats (add_prefill_length (GetLength data) (stats s)) s)) s
  = Ok tt (set_stats (add_prefill_length (sum_lengths blocks) (stats s)) s).
Proof.
  revert s. induction blocks as [|d blocks IH]; intros s; simpl.
  - f_equal. destruct s as [rq wq rqs idm pc [a b c d] st ms tr ck].
    unfold set_stats, add_prefill_length; simpl. by rewrite Z.add_0_r.
  - unfold bind at 1. simpl. rewrite IH. f_equal.
    unfold set_stats, add_prefill_length; simpl. do 2 f_equal. lia.
Qed.

Lemma CountPrefilledEntry_Ok (s : Machine) (h : EntryRef) (e : RequestStateEntry) :
  lookup_entry s h = Some e ->
  is_Some (mstates e !! 0%nat) ->
  CountPrefilledEntry h s
  = Ok tt (set_stats (add_prefill_length (prefilled_length e) (stats s)) s).
Proof.
  intros He [m0 Hm0]. unfold CountPrefilledEntry, prefilled_length.
  rewrite (bind_Ok _ _ _ _ _ (load_entry_Ok _ _ _ He)), Hm0. cbn [deref bind ret].
  case_bool_decide as Hp; simpl.
  - rewrite Hp. simpl. f_equal.
    destruct s as [rq wq rqs idm pc [a b c d] st ms tr ck].
    unfold set_stats, add_prefill_length; simpl. by rewrite Z.add_0_r.
  - apply count_blocks_Ok.
Qed.

(** A drained entry adds nothing to the statistics. *)
Lemma CountPrefilledEntry_drained (s : Machine) (h : EntryRef) (e : RequestStateEntry)
    (m0 : RequestModelState) :
  lookup_entry s h = Some e ->
  mstates e !! 0%nat = Some m0 ->
  prefilled_inputs m0 = [] ->
  CountPrefilledEntry h s = Ok tt s.
Proof.
  intros He Hm0 Hp. unfold CountPrefilledEntry.
  rewrite (bind_Ok _ _ _ _ _ (load_entry_Ok _ _ _ He)), Hm0. cbn [deref bind ret].
  by rewrite bool_decide_true.
Qed.

(** X20. [UpdatePrefixCache] drains [prefilled_inputs] of every entry of
    the step whose sequence the prefix cache holds, so the statistics pass
    of a later call counts nothing for it; an entry whose sequence the
    prefix cache does not hold is left as it is, its prefilled blocks
    included.  The statistics are not touched by [UpdatePrefixCache]. *)
Theorem prefilled_drained_when_held (requests : list Request) (s : Machine) :
  requests_known s requests ->
  store_ready (prefix_cache s) (rstate_store s) ->
  exists s',
    UpdatePrefixCache requests s = Ok tt s' /\
    stats s' = stats s /\
    forall req i e m0,
      req ∈ requests ->
      lookup_entry s (id req, i) = Some e ->
      mstates e !! 0%nat = Some m0 ->
      (HasSequence (prefix_cache s) (internal_id m0) = true ->
       exists e' m0',
         lookup_entry s' (id req, i) = Some e' /\
         mstates e' !! 0%nat = Some m0' /\
         prefilled_inputs m0' = [] /\
         CountPrefilledEntry (id req, i) s' = Ok tt s') /\
      (HasSequence (prefix_cache s) (internal_id m0) = false ->
       lookup_entry s' (id req, i) = Some e).
Proof.
  intros Hknown Hready.
  destruct (UpdatePrefixCache_settles (prefix_cache s) requests s)
    as (s' & Hrun & Hs' & _ & Hst & _); [done..|].
  exists s'. split; [done|]. split; [done|].
  intros req i e m0 Hreq He Hm0.
  assert (lookup_entry s' (id req, i) = Some (settle (prefix_cache s) e)) as He'.
  { unfold lookup_entry in *. rewrite Hs', settle_all_lookup, He.
    rewrite decide_True; [done|].
    apply list_elem_of_bind. exists req. split; [|done]. by eapply entry_refs_elem. }
  unfold settle in He'. rewrite Hm0 in He'. split; intros Hheld; rewrite Hheld in He'.
  - eexists _, (reconciled m0). split; [exact He'|].
    assert (mstates (set_mstates (<[0%nat:=reconciled m0]> (mstates e)) e) !! 0%nat
            = Some (reconciled m0)) as Hm0'.
    { simpl. apply list_lookup_insert_eq. by eapply lookup_lt_Some. }
    split; [exact Hm0'|]. split; [done|].
    by eapply CountPrefilledEntry_drained.
  - exact He'.
Qed.

(** C7. An image block among the prefilled inputs of a sequence the prefix
    cache holds: [UpdatePrefixCache] dereferences the null pointer that
    [as<TokenDataNode>()] yields and stops there, with nothing announced
    and the block still in [prefilled_inputs]. *)
Theorem UpdatePrefixCache_image_block_faults :
  UpdatePrefixCache [request_img] world_img = Fault world_img.
Proof. vm_compute. reflexivity. Qed.

(** The same for any entry the prefix cache holds and any block that is
    not token data. *)
Lemma UpdatePrefixCacheEntry_other_modality_faults (s : Machine) (h : EntryRef)
    (e : RequestStateEntry) (m0 : RequestModelState) :
  lookup_entry s h = Some e ->
  mstates e !! 0%nat = Some m0 ->
  HasSequence (prefix_cache s) (internal_id m0) = true ->
  ~ Forall is_token_data (prefilled_inputs m0) ->
  exists s', UpdatePrefixCacheEntry h s = Fault s'.
Proof.
  intros He Hm0 Hheld Hn. unfold UpdatePrefixCacheEntry.
  rewrite (bind_Ok _ _ _ _ _ (load_entry_Ok _ _ _ He)), Hm0.
  unfold deref at 1. cbn [bind ret gets]. rewrite Hheld.
  rewrite bool_decide_false by (intros Hp; apply Hn; rewrite Hp; constructor).
  cbn [negb].
  destruct (announce_prefilled_Fault (internal_id m0) (prefilled_inputs m0) s Hn) as [s' Hs'].
  exists s'. apply bind_Fault. by apply bind_Fault.
Qed.

(** C8. A prefilled block is counted twice.  The sequence of [request_a]
    is in the model's KV-cache and not in the prefix cache; its one
    prefilled block, of three tokens, is counted by the statistics pass of
    a first [ActionStepPostProcess], which announces nothing and leaves the
    block in [prefilled_inputs]; a second call, with nothing prefilled in
    between, counts the same block again, and leaves it there once
    more. *)
Theorem prefill_counted_again :
  HasSequence (prefix_cache world_cold) 0 = false /\
  exists s1 s2,
    ActionStepPostProcess clock_1000 nothing_new 1 [request_a] 100 world_cold = Ok tt s1 /\
    total_prefill_length (stats s1) = 3 /\
    trace s1 = [EvGetReturnTokenIds ("a", 0%nat)
                  {| delta_token_ids := []; delta_logprob_json_strs := [];
                     finish_reason := None |};
                EvStreamCallback []] /\
    (e ← lookup_entry s1 ("a", 0%nat); m0 ← mstates e !! 0%nat; Some (prefilled_inputs m0))
      = Some [TokenData [1; 2; 3]] /\
    ActionStepPostProcess clock_1000 nothing_new 1 [request_a] 100 s1 = Ok tt s2 /\
    total_prefill_length (stats s2) = 6 /\
    (e ← lookup_entry s2 ("a", 0%nat); m0 ← mstates e !! 0%nat; Some (prefilled_inputs m0))
      = Some [TokenData [1; 2; 3]].
Proof.
  split; [reflexivity|].
  eexists _, _. split; [vm_compute; reflexivity|].
  split; [reflexivity|]. split; [reflexivity|]. split; [vm_compute; reflexivity|].
  split; [vm_compute; reflexivity|]. split; [reflexivity|]. vm_compute. reflexivity.
Qed.

(** ** The theorems at the scenarios *)

Lemma store_lookup_singleton (r : string) (rs : RequestState) (h : EntryRef)
    (e : RequestStateEntry) :
  store_lookup {[ r := rs ]} h = Some e -> h.1 = r /\ entries rs !! h.2 = Some e.
Proof.
  intros H0. apply store_lookup_Some in H0 as (rs' & Hrs & He).
  apply lookup_singleton_Some in Hrs as [<- <-]. done.
Qed.

Lemma store_ready_singleton (pc : PrefixCache) (r : string) (rs : RequestState) :
  Forall (entry_ready pc) (entries rs) -> store_ready pc {[ r := rs ]}.
Proof.
  intros Hall h e H0. apply store_lookup_singleton in H0 as [_ He].
  by apply (proj1 (Forall_lookup _ _) Hall h.2).
Qed.

Lemma world_a_ready : store_ready (prefix_cache world_a) (rstate_store world_a).
Proof.
  apply store_ready_singleton. repeat constructor.
  exists mstate_a. split; [reflexivity|]. intros _.
  split; [repeat constructor; by eexists|]. split; [done|]. vm_compute. discriminate.
Defined.

Lemma world_a_known : requests_known world_a [request_a].
Proof.
  constructor; [|constructor]. split.
  - change ("a" ∈ ({[ "a" ]} : gset string)). by apply elem_of_singleton_2.
  - by eexists.
Defined.

Lemma UpdatePrefixCache_watermark_witness :
  requests_known world_a [request_a] /\
  store_ready (prefix_cache world_a) (rstate_store world_a) /\
  NoDup ([request_a] ≫= entry_refs (rstate_store world_a)) /\
  exists s' e' m0',
    UpdatePrefixCache [request_a] world_a = Ok tt s' /\
    trace s' = [EvExtendSequence 0 [1; 2; 3]; EvExtendSequence 0 [7; 8]] /\
    lookup_entry s' ("a", 0%nat) = Some e' /\
    mstates e' !! 0%nat = Some m0' /\
    cached_committed_tokens m0' = 2.
Proof.
  assert (NoDup ([request_a] ≫= entry_refs (rstate_store world_a))) as Hnd.
  { vm_compute. repeat constructor. apply not_elem_of_nil. }
  split; [exact world_a_known|]. split; [exact world_a_ready|]. split; [exact Hnd|].
  destruct (UpdatePrefixCache_watermark [request_a] world_a world_a_known world_a_ready Hnd)
    as (s' & Hrun & Htr & Hent).
  destruct (Hent request_a 0%nat entry_a mstate_a) as (e' & m0' & He' & Hm0' & _ & _ & Hlt & _).
  { by apply list_elem_of_singleton. }
  { reflexivity. }
  { reflexivity. }
  { reflexivity. }
  exists s', e', m0'. split; [exact Hrun|]. split; [rewrite Htr; reflexivity|].
  split; [exact He'|]. split; [exact Hm0'|].
  destruct Hlt as [Hc _]; [reflexivity|]. exact Hc.
Defined.

Lemma RemoveRequestStateEntry_policy_witness :
  lookup_entry world_a ("a", 0%nat) = Some entry_a /\
  mstates entry_a !! 0%nat = Some mstate_a /\
  HasSequence (prefix_cache world_a) (internal_id mstate_a) = true /\
  is_pinned (request entry_a) = false /\
  exists s', RemoveRequestStateEntry ("a", 0%nat) world_a = Ok tt s' /\
    trace s' = [EvRecycleSequence 0 true] /\
    models s' = models world_a.
Proof.
  do 4 (split; [reflexivity|]).
  destruct (RemoveRequestStateEntry_policy world_a ("a", 0%nat) entry_a mstate_a
              eq_refl eq_refl) as (_ & Hlazy & _).
  destruct (Hlazy eq_refl eq_refl) as (s' & Hrun & Htr & Hmd & _).
  exists s'. split; [exact Hrun|]. split; [exact Htr|exact Hmd].
Defined.

Lemma world_b_post_order : post_order world_b.
Proof.
  unfold post_order. apply map_Forall_singleton.
  unfold rstate_post_order, entries_b. simpl.
  do 3 (constructor; [intros H; first [discriminate H|constructor]|]). constructor.
Defined.

Lemma finish_propagates_post_order_witness :
  post_order world_b /\
  post_order (final (ProcessFinishedRequestStateEntries clock_1000 3 [("b", 2%nat)] world_b)) /\
  (status <$> lookup_entry
     (final (ProcessFinishedRequestStateEntries clock_1000 3 [("b", 2%nat)] world_b))
     ("b", 0%nat)) = Some kFinished /\
  rtc finish_step world_b
    (final (ProcessFinishedRequestStateEntries clock_1000 3 [("b", 2%nat)] world_b)) /\
  trace (final (ProcessFinishedRequestStateEntries clock_1000 3 [("b", 2%nat)] world_b))
    = [EvRemoveSequence 0 3; EvRecycleId 3; EvRemoveSequence 0 1; EvRecycleId 1] /\
  exists e s2 s',
    FinishEntryAndClimb 3 ("b", 2%nat) world_b = Ok (request_b, "b", -1) s' /\
    lookup_entry world_b ("b", 2%nat) = Some e /\
    finished_and_released ("b", 2%nat) e world_b s2 /\
    finish_trail "b" (parent_idx e) s2 (-1) s'.
Proof.
  split; [exact world_b_post_order|].
  destruct (finish_propagates_post_order clock_1000 3 world_b world_b_post_order)
    as (Hlist & _ & _ & _ & Hsteps & _ & _ & Htrail).
  split; [exact (proj1 (Hlist [("b", 2%nat)]))|].
  split; [vm_compute; reflexivity|].
  split; [exact (Hsteps [("b", 2%nat)])|].
  split; [vm_compute; reflexivity|].
  set (s' := final (FinishEntryAndClimb 3 ("b", 2%nat) world_b)).
  assert (FinishEntryAndClimb 3 ("b", 2%nat) world_b = Ok (request_b, "b", -1) s')
    as Hrun by (vm_compute; reflexivity).
  destruct (Htrail _ _ _ _ _ Hrun) as (e & s2 & He & _ & _ & _ & Hrel & Hup).
  exists e, s2, s'. split; [exact Hrun|]. split; [exact He|]. split; [exact Hrel|exact Hup].
Defined.

Lemma whole_request_retired_witness :
  exists s1 s',
    FinishEntryAndClimb 3 ("b", 2%nat) world_b = Ok (request_b, "b", -1) s1 /\
    running_queue world_b = [] ++ request_b :: [] /\
    rstate_store s1 !! "b" = Some {| entries := set_status kFinished <$> entries_b |} /\
    ProcessFinishedEntry clock_1000 3 ("b", 2%nat) world_b = Ok tt s' /\
    running_queue s' = [] /\
    request_states s' = ∅ /\
    total_decode_length (stats s') = 3 /\
    request_total_prefill_time (stats s') = 0x1.01b2b29a4692bp-25%float /\
    request_total_decode_time (stats s') = 0x1.d313e3b79fe9fp-21%float.
Proof.
  set (s1 := final (FinishEntryAndClimb 3 ("b", 2%nat) world_b)).
  assert (FinishEntryAndClimb 3 ("b", 2%nat) world_b = Ok (request_b, "b", -1) s1)
    as Hrun by (vm_compute; reflexivity).
  assert (rstate_store s1 !! "b"
          = Some {| entries := set_status kFinished <$> entries_b |}) as Hrs
    by (vm_compute; reflexivity).
  destruct (whole_request_retired clock_1000 3 ("b", 2%nat) world_b) as (_ & Hret).
  destruct (Hret _ _ _ _ Hrun) as (_ & Hroot).
  destruct (Hroot eq_refl [] [] _ _ eq_refl (not_elem_of_nil _) Hrs eq_refl)
    as (s' & Hproc & Hrq & _ & Hst & _ & Hlen & Hpt & Hdt).
  { repeat constructor; by eexists. }
  exists s1, s'. split; [exact Hrun|]. split; [reflexivity|]. split; [exact Hrs|].
  split; [exact Hproc|]. split; [exact Hrq|].
  split; [rewrite Hst; vm_compute; reflexivity|].
  split; [rewrite Hlen; reflexivity|].
  split; [rewrite Hpt|rewrite Hdt]; vm_compute; reflexivity.
Defined.

Lemma world_a_preemptible :
  preemptible world_a request_a {| entries := [entry_a] |} 0 entry_a mstate_a.
Proof.
  split; try reflexivity. intros _. discriminate.
Defined.

Lemma world_b_preemptible :
  preemptible world_b request_b {| entries := entries_b |} 2
    {| status := kAlive; request := request_b; parent_idx := 0; child_indices := [];
       mstates := [fresh_mstate 3 [9; 10; 11] []]; next_callback_token_pos := 3;
       tadd := 100; tprefill_finish := 130 |}
    (fresh_mstate 3 [9; 10; 11] []).
Proof.
  split; try reflexivity. intros H. discriminate H.
Defined.

Lemma preemption_resets_entry_witness :
  preemptible world_a request_a {| entries := [entry_a] |} 0 entry_a mstate_a /\
  Forall (fun m => id_in_use (id_manager world_a) (internal_id m)) (mstates entry_a) /\
  exists s' e' m',
    PreemptLastRunningRequestStateEntry true world_a = Ok ("a", 0%nat) s' /\
    lookup_entry s' ("a", 0%nat) = Some e' /\
    status e' = kPending /\
    mstates e' !! 0%nat = Some m' /\
    inputs m' = [TokenData [1; 2; 3; 7; 8; 9]] /\
    internal_id m' = 1 /\
    HasSequence (prefix_cache s') 0 = false.
Proof.
  assert (Forall (fun m => id_in_use (id_manager world_a) (internal_id m)) (mstates entry_a))
    as Hids.
  { repeat constructor. apply not_elem_of_nil. }
  split; [exact world_a_preemptible|]. split; [exact Hids|].
  destruct (preemption_resets_entry true world_a _ _ _ _ _ world_a_preemptible Hids)
    as (s' & e' & Hrun & He' & _ & Hst & _ & Hms & Hgone & _).
  destruct (Hms 0%nat mstate_a eq_refl)
    as (m' & Hm' & _ & _ & _ & _ & Hroot & _ & _ & Hid & _).
  exists s', e', m'. split; [exact Hrun|]. split; [exact He'|]. split; [exact Hst|].
  split; [exact Hm'|]. split.
  { apply (Hroot eq_refl [] [1; 2; 3] eq_refl). repeat constructor; discriminate. }
  split; [exact Hid|exact Hgone].
Defined.

Lemma preemption_queue_updates_witness :
  preemptible world_b request_b {| entries := entries_b |} 2
    {| status := kAlive; request := request_b; parent_idx := 0; child_indices := [];
       mstates := [fresh_mstate 3 [9; 10; 11] []]; next_callback_token_pos := 3;
       tadd := 100; tprefill_finish := 130 |}
    (fresh_mstate 3 [9; 10; 11] []) /\
  exists s',
    PreemptLastRunningRequestStateEntry false world_b = Ok ("b", 2%nat) s' /\
    running_queue s' = [request_b] /\
    waiting_queue s' = [request_b].
Proof.
  split; [exact world_b_preemptible|].
  destruct (preemption_queue_updates false world_b _ _ _ _ _ world_b_preemptible)
    as (s' & Hrun & _ & Hrq & _ & Hwq & _).
  exists s'. split; [exact Hrun|]. split.
  - apply Hrq. discriminate.
  - apply Hwq. split; [|reflexivity]. intros Hpa. by apply Hpa.
Defined.

Lemma preemption_keeps_old_id_witness :
  preemptible world_a request_a {| entries := [entry_a] |} 0 entry_a mstate_a /\
  exists s' calls,
    PreemptLastRunningRequestStateEntry false world_a = Ok ("a", 0%nat) s' /\
    trace s' = calls ++ [EvGetNewId 1] /\
    Forall (fun ev => ~ is_RecycleId ev /\ ~ is_GetNewId ev) calls /\
    available_ids (id_manager s') = [].
Proof.
  split; [exact world_a_preemptible|].
  destruct (preemption_keeps_old_id false world_a _ _ _ _ _ world_a_preemptible)
    as (s' & e' & calls & Hrun & _ & Htr & Hcalls & Hidm & _).
  exists s', calls. split; [exact Hrun|]. split; [exact Htr|].
  split; [exact Hcalls|]. by rewrite Hidm.
Defined.

Lemma prefilled_drained_when_held_witness :
  requests_known world_a [request_a] /\
  store_ready (prefix_cache world_a) (rstate_store world_a) /\
  exists s' e' m0',
    UpdatePrefixCache [request_a] world_a = Ok tt s' /\
    lookup_entry s' ("a", 0%nat) = Some e' /\
    mstates e' !! 0%nat = Some m0' /\
    prefilled_inputs m0' = [] /\
    CountPrefilledEntry ("a", 0%nat) s' = Ok tt s'.
Proof.
  split; [exact world_a_known|]. split; [exact world_a_ready|].
  destruct (prefilled_drained_when_held [request_a] world_a world_a_known world_a_ready)
    as (s' & Hrun & _ & Hent).
  destruct (Hent request_a 0%nat entry_a mstate_a) as (Hheld & _).
  { by apply list_elem_of_singleton. }
  { reflexivity. }
  { reflexivity. }
  destruct (Hheld eq_refl) as (e' & m0' & He' & Hm0' & Hp & Hc).
  by exists s', e', m0'.
Defined.

(** * The stream callback of a step *)

Lemma extends_by_refl (P : Event -> Prop) (s : Machine) : extends_by P s s.
Proof. exists []. by rewrite app_nil_r. Qed.

Lemma extends_by_app (P : Event -> Prop) (s0 s s' : Machine) (evs : list Event) :
  trace s' = trace s ++ evs -> Forall P evs -> extends_by P s0 s -> extends_by P s0 s'.
Proof.
  intros Ht Hevs (evs0 & Ht0 & H0). exists (evs0 ++ evs).
  split; [by rewrite Ht, Ht0, app_assoc|by apply Forall_app].
Qed.

Lemma extends_by_same (P : Event -> Prop) (s0 s s' : Machine) :
  trace s' = trace s -> extends_by P s0 s -> extends_by P s0 s'.
Proof. intros Ht. apply (extends_by_app P s0 s s' []); [by rewrite app_nil_r|done]. Qed.

Lemma extends_by_weaken (P Q : Event -> Prop) (s0 s : Machine) :
  (forall ev, P ev -> Q ev) -> extends_by P s0 s -> extends_by Q s0 s.
Proof.
  intros HPQ (evs & Ht & H0). exists evs. split; [done|].
  eapply Forall_impl; [exact H0|done].
Qed.

Lemma collect_frame_refl (s : Machine) : collect_frame s s.
Proof. by repeat split. Qed.

Lemma collect_frame_trans (s1 s2 s3 : Machine) :
  collect_frame s1 s2 -> collect_frame s2 s3 -> collect_frame s1 s3.
Proof.
  intros (A1 & A2 & A3 & A4) (B1 & B2 & B3 & B4).
  split; [congruence|]. split; [congruence|]. split.
  - intros h. by rewrite B3, A3.
  - intros r. by rewrite B4, A4.
Qed.

Lemma collect_frame_same_store (s s' : Machine) :
  request_states s' = request_states s -> running_queue s' = running_queue s ->
  rstate_store s' = rstate_store s -> collect_frame s s'.
Proof.
  intros H1 H2 H3. split; [done|]. split; [done|]. unfold lookup_entry. by rewrite H3.
Qed.

Lemma store_write_is_Some (st : gmap string RequestState) (h : EntryRef)
    (e : RequestStateEntry) (r : string) :
  is_Some (store_write h e st !! r) <-> is_Some (st !! r).
Proof.
  unfold store_write. rewrite lookup_alter.
  case_decide as Hh; [rewrite Hh; by rewrite fmap_is_Some|done].
Qed.

Lemma collect_frame_store_write (s s' : Machine) (h : EntryRef) (e : RequestStateEntry) :
  request_states s' = request_states s -> running_queue s' = running_queue s ->
  rstate_store s' = store_write h e (rstate_store s) -> collect_frame s s'.
Proof.
  intros H1 H2 H3. split; [done|]. split; [done|]. split.
  - intros h'. unfold lookup_entry. rewrite H3, store_lookup_write.
    case_decide; [by rewrite fmap_is_Some|done].
  - intros r. rewrite H3. apply store_write_is_Some.
Qed.

Lemma settle_all_lookup_is_Some (pc : PrefixCache) (hs : list EntryRef)
    (st : gmap string RequestState) (h : EntryRef) :
  is_Some (store_lookup (settle_all pc hs st) h) <-> is_Some (store_lookup st h).
Proof. rewrite settle_all_lookup. by rewrite fmap_is_Some. Qed.

Section Collect.

Variable GetReturnTokenIds : Z -> RequestStateEntry -> DeltaRequestReturn * RequestStateEntry.
Variable max_single_sequence_length : Z.

Lemma CollectEntry_run (req : Request) (i : nat) (s : Machine) (e : RequestStateEntry) :
  lookup_entry s (generation_ref req i) = Some e ->
  let h := generation_ref req i in
  let r := GetReturnTokenIds max_single_sequence_length e in
  CollectEntry GetReturnTokenIds max_single_sequence_length (id req)
    (n (generation_cfg req)) i s
  = Ok (h, r.1) (emit (EvGetReturnTokenIds h r.1) (write_entry h r.2 s)).
Proof.
  intros He h r. unfold CollectEntry. fold (generation_ref req i). fold h.
  by rewrite (bind_Ok _ _ _ _ _ (load_entry_Ok _ _ _ He)).
Qed.

Lemma CollectEntries_exact (req : Request) (l : list nat) (s : Machine) :
  Forall (fun i => is_Some (lookup_entry s (generation_ref req i))) l ->
  exists g s',
    mapM (CollectEntry GetReturnTokenIds max_single_sequence_length (id req)
            (n (generation_cfg req))) l s = Ok g s' /\
    fst <$> g = generation_ref req <$> l /\
    trace s' = trace s ++ report_events g /\
    collect_frame s s' /\
    (NoDup (generation_ref req <$> l) ->
     Forall (returned_in GetReturnTokenIds max_single_sequence_length s) g /\
     forall h, h ∉ generation_ref req <$> l -> lookup_entry s' h = lookup_entry s h).
Proof.
  revert s. induction l as [|i l IH]; intros s Hall.
  - exists [], s. simpl. rewrite app_nil_r.
    do 3 (split; [done|]). split; [apply collect_frame_refl|]. intros _. by split.
  - apply Forall_cons in Hall as [[e He] Hall].
    pose proof (CollectEntry_run req i s e He) as Hrun. simpl in Hrun.
    set (h := generation_ref req i) in *.
    set (r := GetReturnTokenIds max_single_sequence_length e) in *.
    set (s1 := emit _ _) in Hrun.
    assert (collect_frame s s1) as Hf1 by (by eapply collect_frame_store_write).
    assert (forall h', h' <> h -> lookup_entry s1 h' = lookup_entry s h') as Hne1.
    { intros h' Hne.
      change (lookup_entry s1 h') with (lookup_entry (write_entry h r.2 s) h').
      by apply lookup_entry_write_ne. }
    destruct (IH s1) as (g & s' & Hrun' & Hfst & Htr & Hf' & Hex).
    { eapply Forall_impl; [exact Hall|]. intros j Hj. by apply Hf1. }
    exists ((h, r.1) :: g), s'. cbn [mapM].
    rewrite (bind_Ok _ _ _ _ _ Hrun), (bind_Ok _ _ _ _ _ Hrun').
    split; [done|]. split; [by rewrite !fmap_cons, Hfst|].
    split.
    { rewrite Htr. unfold report_events. rewrite fmap_cons. simpl.
      by rewrite <- app_assoc. }
    split; [by eapply collect_frame_trans|].
    rewrite fmap_cons. fold h. intros Hnd. apply NoDup_cons in Hnd as [Hnotin Hnd].
    destruct (Hex Hnd) as [Hret Hsame]. split.
    + constructor; [by exists e|].
      apply Forall_forall. intros r' Hr'.
      destruct (proj1 (Forall_forall _ _) Hret r' Hr') as (e' & He' & Hd).
      exists e'. split; [|done]. rewrite <- He'. symmetry. apply Hne1.
      intros Heq. apply Hnotin. rewrite <- Heq, <- Hfst.
      apply list_elem_of_fmap. by exists r'.
    + intros h' Hh'. apply not_elem_of_cons in Hh' as [Hne Hh'].
      by rewrite (Hsame h' Hh'), Hne1.
Qed.

Lemma CollectEntries_run (req : Request) (l : list nat) (s : Machine) :
  Forall (fun i => is_Some (lookup_entry s (generation_ref req i))) l ->
  exists g s',
    mapM (CollectEntry GetReturnTokenIds max_single_sequence_length (id req)
            (n (generation_cfg req))) l s = Ok g s' /\
    fst <$> g = generation_ref req <$> l /\
    trace s' = trace s ++ report_events g /\
    collect_frame s s'.
Proof.
  intros Hall.
  destruct (CollectEntries_exact req l s Hall) as (g & s' & H1 & H2 & H3 & H4 & _).
  by exists g, s'.
Qed.

Lemma CollectRequest_exact (req : Request) (s : Machine) :
  id req ∈ request_states s -> is_Some (rstate_store s !! id req) ->
  Forall (fun h => is_Some (lookup_entry s h)) (generation_refs req) ->
  exists g s',
    CollectRequest GetReturnTokenIds max_single_sequence_length req s
      = Ok (request_result req g) s' /\
    fst <$> g = generation_refs req /\
    trace s' = trace s ++ report_events g /\
    collect_frame s s' /\
    (NoDup (generation_refs req) ->
     Forall (returned_in GetReturnTokenIds max_single_sequence_length s) g /\
     forall h, h ∉ generation_refs req -> lookup_entry s' h = lookup_entry s h).
Proof.
  intros Hin Hrs Hgen. unfold CollectRequest.
  rewrite (bind_Ok _ _ _ _ _ (GetRequestState_Ok _ _ Hin Hrs)).
  destruct (CollectEntries_exact req (seq 0 (Z.to_nat (n (generation_cfg req)))) s)
    as (g & s' & Hrun & Hfst & Htr & Hf & Hex).
  { apply Forall_forall. intros i Hi. apply (proj1 (Forall_forall _ _) Hgen).
    apply list_elem_of_fmap. by exists i. }
  exists g, s'. rewrite (bind_Ok _ _ _ _ _ Hrun).
  split; [reflexivity|]. split; [exact Hfst|]. split; [exact Htr|].
  split; [exact Hf|exact Hex].
Qed.

Lemma CollectRequest_run (req : Request) (s : Machine) :
  id req ∈ request_states s -> is_Some (rstate_store s !! id req) ->
  Forall (fun h => is_Some (lookup_entry s h)) (generation_refs req) ->
  exists g s',
    CollectRequest GetReturnTokenIds max_single_sequence_length req s
      = Ok (request_result req g) s' /\
    fst <$> g = generation_refs req /\
    trace s' = trace s ++ report_events g /\
    collect_frame s s'.
Proof.
  intros Hin Hrs Hgen.
  destruct (CollectRequest_exact req s Hin Hrs Hgen) as (g & s' & H1 & H2 & H3 & H4 & _).
  by exists g, s'.
Qed.

Lemma CollectRequests_exact (requests : list Request) (s : Machine) :
  requests_known s requests ->
  generations_present s requests ->
  exists gs s',
    mapM (CollectRequest GetReturnTokenIds max_single_sequence_length) requests s
      = Ok (zip_with request_result requests gs) s' /\
    Forall2 (fun req g => fst <$> g = generation_refs req) requests gs /\
    trace s' = trace s ++ concat (report_events <$> gs) /\
    collect_frame s s' /\
    (NoDup (requests ≫= generation_refs) ->
     Forall (Forall (returned_in GetReturnTokenIds max_single_sequence_length s)) gs).
Proof.
  revert s. induction requests as [|req requests IH]; intros s Hknown Hgen.
  - exists [], s. simpl. rewrite app_nil_r. split; [done|]. split; [constructor|].
    split; [done|]. split; [apply collect_frame_refl|]. intros _. constructor.
  - apply Forall_cons in Hknown as [[Hin Hrs] Hknown].
    apply Forall_cons in Hgen as [Hg Hgen].
    destruct (CollectRequest_exact req s Hin Hrs Hg)
      as (g & s1 & Hrun & Hfst & Htr & Hf1 & Hex1).
    destruct (IH s1) as (gs & s' & Hrun' & Hall & Htr' & Hf' & Hex').
    { destruct Hf1 as (Hrq & _ & _ & Hst). eapply Forall_impl; [exact Hknown|].
      intros r [Hr1 Hr2]. split; [by rewrite Hrq|by apply Hst]. }
    { destruct Hf1 as (_ & _ & Hl & _). eapply Forall_impl; [exact Hgen|].
      intros r Hr. eapply Forall_impl; [exact Hr|]. intros h Hh. by apply Hl. }
    exists (g :: gs), s'. cbn [mapM].
    rewrite (bind_Ok _ _ _ _ _ Hrun), (bind_Ok _ _ _ _ _ Hrun').
    split; [done|]. split; [by constructor|].
    split.
    { rewrite Htr', Htr, fmap_cons. simpl. by rewrite <- app_assoc. }
    split; [by eapply collect_frame_trans|].
    rewrite bind_cons. intros Hnd. apply NoDup_app in Hnd as (Hnd1 & Hdisj & Hnd2).
    destruct (Hex1 Hnd1) as [Hret1 Hsame1].
    constructor; [exact Hret1|].
    pose proof (Hex' Hnd2) as Hret2.
    clear -Hall Hret2 Hsame1 Hdisj.
    induction Hall as [|req' g' requests gs Hg' Hall IHall]; [constructor|].
    apply Forall_cons in Hret2 as [Hr2 Hret2].
    constructor.
    + apply Forall_forall. intros r Hr.
      destruct (proj1 (Forall_forall _ _) Hr2 r Hr) as (e & He & Hd).
      exists e. split; [|done]. rewrite <- He. symmetry. apply Hsame1.
      intros Hin. apply (Hdisj _ Hin). rewrite bind_cons. apply elem_of_app. left.
      rewrite <- Hg'. apply list_elem_of_fmap. by exists r.
    + apply IHall; [|done]. intros x Hx Hx'. apply (Hdisj x Hx).
      rewrite bind_cons. apply elem_of_app. by right.
Qed.

Lemma CollectRequests_run (requests : list Request) (s : Machine) :
  requests_known s requests ->
  generations_present s requests ->
  exists gs s',
    mapM (CollectRequest GetReturnTokenIds max_single_sequence_length) requests s
      = Ok (zip_with request_result requests gs) s' /\
    Forall2 (fun req g => fst <$> g = generation_refs req) requests gs /\
    trace s' = trace s ++ concat (report_events <$> gs) /\
    collect_frame s s'.
Proof.
  intros Hknown Hgen.
  destruct (CollectRequests_exact requests s Hknown Hgen)
    as (gs & s' & H1 & H2 & H3 & H4 & _).
  by exists gs, s'.
Qed.

End Collect.

Lemma invoke_callback_true (ds : list DeltaRequestReturn) :
  invoke_callback ds = true <-> exists d, d ∈ ds /\ new_delta d.
Proof.
  unfold invoke_callback. rewrite existsb_exists. unfold new_delta.
  split; intros (d & Hd & H).
  - exists d. split; [by apply list_elem_of_In|].
    apply orb_true_iff in H as [H|H].
    + right. by apply bool_decide_eq_true in H.
    + left. unfold has_delta in H. apply negb_true_iff, bool_decide_eq_false in H. done.
  - exists d. split; [by apply list_elem_of_In|].
    apply orb_true_iff. destruct H as [H|H].
    + right. unfold has_delta. by apply negb_true_iff, bool_decide_eq_false.
    + left. by apply bool_decide_eq_true.
Qed.

Lemma generation_refs_key (req : Request) (h : EntryRef) :
  h ∈ generation_refs req -> h.1 = id req.
Proof.
  unfold generation_refs. intros Hin. by apply list_elem_of_fmap in Hin as (i & -> & _).
Qed.

Lemma batch_outputs (requests : list Request)
    (gs : list (list (EntryRef * DeltaRequestReturn))) (rid : string) :
  Forall2 (fun req g => fst <$> g = generation_refs req) requests gs ->
  (exists out, out ∈ omap fst (zip_with request_result requests gs) /\ request_id out = rid)
  <->
  (exists h d, EvGetReturnTokenIds h d ∈ concat (report_events <$> gs) /\
               h.1 = rid /\ new_delta d).
Proof.
  induction 1 as [|req g requests gs Hg _ IH].
  - simpl. split; [intros (out & Hin & _)|intros (h & d & Hin & _)];
      by apply elem_of_nil in Hin.
  - assert (forall r, r ∈ g -> r.1.1 = id req) as Hkey.
    { intros r Hr. apply generation_refs_key. rewrite <- Hg.
      apply list_elem_of_fmap. by exists r. }
    cbn [zip_with omap]. rewrite fmap_cons. cbn [concat].
    unfold request_result at 1. cbn [fst].
    split.
    + intros (out & Hin & Hid).
      destruct (invoke_callback (snd <$> g)) eqn:Hinv; cbn [fst] in Hin.
      * apply elem_of_cons in Hin as [->|Hin].
        -- apply invoke_callback_true in Hinv as (d & Hd & Hnew).
           apply list_elem_of_fmap in Hd as (r & -> & Hr).
           exists r.1, r.2. split; [|split; [by rewrite Hkey|done]].
           apply elem_of_app. left. apply list_elem_of_fmap. by exists r.
        -- destruct (proj1 IH) as (h & d & Hev & Hh & Hd); [by exists out|].
           exists h, d. split; [|done]. apply elem_of_app. by right.
      * destruct (proj1 IH) as (h & d & Hev & Hh & Hd); [by exists out|].
        exists h, d. split; [|done]. apply elem_of_app. by right.
    + intros (h & d & Hev & Hh & Hd). apply elem_of_app in Hev as [Hev|Hev].
      * apply list_elem_of_fmap in Hev as (r & [= -> ->] & Hr).
        assert (invoke_callback (snd <$> g) = true) as ->.
        { apply invoke_callback_true. exists r.2. split; [|done].
          apply list_elem_of_fmap. by exists r. }
        exists (make_output req (snd <$> g)). split; [left|]. simpl.
        by rewrite <- Hh, Hkey.
      * destruct (proj2 IH) as (out & Hin & Hid); [by exists h, d|].
        exists out. split; [|done].
        destruct (invoke_callback (snd <$> g)); [by right|done].
Qed.

(** Every delta reported during the collection is that of a generation
    entry of a request of the step. *)
Lemma report_events_generation (requests : list Request)
    (gs : list (list (EntryRef * DeltaRequestReturn))) (h : EntryRef)
    (d : DeltaRequestReturn) :
  Forall2 (fun req g => fst <$> g = generation_refs req) requests gs ->
  EvGetReturnTokenIds h d ∈ concat (report_events <$> gs) ->
  exists req, req ∈ requests /\ h ∈ generation_refs req.
Proof.
  induction 1 as [|req g requests gs Hg _ IH]; rewrite ?fmap_cons; cbn [concat].
  - intros Hin. by apply elem_of_nil in Hin.
  - intros Hin. apply elem_of_app in Hin as [Hin|Hin].
    + apply list_elem_of_fmap in Hin as (r & [= -> ->] & Hr).
      exists req. split; [left|]. rewrite <- Hg. apply list_elem_of_fmap. by exists r.
    + destruct (IH Hin) as (req' & Hreq & Hh). exists req'. split; [by right|done].
Qed.

Lemma batch_shape (requests : list Request)
    (gs : list (list (EntryRef * DeltaRequestReturn))) (out : RequestStreamOutput) :
  Forall2 (fun req g => fst <$> g = generation_refs req) requests gs ->
  out ∈ omap fst (zip_with request_result requests gs) ->
  exists req, req ∈ requests /\ request_id out = id req /\
    (is_Some (group_delta_logprob_json_strs out) <-> 0 < logprobs (generation_cfg req)) /\
    length (group_delta_token_ids out) = Z.to_nat (n (generation_cfg req)) /\
    length (group_finish_reason out) = Z.to_nat (n (generation_cfg req)).
Proof.
  induction 1 as [|req g requests gs Hg _ IH]; simpl.
  - intros Hin. by apply elem_of_nil in Hin.
  - assert (length g = Z.to_nat (n (generation_cfg req))) as Hlen.
    { rewrite <- (length_fmap fst g), Hg. unfold generation_refs.
      by rewrite length_fmap, length_seq. }
    intros Hin.
    assert (out = make_output req (snd <$> g) \/
            out ∈ omap fst (zip_with request_result requests gs)) as [->|Hin'].
    { destruct (invoke_callback (snd <$> g)); simpl in Hin; [|by right].
      apply elem_of_cons in Hin as [->|Hin]; [by left|by right]. }
    + exists req. split; [left|]. split; [done|]. simpl.
      rewrite !length_fmap. split; [|done].
      destruct (Z.ltb_spec 0 (logprobs (generation_cfg req))).
      * split; [done|by eexists].
      * split; [intros [x Hx]; done|lia].
    + destruct (IH Hin') as (r & Hr & Hrest). exists r. split; [by right|done].
Qed.

Lemma CountPrefilled_handles (hs : list EntryRef) (s : Machine) :
  Forall (fun h => exists e, lookup_entry s h = Some e /\ is_Some (mstates e !! 0%nat)) hs ->
  exists st', forM_ hs CountPrefilledEntry s = Ok tt (set_stats st' s).
Proof.
  revert s. induction hs as [|h hs IH]; intros s Hall.
  - exists (stats s). simpl. by rewrite set_stats_id.
  - apply Forall_cons in Hall as [(e & He & Hm) Hall].
    destruct (IH (set_stats (add_prefill_length (prefilled_length e) (stats s)) s))
      as (st' & Hrun); [exact Hall|].
    exists st'. simpl. rewrite (bind_Ok _ _ _ _ _ (CountPrefilledEntry_Ok _ _ _ He Hm)).
    by rewrite Hrun.
Qed.

Lemma CountPrefilled_run (requests : list Request) (s : Machine) :
  requests_known s requests ->
  (forall h e, lookup_entry s h = Some e -> is_Some (mstates e !! 0%nat)) ->
  exists st', for_each_entry requests CountPrefilledEntry s = Ok tt (set_stats st' s).
Proof.
  unfold for_each_entry. revert s.
  induction requests as [|req requests IH]; intros s Hknown Hm.
  - exists (stats s). simpl. by rewrite set_stats_id.
  - apply Forall_cons in Hknown as [[Hin [rs Hrs]] Hknown].
    destruct (CountPrefilled_handles (entry_refs (rstate_store s) req) s) as (st1 & Hrun1).
    { eapply Forall_impl; [apply entry_refs_lookup|]. intros h [e He]. exists e.
      split; [done|]. by eapply Hm. }
    destruct (IH (set_stats st1 s)) as (st' & Hrun'); [done|done|].
    exists st'. cbn [forM_].
    rewrite (bind_Ok _ _ s (set_stats st1 s) tt); [exact Hrun'|].
    rewrite (bind_Ok _ _ _ _ _ (GetRequestState_Ok _ _ Hin (ex_intro _ rs Hrs))).
    rewrite (bind_Ok _ _ _ _ _ (load_rstate_Ok _ _ _ Hrs)).
    rewrite <- forM__fmap. unfold entry_refs in Hrun1. by rewrite Hrs in Hrun1.
Qed.

Ltac extends_leaf :=
  first
    [ eapply extends_by_same; [reflexivity|eassumption]
    | eapply extends_by_app;
        [simpl; reflexivity
        |first [ apply Forall_fmap, Forall_forall; intros ? _; repeat split;
                 let HF := fresh in intros HF; exact HF
               | repeat constructor; let HF := fresh in intros HF; exact HF ]
        |eassumption] ].

Lemma UpdatePrefixCache_plain (s0 : Machine) (requests : list Request) :
  stable (extends_by plain_call s0) (UpdatePrefixCache requests).
Proof.
  unfold UpdatePrefixCache, for_each_entry, UpdatePrefixCacheEntry, update_mstate0,
    store_entry, call_ExtendSequence.
  repeat (cbv zeta; stable_step); extends_leaf.
Qed.

Lemma RemoveRequestStateEntry_no_callback (s0 : Machine) (h : EntryRef) :
  stable (extends_by no_callback s0) (RemoveRequestStateEntry h).
Proof.
  unfold RemoveRequestStateEntry, RemoveRequestFromModel, call_RecycleSequence,
    call_RecycleId.
  repeat stable_step; extends_leaf.
Qed.

Lemma climb_no_callback (s0 : Machine) (fuel : nat) (rstate : string) (p : Z) :
  stable (extends_by no_callback s0) (climb fuel rstate p).
Proof.
  revert p. induction fuel as [|fuel IH]; intros p; simpl.
  - destruct (p =? -1); repeat stable_step.
  - destruct (p =? -1); [repeat stable_step|].
    do 3 (apply stable_bind; [stable_step|intros ?]).
    destruct (negb _); [stable_step|].
    apply stable_bind; [unfold store_entry; stable_step; extends_leaf|]. intros _.
    apply stable_bind; [apply RemoveRequestStateEntry_no_callback|]. intros _. apply IH.
Qed.

Lemma ProcessFinished_no_callback (now : nat -> Z) (s0 : Machine) (fuel : nat)
    (hs : list EntryRef) :
  stable (extends_by no_callback s0) (ProcessFinishedRequestStateEntries now fuel hs).
Proof.
  unfold ProcessFinishedRequestStateEntries. apply stable_forM_. intros h _.
  unfold ProcessFinishedEntry.
  apply stable_bind.
  - unfold FinishEntryAndClimb.
    do 2 (apply stable_bind; [stable_step|intros ?]).
    apply stable_bind; [unfold store_entry; stable_step; extends_leaf|]. intros _.
    apply stable_bind; [apply RemoveRequestStateEntry_no_callback|]. intros _.
    apply stable_bind; [stable_step|]. intros rstate.
    apply stable_bind; [apply climb_no_callback|]. intros p. stable_step.
  - intros r. destruct (r.2 =? -1); [|stable_step].
    unfold RetireRequest, read_clock. repeat stable_step; extends_leaf.
Qed.

Lemma world_a_generations : generations_present world_a [request_a].
Proof. repeat constructor. by eexists. Defined.

(** * Further properties of the post-step bookkeeping *)

(** ** Reconciling twice *)

Lemma UpdatePrefixCacheEntry_settled (s : Machine) (h : EntryRef) (e : RequestStateEntry) :
  lookup_entry s h = Some e ->
  entry_settled (prefix_cache s) e ->
  UpdatePrefixCacheEntry h s = Ok tt s.
Proof.
  intros He (m0 & Hm0 & Hdone). unfold UpdatePrefixCacheEntry.
  rewrite (bind_Ok _ _ _ _ _ (load_entry_Ok _ _ _ He)), Hm0.
  unfold deref. cbn [bind ret gets].
  destruct (HasSequence (prefix_cache s) (internal_id m0)); [|done].
  destruct Hdone as [Hp Hw]; [done|].
  rewrite bool_decide_true by done. cbn [negb bind ret].
  destruct (Z.ltb_spec (cached_committed_tokens m0)
              (Z.of_nat (length (committed_tokens m0)) - 1)); [lia|done].
Qed.

Lemma UpdatePrefixCache_handles_settled (hs : list EntryRef) (s : Machine) :
  Forall (fun h => exists e, lookup_entry s h = Some e /\ entry_settled (prefix_cache s) e) hs ->
  forM_ hs UpdatePrefixCacheEntry s = Ok tt s.
Proof.
  induction 1 as [|h hs (e & He & Hdone) _ IH]; [done|].
  cbn [forM_]. by rewrite (bind_Ok _ _ _ _ _ (UpdatePrefixCacheEntry_settled _ _ _ He Hdone)).
Qed.

Lemma UpdatePrefixCache_settled (requests : list Request) (s : Machine) :
  requests_known s requests ->
  (forall h e, h ∈ requests ≫= entry_refs (rstate_store s) ->
     lookup_entry s h = Some e -> entry_settled (prefix_cache s) e) ->
  UpdatePrefixCache requests s = Ok tt s.
Proof.
  unfold UpdatePrefixCache, for_each_entry.
  induction requests as [|req requests IH]; intros Hknown Hdone; [done|].
  apply Forall_cons in Hknown as [[Hin [rs Hrs]] Hknown].
  cbn [forM_].
  rewrite (bind_Ok _ _ s s tt); [apply IH; [done|]|].
  - intros h e Hh. apply Hdone. rewrite bind_cons. apply elem_of_app. by right.
  - rewrite (bind_Ok _ _ _ _ _ (GetRequestState_Ok _ _ Hin (ex_intro _ rs Hrs))).
    rewrite (bind_Ok _ _ _ _ _ (load_rstate_Ok _ _ _ Hrs)).
    rewrite <- forM__fmap.
    apply UpdatePrefixCache_handles_settled.
    replace (pair (id req) <$> seq 0 (length (entries rs)))
      with (entry_refs (rstate_store s) req) by (unfold entry_refs; by rewrite Hrs).
    pose proof (entry_refs_lookup (rstate_store s) req) as Hall.
    apply Forall_forall. intros h Hh.
    destruct (proj1 (Forall_forall _ _) Hall h Hh) as [e He].
    exists e. split; [done|]. apply (Hdone h); [|done].
    rewrite bind_cons. apply elem_of_app. by left.
Qed.

Lemma settle_settled (pc : PrefixCache) (e : RequestStateEntry) :
  entry_ready pc e -> entry_settled pc (settle pc e).
Proof.
  intros (m0 & Hm0 & Hready). unfold settle. rewrite Hm0.
  destruct (HasSequence pc (internal_id m0)) eqn:Hheld.
  - exists (reconciled m0). split.
    + simpl. apply list_lookup_insert_eq. by eapply lookup_lt_Some.
    + intros _. split; [done|]. simpl.
      destruct (Z.ltb_spec (cached_committed_tokens m0)
                  (Z.of_nat (length (committed_tokens m0)) - 1)); lia.
  - exists m0. split; [done|]. intros Hh. congruence.
Qed.

Lemma entry_settled_ext (pc pc' : PrefixCache) (e : RequestStateEntry) :
  (forall j, HasSequence pc' j = HasSequence pc j) ->
  entry_settled pc e -> entry_settled pc' e.
Proof.
  intros Hpc (m0 & Hm0 & H). exists m0. split; [done|]. rewrite Hpc. exact H.
Qed.

(** X1. Reconciling the prefix cache twice is reconciling it once: a
    second [UpdatePrefixCache] right after the first makes no call and
    leaves the world as the first one left it. *)
Theorem UpdatePrefixCache_twice (requests : list Request) (s : Machine) :
  requests_known s requests ->
  store_ready (prefix_cache s) (rstate_store s) ->
  exists s1,
    UpdatePrefixCache requests s = Ok tt s1 /\
    UpdatePrefixCache requests s1 = Ok tt s1.
Proof.
  intros Hknown Hready.
  destruct (UpdatePrefixCache_settles (prefix_cache s) requests s)
    as (s1 & Hrun & Hs1 & _ & _ & Hframe); [done..|].
  exists s1. split; [done|].
  destruct Hframe as (Hrq & _ & _ & _ & _ & _ & Hpc).
  apply UpdatePrefixCache_settled.
  - eapply Forall_impl; [exact Hknown|]. intros r [Hr1 Hr2].
    split; [by rewrite Hrq|]. rewrite Hs1. by apply settle_all_is_Some.
  - intros h e Hh He. rewrite Hs1, entry_refs_bind_settle_all in Hh.
    unfold lookup_entry in He. rewrite Hs1, settle_all_lookup, decide_True in He by done.
    destruct (store_lookup (rstate_store s) h) as [e0|] eqn:He0; [|done].
    injection He as <-.
    apply (entry_settled_ext (prefix_cache s)); [done|].
    apply settle_settled. by eapply Hready.
Qed.

(** ** What the reconciliation leaves alone *)

Lemma mstate_kept_refl (m : RequestModelState) : mstate_kept m m.
Proof. by repeat split. Qed.

Lemma mstate_kept_trans (m1 m2 m3 : RequestModelState) :
  mstate_kept m1 m2 -> mstate_kept m2 m3 -> mstate_kept m1 m3.
Proof.
  intros (A1&A2&A3&A4&A5&A6&A7) (B1&B2&B3&B4&B5&B6&B7). repeat split; congruence.
Qed.

Lemma entry_kept_refl (e : RequestStateEntry) : entry_kept e e.
Proof.
  repeat split; try done. apply Forall2_same_length_lookup_2; [done|].
  intros i m m' H1 H2. rewrite H1 in H2. injection H2 as <-. apply mstate_kept_refl.
Qed.

Lemma entry_kept_trans (e1 e2 e3 : RequestStateEntry) :
  entry_kept e1 e2 -> entry_kept e2 e3 -> entry_kept e1 e3.
Proof.
  intros (A1&A2&A3&A4&A5&A6&A7&A8&A9) (B1&B2&B3&B4&B5&B6&B7&B8&B9).
  repeat split; try congruence.
  eapply Forall2_trans; [apply mstate_kept_trans|exact A8|exact B8].
Qed.

Lemma cache_notes_only_refl (s : Machine) : cache_notes_only s s.
Proof.
  repeat split; try done. intros h.
  destruct (lookup_entry s h); constructor. apply entry_kept_refl.
Qed.

Lemma cache_notes_only_trans (s1 s2 s3 : Machine) :
  cache_notes_only s1 s2 -> cache_notes_only s2 s3 -> cache_notes_only s1 s3.
Proof.
  intros (A1&A2&A3&A4&A5&A6&A7) (B1&B2&B3&B4&B5&B6&B7).
  repeat split; try congruence. intros h.
  specialize (A7 h). specialize (B7 h).
  destruct A7 as [e1 e2 H12|]; inversion B7; subst; constructor.
  by eapply entry_kept_trans.
Qed.

Lemma cache_notes_only_write (s : Machine) (h : EntryRef) (e e' : RequestStateEntry) :
  lookup_entry s h = Some e -> entry_kept e e' ->
  cache_notes_only s (write_entry h e' s).
Proof.
  intros He Hk. repeat split; try done. intros h'.
  destruct (decide (h = h')) as [<-|Hne].
  - rewrite (lookup_entry_write_eq _ _ _ _ He), He. by constructor.
  - rewrite lookup_entry_write_ne by done.
    destruct (lookup_entry s h'); constructor. apply entry_kept_refl.
Qed.

Lemma cache_notes_only_update (s0 : Machine) (h : EntryRef)
    (f : RequestModelState -> RequestModelState) :
  (forall m, mstate_kept m (f m)) ->
  stable (cache_notes_only s0) (update_mstate0 h f).
Proof.
  intros Hf. apply final_stable. intros s Hs. unfold update_mstate0.
  destruct (lookup_entry s h) as [e|] eqn:He.
  - rewrite (bind_Ok _ _ _ _ _ (load_entry_Ok _ _ _ He)).
    destruct (mstates e !! 0%nat) as [m0|] eqn:Hm0; [|done]. simpl.
    eapply cache_notes_only_trans; [exact Hs|].
    apply (cache_notes_only_write _ _ e); [done|].
    destruct (mstates e) as [|m ms] eqn:Hms; [done|]. injection Hm0 as ->.
    repeat split; try done; simpl; rewrite Hms; [|done].
    constructor; [apply Hf|].
    apply Forall2_same_length_lookup_2; [done|].
    intros i m m' H1 H2. rewrite H1 in H2. injection H2 as <-. apply mstate_kept_refl.
  - by rewrite (bind_Fault _ _ _ _ (load_entry_None _ _ He)).
Qed.

Lemma cache_notes_only_call (s0 : Machine) (i : Z) (tokens : list Z) :
  stable (cache_notes_only s0) (call_ExtendSequence i tokens).
Proof. apply stable_modify. intros s Hs. exact Hs. Qed.

Lemma UpdatePrefixCache_cache_notes_only (s0 : Machine) (requests : list Request) :
  stable (cache_notes_only s0) (UpdatePrefixCache requests).
Proof.
  unfold UpdatePrefixCache, for_each_entry, UpdatePrefixCacheEntry.
  repeat (cbv zeta; stable_step);
    first [ apply cache_notes_only_call
          | apply cache_notes_only_update; intros m; by repeat split ].
Qed.

Lemma UpdatePrefixCache_extends (s0 : Machine) (requests : list Request) :
  stable (extends_by is_ExtendSequence s0) (UpdatePrefixCache requests).
Proof.
  unfold UpdatePrefixCache, for_each_entry, UpdatePrefixCacheEntry, update_mstate0,
    store_entry, call_ExtendSequence.
  repeat (cbv zeta; stable_step);
    first [ eapply extends_by_same; [reflexivity|eassumption]
          | eapply extends_by_app; [simpl; reflexivity|repeat constructor|eassumption] ].
Qed.

(** X2. Whatever its outcome, [UpdatePrefixCache] leaves the queues,
    [request_states], the ID manager, the statistics and the clock as they
    are; of every entry it changes at most [prefilled_inputs] and
    [cached_committed_tokens] of the first model state; and the only calls
    it makes are [ExtendSequence] calls. *)
Theorem UpdatePrefixCache_touches_cache_notes_only (requests : list Request) (s : Machine) :
  let s' := final (UpdatePrefixCache requests s) in
  cache_notes_only s s' /\ extends_by is_ExtendSequence s s'.
Proof.
  split.
  - apply (stable_final _ _ s (UpdatePrefixCache_cache_notes_only s requests)).
    apply cache_notes_only_refl.
  - apply (stable_final _ _ s (UpdatePrefixCache_extends s requests)).
    apply extends_by_refl.
Qed.

(** ** Invariants of a whole step *)

Lemma retire_frame_refl (s : Machine) : retire_frame s s.
Proof. by repeat split. Qed.

(** A property of the queues, [request_states], the statistics and the
    clock is kept by every run that leaves these alone. *)
Lemma stable_of_frame {A : Type} (I : Machine -> Prop) (c : M A) :
  (forall s s', retire_frame s s' -> I s -> I s') ->
  (forall s0, stable (retire_frame s0) c) ->
  stable I c.
Proof.
  intros HI Hc. apply final_stable. intros s Hs. apply (HI s); [|done].
  apply (stable_final _ _ s (Hc s)). apply retire_frame_refl.
Qed.

Lemma UpdatePrefixCache_frame (s0 : Machine) (requests : list Request) :
  stable (retire_frame s0) (UpdatePrefixCache requests).
Proof.
  unfold UpdatePrefixCache, for_each_entry, UpdatePrefixCacheEntry, update_mstate0,
    store_entry, call_ExtendSequence.
  repeat (cbv zeta; stable_step); done.
Qed.

Lemma CollectRequests_frame
    (GetReturnTokenIds : Z -> RequestStateEntry -> DeltaRequestReturn * RequestStateEntry)
    (max_single_sequence_length : Z) (s0 : Machine) (requests : list Request) :
  stable (retire_frame s0)
    (mapM (CollectRequest GetReturnTokenIds max_single_sequence_length) requests).
Proof.
  unfold CollectRequest, CollectEntry, store_entry.
  repeat (cbv zeta; stable_step); done.
Qed.

(** *** The prefill statistics *)

Lemma add_prefill_length_add (a b : Z) (st : EngineStatistics) :
  add_prefill_length b (add_prefill_length a st) = add_prefill_length (a + b) st.
Proof. unfold add_prefill_length; simpl. f_equal. lia. Qed.

Lemma sum_prefilled_app (st : gmap string RequestState) (hs hs' : list EntryRef) :
  sum_prefilled st (hs ++ hs') = sum_prefilled st hs + sum_prefilled st hs'.
Proof.
  induction hs as [|h hs IH]; simpl; [done|]. unfold sum_prefilled in *. simpl. lia.
Qed.

Lemma CountPrefilled_handles_sum (hs : list EntryRef) (s : Machine) :
  Forall (fun h => exists e, lookup_entry s h = Some e /\ is_Some (mstates e !! 0%nat)) hs ->
  forM_ hs CountPrefilledEntry s
  = Ok tt (set_stats (add_prefill_length (sum_prefilled (rstate_store s) hs) (stats s)) s).
Proof.
  revert s. induction hs as [|h hs IH]; intros s Hall.
  - simpl. f_equal. destruct s as [rq wq rqs idm pc [a b c d] st ms tr ck].
    unfold set_stats, add_prefill_length; simpl. by rewrite Z.add_0_r.
  - apply Forall_cons in Hall as [(e & He & Hm) Hall].
    cbn [forM_]. rewrite (bind_Ok _ _ _ _ _ (CountPrefilledEntry_Ok _ _ _ He Hm)).
    rewrite IH by exact Hall. f_equal. simpl.
    rewrite set_stats_set_stats, add_prefill_length_add.
    unfold sum_prefilled at 2. cbn [foldr]. unfold lookup_entry in He. by rewrite He.
Qed.

Lemma CountPrefilled_run_sum (requests : list Request) (s : Machine) :
  requests_known s requests ->
  (forall h e, lookup_entry s h = Some e -> is_Some (mstates e !! 0%nat)) ->
  for_each_entry requests CountPrefilledEntry s
  = Ok tt (set_stats
             (add_prefill_length
                (sum_prefilled (rstate_store s) (requests ≫= entry_refs (rstate_store s)))
                (stats s)) s).
Proof.
  unfold for_each_entry. revert s.
  induction requests as [|req requests IH]; intros s Hknown Hm.
  - simpl. f_equal. destruct s as [rq wq rqs idm pc [a b c d] st ms tr ck].
    unfold set_stats, add_prefill_length; simpl. by rewrite Z.add_0_r.
  - apply Forall_cons in Hknown as [[Hin [rs Hrs]] Hknown].
    pose proof (CountPrefilled_handles_sum (entry_refs (rstate_store s) req) s) as Hrun1.
    cbn [forM_].
    set (s1 := set_stats
                 (add_prefill_length
                    (sum_prefilled (rstate_store s) (entry_refs (rstate_store s) req))
                    (stats s)) s).
    rewrite (bind_Ok _ _ s s1 tt); cycle 1.
    { rewrite (bind_Ok _ _ _ _ _ (GetRequestState_Ok _ _ Hin (ex_intro _ rs Hrs))).
      rewrite (bind_Ok _ _ _ _ _ (load_rstate_Ok _ _ _ Hrs)).
      rewrite <- forM__fmap.
      replace (pair (id req) <$> seq 0 (length (entries rs)))
        with (entry_refs (rstate_store s) req) by (unfold entry_refs; by rewrite Hrs).
      apply Hrun1. eapply Forall_impl; [apply entry_refs_lookup|].
      intros h [e He]. exists e. split; [done|]. by eapply Hm. }
    rewrite IH by done. f_equal. unfold s1.
    cbn [set_stats rstate_store stats running_queue waiting_queue request_states
         id_manager prefix_cache models trace clock_reads].
    by rewrite add_prefill_length_add, bind_cons, sum_prefilled_app.
Qed.

Lemma RetireRequest_prefill_length (now : nat -> Z) (c : Z) (req : Request)
    (rstate : string) :
  stable (fun s => total_prefill_length (stats s) = c) (RetireRequest now req rstate).
Proof. unfold RetireRequest, read_clock. repeat stable_step; done. Qed.

Lemma ProcessFinished_prefill_length (now : nat -> Z) (c : Z) (fuel : nat)
    (hs : list EntryRef) :
  stable (fun s => total_prefill_length (stats s) = c)
    (ProcessFinishedRequestStateEntries now fuel hs).
Proof.
  unfold ProcessFinishedRequestStateEntries. apply stable_forM_. intros h _.
  unfold ProcessFinishedEntry. apply stable_bind.
  - apply stable_of_frame; [|intros s0; apply FinishEntryAndClimb_frame].
    intros s s' (Hst & _) Hs. by rewrite Hst.
  - intros r. destruct (r.2 =? -1); [apply RetireRequest_prefill_length|stable_step].
Qed.

(** X3. One [ActionStepPostProcess] adds to [total_prefill_length] the
    lengths of all prefilled blocks of all entries of the requests of the
    step, whether the prefix cache holds their sequences or not, and
    whatever becomes of the rest of the step. *)
Theorem ActionStepPostProcess_prefill_length (now : nat -> Z)
    (GetReturnTokenIds : Z -> RequestStateEntry -> DeltaRequestReturn * RequestStateEntry)
    (fuel : nat) (requests : list Request) (max_single_sequence_length : Z) (s : Machine) :
  requests_known s requests ->
  (forall h e, lookup_entry s h = Some e -> is_Some (mstates e !! 0%nat)) ->
  total_prefill_length
    (stats (final (ActionStepPostProcess now GetReturnTokenIds fuel requests
                     max_single_sequence_length s)))
  = total_prefill_length (stats s)
    + sum_prefilled (rstate_store s) (requests ≫= entry_refs (rstate_store s)).
Proof.
  intros Hknown Hm. unfold ActionStepPostProcess, CollectStep.
  rewrite bind_assoc, (bind_Ok _ _ _ _ _ (CountPrefilled_run_sum requests s Hknown Hm)).
  set (sa := set_stats _ s).
  set (c := total_prefill_length (stats s) + _).
  apply (stable_final (fun s' => total_prefill_length (stats s') = c)); [|done].
  assert (forall s s', retire_frame s s' ->
            total_prefill_length (stats s) = c -> total_prefill_length (stats s') = c)
    as Hframe by (intros s1 s2 (Hst & _) H1; by rewrite Hst).
  apply stable_bind.
  - apply stable_bind.
    + apply stable_of_frame; [exact Hframe|]. intros s0. apply UpdatePrefixCache_frame.
    + intros _. apply stable_bind; [|intros rets; stable_step].
      apply stable_of_frame; [exact Hframe|]. intros s0. apply CollectRequests_frame.
  - intros r. apply stable_bind; [stable_step; done|].
    intros _. apply ProcessFinished_prefill_length.
Qed.

(** *** Nothing is enqueued *)

Lemma never_enqueues_refl (s : Machine) : never_enqueues s s.
Proof. by repeat split. Qed.

Lemma never_enqueues_frame (s0 s s' : Machine) :
  retire_frame s s' -> never_enqueues s0 s -> never_enqueues s0 s'.
Proof.
  intros (_ & Hrq & Hwq & Hrs & _) (H1 & H2 & H3). unfold never_enqueues.
  by rewrite Hrq, Hwq, Hrs.
Qed.

Lemma RetireRequest_never_enqueues (now : nat -> Z) (s0 : Machine) (req : Request)
    (rstate : string) :
  stable (never_enqueues s0) (RetireRequest now req rstate).
Proof.
  apply final_stable. intros s Hs. unfold RetireRequest. cbn [bind gets].
  destruct (find_request req (running_queue s)) as [it|]; [|done].
  cbn [deref bind ret modify].
  set (s1 := set_request_states _ _).
  assert (never_enqueues s0 s1) as Hs1.
  { destruct Hs as (H1 & H2 & H3). split; [done|]. split; simpl.
    - etrans; [apply sublist_delete|done].
    - intros x Hx. apply H3. by apply elem_of_difference in Hx as [Hx _]. }
  apply (stable_final (never_enqueues s0)); [|done].
  unfold read_clock. repeat stable_step; done.
Qed.

Lemma ProcessFinished_never_enqueues (now : nat -> Z) (s0 : Machine) (fuel : nat)
    (hs : list EntryRef) :
  stable (never_enqueues s0) (ProcessFinishedRequestStateEntries now fuel hs).
Proof.
  unfold ProcessFinishedRequestStateEntries. apply stable_forM_. intros h _.
  unfold ProcessFinishedEntry. apply stable_bind.
  - apply stable_of_frame; [apply never_enqueues_frame|].
    intros s1. apply FinishEntryAndClimb_frame.
  - intros r. destruct (r.2 =? -1); [apply RetireRequest_never_enqueues|stable_step].
Qed.

(** X4. Whatever its outcome, [ActionStepPostProcess] adds nothing to the
    queues or to [request_states]: [waiting_queue] is as it was,
    [running_queue] is a sublist of what it was, and [request_states] a
    subset. *)
Theorem ActionStepPostProcess_never_enqueues (now : nat -> Z)
    (GetReturnTokenIds : Z -> RequestStateEntry -> DeltaRequestReturn * RequestStateEntry)
    (fuel : nat) (requests : list Request) (max_single_sequence_length : Z) (s : Machine) :
  never_enqueues s
    (final (ActionStepPostProcess now GetReturnTokenIds fuel requests
              max_single_sequence_length s)).
Proof.
  apply (stable_final (never_enqueues s)); [|apply never_enqueues_refl].
  unfold ActionStepPostProcess, CollectStep.
  apply stable_bind.
  - apply stable_bind.
    { unfold for_each_entry, CountPrefilledEntry. repeat stable_step; done. }
    intros _. apply stable_bind.
    { apply stable_of_frame; [apply never_enqueues_frame|].
      intros s0. apply UpdatePrefixCache_frame. }
    intros _. apply stable_bind; [|intros rets; stable_step].
    apply stable_of_frame; [apply never_enqueues_frame|].
    intros s0. apply CollectRequests_frame.
  - intros r. apply stable_bind; [stable_step; done|].
    intros _. apply ProcessFinished_never_enqueues.
Qed.

(** ** The collection of deltas and finished entries *)

Section Collection.

Variable GetReturnTokenIds : Z -> RequestStateEntry -> DeltaRequestReturn * RequestStateEntry.
Variable max_single_sequence_length : Z.

Lemma CollectStep_run (requests : list Request) (s : Machine) :
  requests_known s requests ->
  store_ready (prefix_cache s) (rstate_store s) ->
  generations_present s requests ->
  exists gs s1 pre,
    CollectStep GetReturnTokenIds requests max_single_sequence_length s
      = Ok (omap fst (zip_with request_result requests gs),
            concat (snd <$> zip_with request_result requests gs)) s1 /\
    Forall2 (fun req g => fst <$> g = generation_refs req) requests gs /\
    trace s1 = trace s ++ pre ++ concat (report_events <$> gs) /\
    Forall plain_call pre /\
    request_states s1 = request_states s /\
    running_queue s1 = running_queue s.
Proof.
  intros Hknown Hready Hgen.
  destruct (CountPrefilled_run requests s Hknown) as (st' & Hrun_a).
  { intros h e He. destruct (Hready h e He) as (m0 & Hm0 & _). by exists m0. }
  set (sa := set_stats st' s) in *.
  destruct (UpdatePrefixCache_settles (prefix_cache s) requests sa)
    as (sb & Hrun_b & Hsb & _ & _ & Hfb); [done..|].
  pose proof (stable_final _ _ sa (UpdatePrefixCache_plain sa requests)
                (extends_by_refl _ sa)) as (pre & Hpre & Hplain).
  rewrite Hrun_b in Hpre. simpl in Hpre.
  destruct Hfb as (Hrq_b & Hq_b & _).
  destruct (CollectRequests_run GetReturnTokenIds max_single_sequence_length requests sb)
    as (gs & s1 & Hrun_c & Hgs & Htr_c & Hfc).
  { eapply Forall_impl; [exact Hknown|]. intros r [Hr1 Hr2]. split; [by rewrite Hrq_b|].
    rewrite Hsb. by apply settle_all_is_Some. }
  { eapply Forall_impl; [exact Hgen|]. intros r Hr. eapply Forall_impl; [exact Hr|].
    intros h Hh. unfold lookup_entry. rewrite Hsb. by apply settle_all_lookup_is_Some. }
  destruct Hfc as (Hrq_c & Hq_c & _).
  exists gs, s1, pre. split.
  { unfold CollectStep.
    rewrite (bind_Ok _ _ _ _ _ Hrun_a), (bind_Ok _ _ _ _ _ Hrun_b).
    by rewrite (bind_Ok _ _ _ _ _ Hrun_c). }
  split; [exact Hgs|]. split; [by rewrite Htr_c, Hpre, <- app_assoc|].
  split; [exact Hplain|]. split; [by rewrite Hrq_c, Hrq_b|by rewrite Hq_c, Hq_b].
Qed.

End Collection.

Lemma reported_entries_plain (evs : list Event) :
  Forall plain_call evs -> reported_entries evs = [].
Proof.
  induction 1 as [|ev evs [_ Hev] _ IH]; [done|].
  unfold reported_entries in *. destruct ev; cbn in *; try exact IH. by destruct Hev.
Qed.

Lemma reported_entries_reports (g : list (EntryRef * DeltaRequestReturn)) :
  reported_entries (report_events g) = fst <$> g.
Proof.
  unfold reported_entries, report_events.
  induction g as [|r g IH]; [done|]. cbn. f_equal. exact IH.
Qed.

Lemma reported_entries_app (evs evs' : list Event) :
  reported_entries (evs ++ evs') = reported_entries evs ++ reported_entries evs'.
Proof. apply omap_app. Qed.

Lemma reported_entries_generations (requests : list Request)
    (gs : list (list (EntryRef * DeltaRequestReturn))) :
  Forall2 (fun req g => fst <$> g = generation_refs req) requests gs ->
  reported_entries (concat (report_events <$> gs)) = requests ≫= generation_refs.
Proof.
  induction 1 as [|req g requests gs Hg _ IH]; [done|].
  rewrite fmap_cons, bind_cons. cbn [concat].
  by rewrite reported_entries_app, reported_entries_reports, Hg, IH.
Qed.

Lemma finished_of_results (requests : list Request)
    (gs : list (list (EntryRef * DeltaRequestReturn))) :
  Forall2 (fun req g => fst <$> g = generation_refs req) requests gs ->
  concat (snd <$> zip_with request_result requests gs)
  = concat (finished_of <$> gs).
Proof.
  induction 1 as [|req g requests gs Hg _ IH]; [done|].
  cbn [zip_with]. rewrite !fmap_cons. cbn [concat]. by rewrite IH.
Qed.

Lemma finished_sublist (requests : list Request)
    (gs : list (list (EntryRef * DeltaRequestReturn))) :
  Forall2 (fun req g => fst <$> g = generation_refs req) requests gs ->
  concat (finished_of <$> gs)
    `sublist_of` requests ≫= generation_refs.
Proof.
  induction 1 as [|req g requests gs Hg _ IH]; [done|].
  rewrite fmap_cons, bind_cons. cbn [concat]. apply sublist_app; [|exact IH].
  rewrite <- Hg. unfold finished_of. apply fmap_sublist, sublist_filter.
Qed.

Lemma finished_elem_of (gs : list (list (EntryRef * DeltaRequestReturn))) (h : EntryRef) :
  h ∈ concat (finished_of <$> gs)
  <-> exists d, EvGetReturnTokenIds h d ∈ concat (report_events <$> gs) /\
                is_Some (finish_reason d).
Proof.
  induction gs as [|g gs IH].
  - simpl. split; [intros Hin|intros (d & Hin & _)]; by apply elem_of_nil in Hin.
  - rewrite !fmap_cons. cbn [concat]. rewrite elem_of_app, IH. split.
    + intros [Hin|(d & Hin & Hd)].
      * unfold finished_of in Hin. apply list_elem_of_fmap in Hin as (r & -> & Hr).
        apply list_elem_of_filter in Hr as [Hfin Hr].
        exists r.2. split; [|by apply bool_decide_eq_true in Hfin].
        apply elem_of_app. left. apply list_elem_of_fmap. by exists r.
      * exists d. split; [|done]. apply elem_of_app. by right.
    + intros (d & Hin & Hd). apply elem_of_app in Hin as [Hin|Hin].
      * left. apply list_elem_of_fmap in Hin as (r & [= -> ->] & Hr).
        unfold finished_of. apply list_elem_of_fmap. exists r. split; [done|].
        apply list_elem_of_filter. split; [|done]. by apply bool_decide_eq_true.
      * right. by exists d.
Qed.

Lemma plain_call_not_report (evs : list Event) (h : EntryRef) (d : DeltaRequestReturn) :
  Forall plain_call evs -> EvGetReturnTokenIds h d ∉ evs.
Proof.
  intros Hall Hin. destruct (proj1 (Forall_forall _ _) Hall _ Hin) as [_ Hn]. by destruct Hn.
Qed.

(** X5. The collection of a step calls [GetReturnTokenIds] once for every
    generation entry of every request, in order, and for no other entry;
    the entries it hands to [ProcessFinishedRequestStateEntries] are, in
    that order, exactly those for which a finish reason was returned; and
    the request of every such entry has an output in the batch of the
    callback. *)
Theorem finished_entries_collected (now : nat -> Z)
    (GetReturnTokenIds : Z -> RequestStateEntry -> DeltaRequestReturn * RequestStateEntry)
    (fuel : nat) (requests : list Request) (max_single_sequence_length : Z) (s : Machine) :
  requests_known s requests ->
  store_ready (prefix_cache s) (rstate_store s) ->
  generations_present s requests ->
  exists outs finished_rsentries s1,
    CollectStep GetReturnTokenIds requests max_single_sequence_length s
      = Ok (outs, finished_rsentries) s1 /\
    ActionStepPostProcess now GetReturnTokenIds fuel requests max_single_sequence_length s
      = ProcessFinishedRequestStateEntries now fuel finished_rsentries
          (emit (EvStreamCallback outs) s1) /\
    reported_entries (calls_since s s1) = requests ≫= generation_refs /\
    finished_rsentries `sublist_of` requests ≫= generation_refs /\
    (forall h, h ∈ finished_rsentries <->
       exists d, EvGetReturnTokenIds h d ∈ calls_since s s1 /\ is_Some (finish_reason d)) /\
    (forall h, h ∈ finished_rsentries ->
       exists out, out ∈ outs /\ request_id out = h.1).
Proof.
  intros Hknown Hready Hgen.
  destruct (CollectStep_run GetReturnTokenIds max_single_sequence_length requests s
              Hknown Hready Hgen)
    as (gs & s1 & pre & Hrun & Hgs & Htr & Hplain & _ & _).
  eexists _, _, s1. split; [exact Hrun|].
  split; [unfold ActionStepPostProcess; by rewrite (bind_Ok _ _ _ _ _ Hrun)|].
  assert (calls_since s s1 = pre ++ concat (report_events <$> gs)) as ->.
  { unfold calls_since. by rewrite Htr, drop_app_length. }
  rewrite (finished_of_results requests gs Hgs).
  split.
  { by rewrite reported_entries_app, (reported_entries_plain pre Hplain),
      (reported_entries_generations requests gs Hgs). }
  split; [by apply finished_sublist|].
  assert (forall h,
    h ∈ concat (finished_of <$> gs)
    <-> exists d, EvGetReturnTokenIds h d ∈ pre ++ concat (report_events <$> gs) /\
                  is_Some (finish_reason d)) as Hfin.
  { intros h. rewrite finished_elem_of.
    split; intros (d & Hin & Hd); exists d; (split; [|done]).
    - apply elem_of_app. by right.
    - apply elem_of_app in Hin as [Hin|Hin]; [|done].
      by apply plain_call_not_report in Hin. }
  split; [exact Hfin|].
  intros h Hh. apply finished_elem_of in Hh as (d & Hin & Hd).
  apply (batch_outputs requests gs h.1 Hgs). exists h, d.
  split; [done|]. split; [done|by right].
Qed.

(** ** A step in which nothing new is reported *)

Lemma CollectStep_reports_from
    (GetReturnTokenIds : Z -> RequestStateEntry -> DeltaRequestReturn * RequestStateEntry)
    (max_single_sequence_length : Z) (s0 : Machine) (requests : list Request) :
  stable (extends_by (reports_from GetReturnTokenIds max_single_sequence_length) s0)
    (CollectStep GetReturnTokenIds requests max_single_sequence_length).
Proof.
  unfold CollectStep, UpdatePrefixCache, for_each_entry, CountPrefilledEntry,
    UpdatePrefixCacheEntry, update_mstate0, CollectRequest, CollectEntry, store_entry,
    call_ExtendSequence.
  repeat (cbv zeta; stable_step);
    first [ eapply extends_by_same; [reflexivity|eassumption]
          | eapply extends_by_app;
              [simpl; reflexivity
              |repeat first [apply Forall_cons_2|apply Forall_nil_2]; simpl; eauto
              |eassumption] ].
Qed.

Lemma elem_of_concat_2 {A : Type} (x : A) (l : list A) (ls : list (list A)) :
  x ∈ l -> l ∈ ls -> x ∈ concat ls.
Proof.
  intros Hx. induction 1 as [l ls|l l' ls _ IH]; simpl; apply elem_of_app; auto.
Qed.

Lemma filter_quiet (g : list (EntryRef * DeltaRequestReturn)) :
  Forall (fun r => ~ new_delta r.2) g -> finished_of g = [].
Proof.
  unfold finished_of. induction 1 as [|r g Hr _ IH]; [done|].
  rewrite filter_cons. case_decide as Hfin; [|exact IH].
  destruct Hr. right. by apply bool_decide_eq_true in Hfin.
Qed.

Lemma quiet_results (requests : list Request)
    (gs : list (list (EntryRef * DeltaRequestReturn))) :
  Forall (Forall (fun r => ~ new_delta r.2)) gs ->
  omap fst (zip_with request_result requests gs) = [] /\
  concat (snd <$> zip_with request_result requests gs) = [].
Proof.
  intros Hall. revert requests.
  induction Hall as [|g gs Hg _ IH]; intros [|req requests]; try done.
  cbn [zip_with]. rewrite fmap_cons. cbn [concat omap list_omap].
  destruct (IH requests) as [IH1 IH2].
  unfold request_result at 1 3. cbn [fst snd].
  assert (invoke_callback (snd <$> g) = false) as ->.
  { destruct (invoke_callback (snd <$> g)) eqn:Hinv; [|done].
    apply invoke_callback_true in Hinv as (d & Hd & Hnew).
    apply list_elem_of_fmap in Hd as (r & -> & Hr).
    by destruct (proj1 (Forall_forall _ _) Hg r Hr). }
  split; [exact IH1|].
  change ((request_result req g).2) with (finished_of g).
  by rewrite (filter_quiet g Hg), IH2.
Qed.

(** X6. A step in which [GetReturnTokenIds] has nothing new for any entry
    still invokes the stream callback, with an empty batch; no entry is
    handed on as finished, so nothing is retired: the step returns right
    after the callback with [request_states] and [running_queue] as they
    were. *)
Theorem quiet_step_empty_batch (now : nat -> Z)
    (GetReturnTokenIds : Z -> RequestStateEntry -> DeltaRequestReturn * RequestStateEntry)
    (fuel : nat) (requests : list Request) (max_single_sequence_length : Z) (s : Machine) :
  requests_known s requests ->
  store_ready (prefix_cache s) (rstate_store s) ->
  generations_present s requests ->
  (forall e, ~ new_delta (GetReturnTokenIds max_single_sequence_length e).1) ->
  exists s1,
    CollectStep GetReturnTokenIds requests max_single_sequence_length s = Ok ([], []) s1 /\
    ActionStepPostProcess now GetReturnTokenIds fuel requests max_single_sequence_length s
      = Ok tt (emit (EvStreamCallback []) s1) /\
    Forall no_callback (calls_since s s1) /\
    request_states s1 = request_states s /\
    running_queue s1 = running_queue s.
Proof.
  intros Hknown Hready Hgen Hquiet.
  destruct (CollectStep_run GetReturnTokenIds max_single_sequence_length requests s
              Hknown Hready Hgen)
    as (gs & s1 & pre & Hrun & Hgs & Htr & Hplain & Hrq & Hq).
  pose proof (stable_final _ _ s
                (CollectStep_reports_from GetReturnTokenIds max_single_sequence_length
                   s requests) (extends_by_refl _ s)) as (evs & Hevs & Hfrom).
  rewrite Hrun in Hevs. simpl in Hevs. rewrite Htr in Hevs.
  apply app_inv_head in Hevs. subst evs.
  apply Forall_app in Hfrom as [_ Hfrom].
  assert (Forall (Forall (fun r => ~ new_delta r.2)) gs) as Hall.
  { apply Forall_forall. intros g Hg. apply Forall_forall. intros r Hr.
    assert (EvGetReturnTokenIds r.1 r.2 ∈ concat (report_events <$> gs)) as Hin.
    { apply (elem_of_concat_2 _ (report_events g)); apply list_elem_of_fmap;
        [by exists r|by exists g]. }
    destruct (proj1 (Forall_forall _ _) Hfrom _ Hin) as [e ->]. apply Hquiet. }
  destruct (quiet_results requests gs Hall) as [Houts Hfin].
  rewrite Houts, Hfin in Hrun.
  exists s1. split; [exact Hrun|].
  split; [unfold ActionStepPostProcess; by rewrite (bind_Ok _ _ _ _ _ Hrun)|].
  split; [|done].
  unfold calls_since. rewrite Htr, drop_app_length. apply Forall_app. split.
  - eapply Forall_impl; [exact Hplain|]. by intros ev [H1 _].
  - apply Forall_concat, Forall_fmap, Forall_forall. intros g _.
    apply Forall_fmap, Forall_forall. intros r _ H. exact H.
Qed.

(** ** The stream callback of a step and its batch *)

Lemma make_output_stream_output (req : Request) (g : list (EntryRef * DeltaRequestReturn)) :
  make_output req (snd <$> g) = stream_output req g.
Proof.
  unfold make_output, stream_output. rewrite <- !list_fmap_compose.
  f_equal. destruct (Z.ltb_spec 0 (logprobs (generation_cfg req))).
  - by rewrite decide_True.
  - rewrite decide_False; [done|lia].
Qed.

Lemma invoke_callback_Exists (g : list (EntryRef * DeltaRequestReturn)) :
  invoke_callback (snd <$> g) = true <-> Exists (fun r => new_delta r.2) g.
Proof.
  rewrite invoke_callback_true, Exists_exists. split.
  - intros (d & Hd & Hnew). apply list_elem_of_fmap in Hd as (r & -> & Hr). by exists r.
  - intros (r & Hr & Hnew). exists r.2. split; [|done]. apply list_elem_of_fmap. by exists r.
Qed.

Lemma results_batch (requests : list Request)
    (gs : list (list (EntryRef * DeltaRequestReturn))) :
  omap fst (zip_with request_result requests gs) = batch_of requests gs.
Proof.
  unfold batch_of. revert gs. induction requests as [|req requests IH]; intros [|g gs];
    try done.
  cbn [zip_with zip omap list_omap]. change (zip_with pair requests gs) with (zip requests gs).
  rewrite <- IH. unfold request_result at 1. cbn [fst snd].
  destruct (invoke_callback (snd <$> g)) eqn:Hinv.
  - rewrite decide_True by (by apply invoke_callback_Exists).
    by rewrite make_output_stream_output.
  - rewrite decide_False; [done|]. intros Hex. apply invoke_callback_Exists in Hex. congruence.
Qed.

Lemma CollectStep_exact
    (GetReturnTokenIds : Z -> RequestStateEntry -> DeltaRequestReturn * RequestStateEntry)
    (max_single_sequence_length : Z) (requests : list Request) (s : Machine) :
  requests_known s requests ->
  store_ready (prefix_cache s) (rstate_store s) ->
  generations_present s requests ->
  exists gs s1 pre,
    CollectStep GetReturnTokenIds requests max_single_sequence_length s
      = Ok (omap fst (zip_with request_result requests gs),
            concat (snd <$> zip_with request_result requests gs)) s1 /\
    Forall2 (fun req g => fst <$> g = generation_refs req) requests gs /\
    trace s1 = trace s ++ pre ++ concat (report_events <$> gs) /\
    Forall plain_call pre /\
    request_states s1 = request_states s /\
    running_queue s1 = running_queue s /\
    (NoDup (requests ≫= generation_refs) ->
     Forall (Forall (delta_of GetReturnTokenIds max_single_sequence_length s)) gs).
Proof.
  intros Hknown Hready Hgen.
  destruct (CountPrefilled_run requests s Hknown) as (st' & Hrun_a).
  { intros h e He. destruct (Hready h e He) as (m0 & Hm0 & _). by exists m0. }
  set (sa := set_stats st' s) in *.
  destruct (UpdatePrefixCache_settles (prefix_cache s) requests sa)
    as (sb & Hrun_b & Hsb & _ & _ & Hfb); [done..|].
  pose proof (stable_final _ _ sa (UpdatePrefixCache_plain sa requests)
                (extends_by_refl _ sa)) as (pre & Hpre & Hplain).
  rewrite Hrun_b in Hpre. simpl in Hpre.
  destruct Hfb as (Hrq_b & Hq_b & _).
  destruct (CollectRequests_exact GetReturnTokenIds max_single_sequence_length requests sb)
    as (gs & s1 & Hrun_c & Hgs & Htr_c & Hfc & Hex).
  { eapply Forall_impl; [exact Hknown|]. intros r [Hr1 Hr2]. split; [by rewrite Hrq_b|].
    rewrite Hsb. by apply settle_all_is_Some. }
  { eapply Forall_impl; [exact Hgen|]. intros r Hr. eapply Forall_impl; [exact Hr|].
    intros h Hh. unfold lookup_entry. rewrite Hsb. by apply settle_all_lookup_is_Some. }
  destruct Hfc as (Hrq_c & Hq_c & _).
  exists gs, s1, pre. split.
  { unfold CollectStep.
    rewrite (bind_Ok _ _ _ _ _ Hrun_a), (bind_Ok _ _ _ _ _ Hrun_b).
    by rewrite (bind_Ok _ _ _ _ _ Hrun_c). }
  split; [exact Hgs|]. split; [by rewrite Htr_c, Hpre, <- app_assoc|].
  split; [exact Hplain|]. split; [by rewrite Hrq_c, Hrq_b|].
  split; [by rewrite Hq_c, Hq_b|].
  intros Hnd. apply Forall_forall. intros g Hg. apply Forall_forall. intros r Hr.
  destruct (proj1 (Forall_forall _ _) (proj1 (Forall_forall _ _) (Hex Hnd) g Hg) r Hr)
    as (e & He & Hd).
  destruct (report_events_generation requests gs r.1 r.2 Hgs) as (req & Hreq & Hh).
  { apply (elem_of_concat_2 _ (report_events g)); apply list_elem_of_fmap;
      [by exists r|by exists g]. }
  unfold lookup_entry in He. rewrite Hsb, settle_all_lookup in He.
  change (rstate_store sa) with (rstate_store s) in He.
  destruct (store_lookup (rstate_store s) r.1) as [e0|] eqn:He0; [|done].
  exists e0. split; [exact He0|]. rewrite Hd. simpl in He.
  rewrite decide_True in He; [by injection He as <-|].
  apply list_elem_of_bind. exists req. split; [|exact Hreq].
  pose proof (generation_refs_key req r.1 Hh) as Hkey.
  destruct r as [[r1 r2] d]. simpl in *. subst r1. by eapply entry_refs_elem.
Qed.

(** C6. One [ActionStepPostProcess] on requests that are known, ready for
    [UpdatePrefixCache] and have their generation entries: the collection
    gets to the stream callback, which is invoked once, with a batch
    [outs], in a world [s1] in which nothing has been erased from
    [request_states] or [running_queue]; no other callback is made before
    or after it, whatever the outcome of the processing of the finished
    entries that follows.  Before the callback [GetReturnTokenIds] is
    called once for every generation entry of every request, in order, and
    for no other entry, after the calls of the reconciliation; every delta
    reported is one it returned, and, where no entry is visited twice, the
    one it returned for that entry as the reconciliation left it.  The
    batch is, in the order of the requests, the output of every request
    for one of whose generation entries delta tokens or a finish reason
    were returned in this step, and of no other; an output carries the [n]
    deltas and finish reasons of its request, and the log-probabilities
    exactly when [logprobs > 0]. *)
Theorem stream_callback_once (now : nat -> Z)
    (GetReturnTokenIds : Z -> RequestStateEntry -> DeltaRequestReturn * RequestStateEntry)
    (fuel : nat) (requests : list Request) (max_single_sequence_length : Z) (s : Machine) :
  requests_known s requests ->
  store_ready (prefix_cache s) (rstate_store s) ->
  generations_present s requests ->
  exists outs finished_rsentries s1 before after gs,
    CollectStep GetReturnTokenIds requests max_single_sequence_length s
      = Ok (outs, finished_rsentries) s1 /\
    ActionStepPostProcess now GetReturnTokenIds fuel requests max_single_sequence_length s
      = ProcessFinishedRequestStateEntries now fuel finished_rsentries
          (emit (EvStreamCallback outs) s1) /\
    request_states s1 = request_states s /\
    running_queue s1 = running_queue s /\
    trace s1 = trace s ++ before /\
    trace (final (ActionStepPostProcess now GetReturnTokenIds fuel requests
                    max_single_sequence_length s))
      = trace s ++ before ++ [EvStreamCallback outs] ++ after /\
    Forall no_callback before /\
    Forall no_callback after /\
    (forall rid,
       (exists out, out ∈ outs /\ request_id out = rid) <->
       (exists h d, EvGetReturnTokenIds h d ∈ before /\ h.1 = rid /\ new_delta d)) /\
    (forall h d, EvGetReturnTokenIds h d ∈ before ->
       exists req, req ∈ requests /\ h ∈ generation_refs req) /\
    (forall out, out ∈ outs ->
       exists req, req ∈ requests /\ request_id out = id req /\
         (is_Some (group_delta_logprob_json_strs out) <-> 0 < logprobs (generation_cfg req)) /\
         length (group_delta_token_ids out) = Z.to_nat (n (generation_cfg req)) /\
         length (group_finish_reason out) = Z.to_nat (n (generation_cfg req))) /\
    reported_entries before = requests ≫= generation_refs /\
    Forall (reports_from GetReturnTokenIds max_single_sequence_length) before /\
    (exists pre, before = pre ++ concat (report_events <$> gs) /\ Forall plain_call pre) /\
    Forall2 (fun req g => fst <$> g = generation_refs req) requests gs /\
    outs = batch_of requests gs /\
    finished_rsentries = concat (finished_of <$> gs) /\
    (NoDup (requests ≫= generation_refs) ->
     Forall (Forall (delta_of GetReturnTokenIds max_single_sequence_length s)) gs).
Proof.
  intros Hknown Hready Hgen.
  destruct (CollectStep_exact GetReturnTokenIds max_single_sequence_length requests s
              Hknown Hready Hgen)
    as (gs & s1 & pre & Hcollect & Hgs & Htr1 & Hplain & Hrq & Hq & Hex).
  pose proof (stable_final _ _ s
                (CollectStep_reports_from GetReturnTokenIds max_single_sequence_length
                   s requests) (extends_by_refl _ s)) as (evs & Hevs & Hfrom).
  rewrite Hcollect in Hevs. simpl in Hevs. rewrite Htr1 in Hevs.
  apply app_inv_head in Hevs. subst evs.
  set (rets := zip_with request_result requests gs) in *.
  set (scb := emit (EvStreamCallback (omap fst rets)) s1).
  pose proof (stable_final _ _ scb
                (ProcessFinished_no_callback now scb fuel (concat (snd <$> rets)))
                (extends_by_refl _ scb)) as (post & Hpost & Hquiet).
  assert (ActionStepPostProcess now GetReturnTokenIds fuel requests
            max_single_sequence_length s
          = ProcessFinishedRequestStateEntries now fuel (concat (snd <$> rets)) scb) as Hstep.
  { unfold ActionStepPostProcess. by rewrite (bind_Ok _ _ _ _ _ Hcollect). }
  exists (omap fst rets), (concat (snd <$> rets)), s1,
    (pre ++ concat (report_events <$> gs)), post, gs.
  split; [exact Hcollect|]. split; [exact Hstep|].
  split; [exact Hrq|]. split; [exact Hq|]. split; [exact Htr1|].
  split.
  { rewrite Hstep, Hpost. subst scb. simpl. rewrite Htr1. by rewrite <- !app_assoc. }
  split.
  { apply Forall_app. split.
    - eapply Forall_impl; [exact Hplain|]. by intros ev [H1 _].
    - apply Forall_concat, Forall_fmap, Forall_forall. intros g _.
      apply Forall_fmap, Forall_forall. intros r _ H. exact H. }
  split; [exact Hquiet|].
  split.
  { intros rid. etrans; [apply (batch_outputs requests gs rid Hgs)|].
    split; intros (h & d & Hev & Hrest); exists h, d; (split; [|done]).
    - apply elem_of_app. by right.
    - apply elem_of_app in Hev as [Hev|Hev]; [|done].
      by apply plain_call_not_report in Hev. }
  split.
  { intros h d Hev. apply elem_of_app in Hev as [Hev|Hev].
    - by apply plain_call_not_report in Hev.
    - by apply (report_events_generation requests gs h d Hgs). }
  split; [intros out Hout; by apply (batch_shape requests gs)|].
  split.
  { by rewrite reported_entries_app, (reported_entries_plain pre Hplain),
      (reported_entries_generations requests gs Hgs). }
  split; [exact Hfrom|].
  split; [by exists pre|]. split; [exact Hgs|].
  split; [apply results_batch|].
  split; [by apply finished_of_results|exact Hex].
Qed.

Lemma stream_callback_once_witness :
  requests_known world_a [request_a] /\
  store_ready (prefix_cache world_a) (rstate_store world_a) /\
  generations_present world_a [request_a] /\
  exists outs before after,
    trace (final (ActionStepPostProcess clock_1000 reports_stop 1 [request_a] 100 world_a))
      = before ++ [EvStreamCallback outs] ++ after /\
    Forall no_callback before /\
    Forall no_callback after /\
    reported_entries before = [("a", 0%nat)] /\
    outs = [ {| request_id := "a"; group_delta_token_ids := [[9]];
                group_delta_logprob_json_strs := None;
                group_finish_reason := [Some "stop"] |} ].
Proof.
  split; [exact world_a_known|]. split; [exact world_a_ready|].
  split; [exact world_a_generations|].
  destruct (stream_callback_once clock_1000 reports_stop 1 [request_a] 100 world_a
              world_a_known world_a_ready world_a_generations)
    as (outs & fin & s1 & before & after & gs & Hcollect & _ & _ & _ & _ & Htr & Hb & Ha
        & _ & _ & _ & Hrep & _).
  exists outs, before, after. split; [exact Htr|]. split; [exact Hb|]. split; [exact Ha|].
  split; [exact Hrep|].
  transitivity (match CollectStep reports_stop [request_a] 100 world_a with
                | Ok r _ => r.1
                | _ => []
                end).
  - by rewrite Hcollect.
  - vm_compute. reflexivity.
Defined.

(** ** A request without one of its generation entries *)

Section Missing.

Variable GetReturnTokenIds : Z -> RequestStateEntry -> DeltaRequestReturn * RequestStateEntry.
Variable max_single_sequence_length : Z.

Lemma CollectEntries_missing (req : Request) (l : list nat) (s : Machine) :
  Exists (fun i => lookup_entry s (generation_ref req i) = None) l ->
  exists s',
    mapM (CollectEntry GetReturnTokenIds max_single_sequence_length (id req)
            (n (generation_cfg req))) l s = Fault s'.
Proof.
  revert s. induction l as [|i l IH]; intros s Hex.
  - by apply Exists_nil in Hex.
  - cbn [mapM]. destruct (lookup_entry s (generation_ref req i)) as [e|] eqn:He.
    + apply Exists_cons in Hex as [Hex|Hex]; [congruence|].
      pose proof (CollectEntry_run GetReturnTokenIds max_single_sequence_length
                    req i s e He) as Hrun.
      simpl in Hrun. rewrite (bind_Ok _ _ _ _ _ Hrun).
      set (s1 := emit _ _).
      assert (collect_frame s s1) as (_ & _ & Hl & _)
        by (by eapply collect_frame_store_write).
      destruct (IH s1) as [s' Hs'].
      { eapply Exists_impl; [exact Hex|]. intros j Hj. apply eq_None_not_Some.
        rewrite Hl, Hj. by intros [? ?]. }
      exists s'. by rewrite (bind_Fault _ _ _ _ Hs').
    + exists s. apply bind_Fault. unfold CollectEntry. cbv zeta.
      apply bind_Fault. by apply load_entry_None.
Qed.

Lemma CollectRequest_missing (req : Request) (s : Machine) :
  id req ∈ request_states s -> is_Some (rstate_store s !! id req) ->
  ~ Forall (fun h => is_Some (lookup_entry s h)) (generation_refs req) ->
  exists s', CollectRequest GetReturnTokenIds max_single_sequence_length req s = Fault s'.
Proof.
  intros Hin Hrs Hn. unfold CollectRequest. cbv zeta.
  rewrite (bind_Ok _ _ _ _ _ (GetRequestState_Ok _ _ Hin Hrs)).
  destruct (CollectEntries_missing req (seq 0 (Z.to_nat (n (generation_cfg req)))) s)
    as [s' Hs'].
  { apply not_Forall_Exists in Hn; [|apply _].
    apply Exists_exists in Hn as (h & Hh & Hnone).
    apply list_elem_of_fmap in Hh as (i & -> & Hi).
    apply Exists_exists. exists i. split; [done|]. by apply eq_None_not_Some. }
  exists s'. by rewrite (bind_Fault _ _ _ _ Hs').
Qed.

Lemma CollectRequests_missing (requests : list Request) (s : Machine) :
  requests_known s requests ->
  ~ generations_present s requests ->
  exists s',
    mapM (CollectRequest GetReturnTokenIds max_single_sequence_length) requests s = Fault s'.
Proof.
  revert s. induction requests as [|req requests IH]; intros s Hknown Hn.
  - destruct Hn. constructor.
  - apply Forall_cons in Hknown as [[Hin Hrs] Hknown]. cbn [mapM].
    destruct (decide (Forall (fun h => is_Some (lookup_entry s h)) (generation_refs req)))
      as [Hg|Hg].
    + destruct (CollectRequest_run GetReturnTokenIds max_single_sequence_length
                  req s Hin Hrs Hg) as (g & s1 & Hrun & _ & _ & Hf1).
      rewrite (bind_Ok _ _ _ _ _ Hrun).
      destruct Hf1 as (Hrq & _ & Hl & Hst).
      destruct (IH s1) as [s' Hs'].
      { eapply Forall_impl; [exact Hknown|].
        intros r [Hr1 Hr2]. split; [by rewrite Hrq|by apply Hst]. }
      { intros Hgen. apply Hn. constructor; [exact Hg|].
        eapply Forall_impl; [exact Hgen|]. intros r Hr.
        eapply Forall_impl; [exact Hr|]. intros h Hh. by apply Hl. }
      exists s'. by rewrite (bind_Fault _ _ _ _ Hs').
    + destruct (CollectRequest_missing req s Hin Hrs Hg) as [s' Hs'].
      exists s'. by rewrite (bind_Fault _ _ _ _ Hs').
Qed.

Lemma CollectStep_no_callback (s0 : Machine) (requests : list Request) :
  stable (extends_by no_callback s0)
    (CollectStep GetReturnTokenIds requests max_single_sequence_length).
Proof.
  unfold CollectStep, UpdatePrefixCache, for_each_entry, CountPrefilledEntry,
    UpdatePrefixCacheEntry, update_mstate0, CollectRequest, CollectEntry, store_entry,
    call_ExtendSequence.
  repeat (cbv zeta; stable_step);
    first [ eapply extends_by_same; [reflexivity|eassumption]
          | eapply extends_by_app;
              [simpl; reflexivity
              |repeat first [apply Forall_cons_2|apply Forall_nil_2];
               let HF := fresh in intros HF; exact HF
              |eassumption] ].
Qed.

Lemma CollectStep_keeps_queue (rs0 : gset string) (q0 : list Request)
    (requests : list Request) :
  stable (fun s => request_states s = rs0 /\ running_queue s = q0)
    (CollectStep GetReturnTokenIds requests max_single_sequence_length).
Proof.
  assert (forall s s', retire_frame s s' ->
            request_states s = rs0 /\ running_queue s = q0 ->
            request_states s' = rs0 /\ running_queue s' = q0) as Hframe.
  { intros s s' (_ & Hq & _ & Hrs & _) [H1 H2]. by rewrite Hq, Hrs. }
  unfold CollectStep. apply stable_bind.
  { unfold for_each_entry, CountPrefilledEntry. repeat stable_step; done. }
  intros _. apply stable_bind.
  { apply stable_of_frame; [exact Hframe|]. intros s0. apply UpdatePrefixCache_frame. }
  intros _. apply stable_bind; [|intros rets; stable_step].
  apply stable_of_frame; [exact Hframe|]. intros s0. apply CollectRequests_frame.
Qed.

End Missing.

(** X7. When a request of the step lacks one of the entries its [n]
    generations are read from ([entries[0]] for [n = 1], [entries[i + 1]]
    otherwise), [ActionStepPostProcess] fails in the collection: no stream
    callback is invoked, and nothing is taken from [request_states] or
    [running_queue]. *)
Theorem missing_generation_entry_faults (now : nat -> Z)
    (GetReturnTokenIds : Z -> RequestStateEntry -> DeltaRequestReturn * RequestStateEntry)
    (fuel : nat) (requests : list Request) (max_single_sequence_length : Z) (s : Machine) :
  requests_known s requests ->
  store_ready (prefix_cache s) (rstate_store s) ->
  ~ generations_present s requests ->
  exists s',
    ActionStepPostProcess now GetReturnTokenIds fuel requests max_single_sequence_length s
      = Fault s' /\
    Forall no_callback (calls_since s s') /\
    request_states s' = request_states s /\
    running_queue s' = running_queue s.
Proof.
  intros Hknown Hready Hn.
  destruct (CountPrefilled_run requests s Hknown) as (st' & Hrun_a).
  { intros h e He. destruct (Hready h e He) as (m0 & Hm0 & _). by exists m0. }
  set (sa := set_stats st' s) in *.
  destruct (UpdatePrefixCache_settles (prefix_cache s) requests sa)
    as (sb & Hrun_b & Hsb & _ & _ & Hfb); [done..|].
  destruct Hfb as (Hrq_b & Hq_b & _).
  destruct (CollectRequests_missing GetReturnTokenIds max_single_sequence_length
              requests sb) as [s' Hrun_c].
  { eapply Forall_impl; [exact Hknown|]. intros r [Hr1 Hr2]. split; [by rewrite Hrq_b|].
    rewrite Hsb. by apply settle_all_is_Some. }
  { intros Hgen. apply Hn. eapply Forall_impl; [exact Hgen|]. intros r Hr.
    eapply Forall_impl; [exact Hr|]. intros h Hh.
    unfold lookup_entry in Hh. rewrite Hsb in Hh. by apply settle_all_lookup_is_Some in Hh. }
  assert (CollectStep GetReturnTokenIds requests max_single_sequence_length s = Fault s')
    as Hcollect.
  { unfold CollectStep.
    rewrite (bind_Ok _ _ _ _ _ Hrun_a), (bind_Ok _ _ _ _ _ Hrun_b).
    by rewrite (bind_Fault _ _ _ _ Hrun_c). }
  exists s'. split; [unfold ActionStepPostProcess; by rewrite (bind_Fault _ _ _ _ Hcollect)|].
  pose proof (stable_final _ _ s
                (CollectStep_no_callback GetReturnTokenIds max_single_sequence_length
                   s requests) (extends_by_refl _ s)) as (evs & Hevs & Hquiet).
  pose proof (stable_final _ _ s
                (CollectStep_keeps_queue GetReturnTokenIds max_single_sequence_length
                   (request_states s) (running_queue s) requests) (conj eq_refl eq_refl))
    as Hkeep.
  rewrite Hcollect in Hevs, Hkeep. simpl in Hevs, Hkeep.
  split; [|exact Hkeep].
  unfold calls_since. by rewrite Hevs, drop_app_length.
Qed.

(** ** What preemption leaves alone *)

Lemma Forall2_fmap_self {A : Type} (R : A -> A -> Prop) (f : A -> A) (l : list A) :
  (forall x, R x (f x)) -> Forall2 R l (f <$> l).
Proof. intros H. induction l; constructor; auto. Qed.

(** X8. Preemption changes one entry and the queues: every other entry,
    the statistics, [request_states] and the clock are as before; the
    preempted entry keeps its request, its place in the tree, its callback
    position and its time points, and each of its model states keeps its
    model id and its committed tokens; without a draft token workspace the
    draft tokens and their slots stay and no slot is freed. *)
Theorem preemption_frame (workspace : bool) (s : Machine) (req : Request)
    (rs : RequestState) (k : nat) (e : RequestStateEntry) (m0 : RequestModelState) :
  preemptible s req rs k e m0 ->
  exists s' e',
    PreemptLastRunningRequestStateEntry workspace s = Ok (id req, k) s' /\
    lookup_entry s' (id req, k) = Some e' /\
    (forall h, h <> (id req, k) -> lookup_entry s' h = lookup_entry s h) /\
    stats s' = stats s /\
    request_states s' = request_states s /\
    clock_reads s' = clock_reads s /\
    request e' = request e /\
    parent_idx e' = parent_idx e /\
    child_indices e' = child_indices e /\
    next_callback_token_pos e' = next_callback_token_pos e /\
    tadd e' = tadd e /\
    tprefill_finish e' = tprefill_finish e /\
    Forall2 (fun m m' =>
               model_id m' = model_id m /\
               committed_tokens m' = committed_tokens m /\
               (workspace = false ->
                draft_output_tokens m' = draft_output_tokens m /\
                draft_token_slots m' = draft_token_slots m))
            (mstates e) (mstates e') /\
    (workspace = false -> Forall (fun ev => ~ is_FreeSlots ev) (calls_since s s')).
Proof.
  intros Hpre.
  destruct (Preempt_run workspace s req rs k e m0 Hpre)
    as (s' & Hrun & Hs' & Htr & _ & _ & _ & _ & Hrq & Hst & Hck).
  destruct Hpre as [Hlast Hknown Hrs Hsize Halive He Hm0 Hinp].
  assert (lookup_entry s (id req, k) = Some e) as Hle by (apply store_lookup_Some; eauto).
  eexists s', _. split; [exact Hrun|].
  split; [by eapply lookup_entry_store_write|].
  split.
  { intros h Hne. unfold lookup_entry. by rewrite Hs', store_lookup_write, decide_False. }
  do 9 (split; [done|]). split.
  - simpl. apply Forall2_fmap_self. intros m. unfold restarted, preempted.
    destruct workspace; simpl; repeat split; try done; intros [=].
  - intros ->. unfold calls_since. rewrite Htr, drop_app_length. simpl.
    apply Forall_app. split.
    + unfold release_calls. destruct (HasSequence _ _).
      * constructor; [|constructor]. intros H. exact H.
      * apply Forall_fmap, Forall_forall. intros j _ H. exact H.
    + constructor; [|constructor]. intros H. exact H.
Qed.

(** X9. The calls of a preemption, in order: with a draft token workspace
    one [FreeSlots] per model state of the entry; then the release of the
    sequence, one eager [RecycleSequence] when the prefix cache holds it
    and otherwise one [RemoveSequence] on every model in turn; then one
    [GetNewId], whose result every model state of the entry carries. *)
Theorem preemption_calls (workspace : bool) (s : Machine) (req : Request)
    (rs : RequestState) (k : nat) (e : RequestStateEntry) (m0 : RequestModelState) :
  preemptible s req rs k e m0 ->
  exists s' e' slots new_seq_id,
    PreemptLastRunningRequestStateEntry workspace s = Ok (id req, k) s' /\
    lookup_entry s' (id req, k) = Some e' /\
    length slots = length (mstates e) /\
    calls_since s s' =
      (if workspace then EvFreeSlots <$> slots else []) ++
      (if HasSequence (prefix_cache s) (internal_id m0)
       then [EvRecycleSequence (internal_id m0) false]
       else (fun j => EvRemoveSequence j (internal_id m0)) <$> seq 0 (length (models s))) ++
      [EvGetNewId new_seq_id] /\
    Forall (fun m' => internal_id m' = new_seq_id) (mstates e').
Proof.
  intros Hpre.
  destruct (Preempt_run workspace s req rs k e m0 Hpre)
    as (s' & Hrun & Hs' & Htr & _).
  destruct Hpre as [Hlast Hknown Hrs Hsize Halive He Hm0 Hinp].
  assert (lookup_entry s (id req, k) = Some e) as Hle by (apply store_lookup_Some; eauto).
  eexists s', _, (draft_token_slots <$> mstates e), _.
  split; [exact Hrun|].
  split; [by eapply lookup_entry_store_write|].
  split; [by rewrite length_fmap|].
  split.
  - unfold calls_since. rewrite Htr, drop_app_length. unfold release_calls.
    by rewrite <- list_fmap_compose.
  - simpl. apply Forall_fmap, Forall_forall. by intros m _.
Qed.

(** ** The inputs preemption rebuilds *)

Lemma sum_lengths_app (l l' : list Data) :
  sum_lengths (l ++ l') = sum_lengths l + sum_lengths l'.
Proof. induction l as [|d l IH]; simpl; [done|]. unfold sum_lengths in *. simpl. lia. Qed.

Lemma length_committed_token_ids (m : RequestModelState) :
  length (committed_token_ids m) = length (committed_tokens m).
Proof. unfold committed_token_ids. by rewrite length_fmap. Qed.

Lemma committed_token_ids_nil (m : RequestModelState) :
  committed_token_ids m = [] -> length (committed_tokens m) = 0%nat.
Proof. intros H. by rewrite <- length_committed_token_ids, H. Qed.

Lemma sum_lengths_rebuilt (req : Request) (p : Z) (m : RequestModelState) :
  (p = -1 -> req_inputs req <> []) ->
  sum_lengths (rebuilt req p m) = restart_length req p (length (committed_tokens m)).
Proof.
  intros Hin. unfold restart_length. destruct (decide (p = -1)) as [->|Hp].
  - destruct (last (req_inputs req)) as [back|] eqn:Hlast;
      [|apply last_None in Hlast; by destruct Hin].
    apply last_Some in Hlast as [front Hfront].
    destruct back as [ids|len].
    + rewrite (rebuilt_root_token req m front ids Hfront), Hfront, !sum_lengths_app.
      unfold sum_lengths; simpl.
      rewrite length_app, length_fmap, length_committed_token_ids. lia.
    + rewrite (rebuilt_root_other req m front len Hfront).
      case_decide as Hc.
      * rewrite (committed_token_ids_nil m Hc). lia.
      * rewrite sum_lengths_app. unfold sum_lengths at 2; simpl.
        rewrite length_committed_token_ids. lia.
  - rewrite (rebuilt_child req p m Hp). case_decide as Hc.
    + rewrite (committed_token_ids_nil m Hc). done.
    + unfold sum_lengths; simpl. rewrite length_committed_token_ids. lia.
Qed.

(** X10. The inputs preemption rebuilds for a model state have the length
    of the request's inputs, for a root entry, plus the number of its
    committed tokens: the next prefill recomputes all of the prompt and of
    what was generated, and nothing else. *)
Theorem preemption_inputs_length (workspace : bool) (s : Machine) (req : Request)
    (rs : RequestState) (k : nat) (e : RequestStateEntry) (m0 : RequestModelState) :
  preemptible s req rs k e m0 ->
  exists s' e',
    PreemptLastRunningRequestStateEntry workspace s = Ok (id req, k) s' /\
    lookup_entry s' (id req, k) = Some e' /\
    Forall2 (fun m m' =>
               sum_lengths (inputs m')
               = restart_length req (parent_idx e) (length (committed_tokens m)))
            (mstates e) (mstates e').
Proof.
  intros Hpre.
  destruct (Preempt_run workspace s req rs k e m0 Hpre)
    as (s' & Hrun & Hs' & _).
  destruct Hpre as [Hlast Hknown Hrs Hsize Halive He Hm0 Hinp].
  assert (lookup_entry s (id req, k) = Some e) as Hle by (apply store_lookup_Some; eauto).
  eexists s', _. split; [exact Hrun|].
  split; [by eapply lookup_entry_store_write|].
  simpl. apply Forall2_fmap_self. intros m. simpl.
  by apply sum_lengths_rebuilt.
Qed.

Lemma to_int_range (z : Z) : is_int32 (to_int z).
Proof.
  unfold is_int32, to_int.
  pose proof (Z.mod_pos_bound (z + 2 ^ 31) (2 ^ 32) ltac:(lia)). lia.
Qed.

Lemma to_int_fmap_fixed (l : list Z) : to_int <$> l = l <-> Forall is_int32 l.
Proof.
  split; [|apply to_int_fmap_id].
  induction l as [|z l IH]; [constructor|].
  rewrite fmap_cons. intros [= Hz Hl]. constructor; [|by apply IH].
  rewrite <- Hz. apply to_int_range.
Qed.

(** X11. When the root entry is preempted and the last input block of the
    request is token data, the rebuilt inputs end in one block holding
    those token ids converted to [int], followed by the committed token
    ids; the prompt tokens come back unchanged exactly when every one of
    them is within the range of [int]. *)
Theorem preemption_narrows_prompt_tokens (workspace : bool) (s : Machine) (req : Request)
    (rs : RequestState) (k : nat) (e : RequestStateEntry) (m0 : RequestModelState)
    (front : list Data) (ids : list Z) :
  preemptible s req rs k e m0 ->
  parent_idx e = -1 ->
  req_inputs req = front ++ [TokenData ids] ->
  exists s' e',
    PreemptLastRunningRequestStateEntry workspace s = Ok (id req, k) s' /\
    lookup_entry s' (id req, k) = Some e' /\
    Forall2 (fun m m' =>
               inputs m' = front ++ [TokenData ((to_int <$> ids) ++ committed_token_ids m)])
            (mstates e) (mstates e') /\
    (to_int <$> ids = ids <-> Forall is_int32 ids).
Proof.
  intros Hpre Hroot Hin.
  destruct (Preempt_run workspace s req rs k e m0 Hpre)
    as (s' & Hrun & Hs' & _).
  destruct Hpre as [Hlast Hknown Hrs Hsize Halive He Hm0 Hinp].
  assert (lookup_entry s (id req, k) = Some e) as Hle by (apply store_lookup_Some; eauto).
  eexists s', _. split; [exact Hrun|].
  split; [by eapply lookup_entry_store_write|].
  split; [|apply to_int_fmap_fixed].
  simpl. apply Forall2_fmap_self. intros m. simpl.
  rewrite Hroot. by apply rebuilt_root_token.
Qed.

(** ** When preemption returns *)

Lemma GetRequestState_Fault (s : Machine) (req : Request) :
  ~ (id req ∈ request_states s /\ is_Some (rstate_store s !! id req)) ->
  GetRequestState req s = Fault s.
Proof.
  intros Hn. unfold GetRequestState. cbn [bind gets].
  case_bool_decide as Hin; [|done]. cbn [ICHECK bind ret].
  unfold load_rstate, bind, gets, deref.
  destruct (rstate_store s !! id req) as [rs|] eqn:Hrs; [|done].
  destruct Hn. split; [done|by eexists].
Qed.

Lemma draft_tokens_removed (workspace : bool) (h : EntryRef) (j : nat) (s : Machine)
    (e : RequestStateEntry) (m : RequestModelState) :
  lookup_entry s h = Some e ->
  mstates e !! j = Some m ->
  let ma := if workspace then (RemoveAllDraftTokens m).2 else m in
  exists sa,
    (if workspace then
       let* e0 := load_entry h in
       let* m1 := deref (mstates e0 !! j) in
       update_mstate h j (fun m2 => (RemoveAllDraftTokens m2).2) ;;;
       modify (emit (EvFreeSlots (RemoveAllDraftTokens m1).1))
     else ret tt) s = Ok tt sa /\
    lookup_entry sa h = Some (entry_with e j ma).
Proof.
  intros He Hm ma. subst ma. destruct workspace.
  - rewrite (bind_Ok _ _ _ _ _ (load_entry_Ok _ _ _ He)), Hm. cbn [deref bind ret].
    destruct (update_mstate_run s h j e m (fun m2 => (RemoveAllDraftTokens m2).2) He Hm)
      as (s1 & Hr1 & He1 & _).
    rewrite (bind_Ok _ _ _ _ _ Hr1). eexists. split; [reflexivity|]. exact He1.
  - exists s. split; [done|].
    assert (entry_with e j m = e) as ->; [|done].
    unfold entry_with. rewrite (list_insert_id _ _ _ Hm). apply set_mstates_id.
Qed.

(** [inputs.back()] on the empty inputs of a request. *)
Lemma PreemptModelState_no_inputs (workspace : bool) (req : Request) (h : EntryRef)
    (j : nat) (s : Machine) (e : RequestStateEntry) (m : RequestModelState) :
  lookup_entry s h = Some e ->
  mstates e !! j = Some m ->
  parent_idx e = -1 ->
  req_inputs req = [] ->
  exists s', PreemptModelState workspace req h j s = Fault s'.
Proof.
  intros He Hm Hp Hin. unfold PreemptModelState.
  destruct (draft_tokens_removed workspace h j s e m He Hm) as (sa & Hruna & Hea).
  set (ma := if workspace then (RemoveAllDraftTokens m).2 else m) in *.
  rewrite (bind_Ok _ _ _ _ _ Hruna).
  rewrite (bind_Ok _ _ _ _ _ (load_entry_Ok _ _ _ Hea)).
  pose proof (entry_with_lookup e j m ma Hm) as Hma. rewrite Hma. cbn [deref bind ret].
  destruct (update_mstate_run sa h j _ ma (set_num_prefilled_tokens 0) Hea Hma)
    as (s1 & Hr1 & _).
  rewrite (bind_Ok _ _ _ _ _ Hr1).
  change (parent_idx (entry_with e j ma)) with (parent_idx e).
  unfold rebuild_inputs. rewrite Hp, Hin. simpl. by exists s1.
Qed.

Lemma Preempt_Ok_inv (workspace : bool) (s s' : Machine) (h : EntryRef) :
  (forall r rs, rstate_store s !! r = Some rs -> Z.of_nat (length (entries rs)) < 2 ^ 31) ->
  PreemptLastRunningRequestStateEntry workspace s = Ok h s' ->
  exists req rs k e m0, preemptible s req rs k e m0.
Proof.
  intros Hsize. unfold PreemptLastRunningRequestStateEntry. cbn [bind gets].
  destruct (running_queue s) as [|r0 q] eqn:Hq; [by rewrite bool_decide_true|].
  rewrite bool_decide_false by done. cbn [negb ICHECK bind ret].
  destruct (last (r0 :: q)) as [req|] eqn:Hlast; [|done]. cbn [deref bind ret].
  destruct (decide (id req ∈ request_states s /\ is_Some (rstate_store s !! id req)))
    as [[Hknown [rs Hrs]]|Hn]; cycle 1.
  { by rewrite (bind_Fault _ _ _ _ (GetRequestState_Fault _ _ Hn)). }
  rewrite (bind_Ok _ _ _ _ _ (GetRequestState_Ok _ _ Hknown (ex_intro _ rs Hrs))).
  rewrite (bind_Ok _ _ _ _ _ (load_rstate_Ok _ _ _ Hrs)).
  pose proof (Hsize _ _ Hrs) as Hlen.
  rewrite to_int_small by lia. rewrite Nat2Z.id.
  destruct (find_last_alive (length (entries rs)) (entries rs)) as [k|] eqn:Halive; [|done].
  cbn [deref bind ret].
  destruct (find_last_alive_Some _ _ _ Halive) as (_ & (e & He & _) & _).
  assert (lookup_entry s (id req, k) = Some e) as Hle by (apply store_lookup_Some; eauto).
  rewrite (bind_Ok _ _ _ _ _ (load_entry_Ok _ _ _ Hle)).
  destruct (mstates e !! 0%nat) as [m0|] eqn:Hm0; [|done]. cbn [deref bind ret].
  destruct (decide (parent_idx e = -1 /\ req_inputs req = [])) as [[Hp Hin]|Hn].
  - unfold store_entry at 1. cbn [bind modify].
    set (ep := set_status kPending e). set (sp := write_entry (id req, k) ep s).
    assert (lookup_entry sp (id req, k) = Some ep) as Hep
      by (by apply (lookup_entry_write_eq _ _ _ e)).
    destruct (mstates e) as [|m ms] eqn:Hms; [done|]. injection Hm0 as ->.
    cbn [length seq forM_].
    destruct (PreemptModelState_no_inputs workspace req (id req, k) 0 sp ep m0 Hep)
      as [sf Hsf]; [by subst ep; simpl; rewrite Hms|done|done|].
    rewrite (bind_Fault _ _ sp sf); [done|]. by rewrite (bind_Fault _ _ _ _ Hsf).
  - intros _. exists req, rs, k, e, m0. split; try done.
    + by rewrite Hq.
    + intros Hp Hin. apply Hn. done.
Qed.

(** X12. With fewer request state entries than an [int] can count,
    preemption returns exactly when the last running request is known to
    the engine and has an alive entry with a first model state and, where
    that entry is the root, a request with at least one input block. *)
Theorem preemption_returns_iff (workspace : bool) (s : Machine) :
  (forall r rs, rstate_store s !! r = Some rs -> Z.of_nat (length (entries rs)) < 2 ^ 31) ->
  (exists h s', PreemptLastRunningRequestStateEntry workspace s = Ok h s') <->
  (exists req rs k e m0, preemptible s req rs k e m0).
Proof.
  intros Hsize. split.
  - intros (h & s' & Hrun). by eapply Preempt_Ok_inv.
  - intros (req & rs & k & e & m0 & Hpre).
    destruct (Preempt_run workspace s req rs k e m0 Hpre) as (s' & Hrun & _).
    by exists (id req, k), s'.
Qed.

Lemma find_last_alive_None (k : nat) (es : list RequestStateEntry) :
  Forall (fun e => status e <> kAlive) es -> find_last_alive k es = None.
Proof.
  intros Hall. induction k as [|k IH]; simpl; [done|].
  destruct (es !! k) as [e|] eqn:He; [|done].
  rewrite decide_False; [exact IH|].
  by apply (proj1 (Forall_lookup _ _) Hall k).
Qed.

(** X13. When no entry of the last running request is alive, the check of
    preemption fails with the world untouched: nothing is released, no id
    is taken and the queues stay. *)
Theorem preemption_without_alive_entry (workspace : bool) (s : Machine) (req : Request)
    (rs : RequestState) :
  last (running_queue s) = Some req ->
  id req ∈ request_states s ->
  rstate_store s !! id req = Some rs ->
  Forall (fun e => status e <> kAlive) (entries rs) ->
  PreemptLastRunningRequestStateEntry workspace s = Fault s.
Proof.
  intros Hlast Hknown Hrs Hall.
  unfold PreemptLastRunningRequestStateEntry. cbn [bind gets].
  assert (running_queue s <> []) as Hne by (intros Hq; by rewrite Hq in Hlast).
  rewrite bool_decide_false by done. cbn [negb ICHECK bind ret]. rewrite Hlast.
  cbn [deref bind ret].
  rewrite (bind_Ok _ _ _ _ _ (GetRequestState_Ok _ _ Hknown (ex_intro _ rs Hrs))).
  rewrite (bind_Ok _ _ _ _ _ (load_rstate_Ok _ _ _ Hrs)).
  by rewrite (find_last_alive_None _ _ Hall).
Qed.

(** ** Preempting again *)

Lemma find_last_alive_intro (n i : nat) (es : list RequestStateEntry) (e : RequestStateEntry) :
  (i < n <= length es)%nat ->
  es !! i = Some e -> status e = kAlive ->
  (forall j e', (i < j < n)%nat -> es !! j = Some e' -> status e' <> kAlive) ->
  find_last_alive n es = Some i.
Proof.
  intros Hn He Ha Hafter. induction n as [|n IH]; [lia|]. simpl.
  destruct (lookup_lt_is_Some_2 es n) as [en Hen]; [lia|]. rewrite Hen.
  destruct (decide (i = n)) as [<-|Hne].
  - rewrite He in Hen. injection Hen as <-. by rewrite decide_True.
  - rewrite decide_False by (apply (Hafter n); [lia|done]).
    apply IH; [lia|]. intros j e' Hj. apply Hafter. lia.
Qed.

(** X14. Preempting twice walks the alive entries of the last running
    request backwards: after the preemption of an entry that is not the
    root, the request is still the last of [running_queue], and the next
    preemption takes the last alive entry before the one just preempted. *)
Theorem preemption_walks_backwards (workspace : bool) (s : Machine) (req : Request)
    (rs : RequestState) (k : nat) (e : RequestStateEntry) (m0 : RequestModelState)
    (k2 : nat) (e2 : RequestStateEntry) (m2 : RequestModelState) :
  preemptible s req rs k e m0 ->
  find_last_alive k (entries rs) = Some k2 ->
  entries rs !! k2 = Some e2 ->
  mstates e2 !! 0%nat = Some m2 ->
  (parent_idx e2 = -1 -> req_inputs req <> []) ->
  exists s1 s2,
    PreemptLastRunningRequestStateEntry workspace s = Ok (id req, k) s1 /\
    last (running_queue s1) = Some req /\
    PreemptLastRunningRequestStateEntry workspace s1 = Ok (id req, k2) s2 /\
    (k2 < k)%nat.
Proof.
  intros Hpre Hk2 He2 Hm2 Hin2.
  destruct (Preempt_run workspace s req rs k e m0 Hpre)
    as (s1 & Hrun1 & Hs1 & _ & _ & _ & Hq1 & _ & Hrq1 & _).
  destruct Hpre as [Hlast Hknown Hrs Hsize Halive He Hm0 Hinp].
  destruct (find_last_alive_Some _ _ _ Hk2) as (Hlt & (e2' & He2' & Ha2) & Hbetween).
  rewrite He2 in He2'. injection He2' as <-.
  destruct (find_last_alive_Some _ _ _ Halive) as (Hklt & _ & Hafter).
  rewrite bool_decide_false in Hq1 by lia.
  set (ek := set_mstates _ (set_status kPending e)) in Hs1.
  set (rs1 := {| entries := <[k := ek]> (entries rs) |}).
  assert (preemptible s1 req rs1 k2 e2 m2) as Hpre1.
  { split; try done.
    - by rewrite Hq1.
    - by rewrite Hrq1.
    - rewrite Hs1. unfold store_write. simpl. by rewrite lookup_alter_eq, Hrs.
    - simpl. by rewrite length_insert.
    - simpl. rewrite length_insert.
      apply (find_last_alive_intro _ _ _ e2); [rewrite length_insert; lia| |done|].
      + rewrite list_lookup_insert_ne by lia. done.
      + intros j e' Hj Hj'. destruct (decide (j = k)) as [->|Hne].
        * rewrite list_lookup_insert_eq in Hj' by lia. by injection Hj' as <-.
        * rewrite list_lookup_insert_ne in Hj' by done.
          destruct (decide (j < k)%nat).
          -- apply (Hbetween j); [lia|done].
          -- apply (Hafter j); [|done]. apply lookup_lt_Some in Hj'. lia.
    - simpl. rewrite list_lookup_insert_ne by lia. done. }
  destruct (Preempt_run workspace s1 req rs1 k2 e2 m2 Hpre1) as (s2 & Hrun2 & _).
  exists s1, s2. split; [done|]. split; [by rewrite Hq1|done].
Qed.

(** ** Finishing an entry: failed checks and termination *)

Lemma find_request_None (req : Request) (q : list Request) :
  req ∉ q -> find_request req q = None.
Proof.
  induction q as [|r q IH]; [done|]. intros Hn. simpl.
  rewrite decide_False by (intros ->; apply Hn; left).
  rewrite IH; [done|]. intros Hin. apply Hn. by right.
Qed.

Lemma find_request_Some (req : Request) (q : list Request) :
  req ∈ q -> is_Some (find_request req q).
Proof.
  induction q as [|r q IH]; intros Hin; [by apply elem_of_nil in Hin|]. simpl.
  destruct (decide (r = req)) as [|Hne]; [by eexists|].
  apply elem_of_cons in Hin as [->|Hin]; [done|].
  destruct (IH Hin) as [it ->]. by eexists.
Qed.

(** X15. When the only entry of a request finishes while the request is
    not in [running_queue], the check of the retirement fails after the
    entry has been marked finished and its sequence released: the world is
    the one [RemoveRequestStateEntry] leaves from the marked entry, with
    the request still in [request_states] and the statistics as before. *)
Theorem retirement_outside_running_queue (now : nat -> Z) (fuel : nat) (h : EntryRef)
    (s : Machine) (e : RequestStateEntry) :
  lookup_entry s h = Some e ->
  child_indices e = [] ->
  parent_idx e = -1 ->
  is_Some (mstates e !! 0%nat) ->
  id (request e) ∈ request_states s ->
  is_Some (rstate_store s !! id (request e)) ->
  request e ∉ running_queue s ->
  exists s',
    RemoveRequestStateEntry h (write_entry h (set_status kFinished e) s) = Ok tt s' /\
    ProcessFinishedEntry now fuel h s = Fault s' /\
    lookup_entry s' h = Some (set_status kFinished e) /\
    request_states s' = request_states s /\
    stats s' = stats s.
Proof.
  intros He Hleaf Hroot Hm Hin Hrs Hnq.
  set (s1 := write_entry h (set_status kFinished e) s).
  assert (lookup_entry s1 h = Some (set_status kFinished e)) as He1
    by (by apply (lookup_entry_write_eq _ _ _ e)).
  destruct (RemoveRequestStateEntry_total s1 _ _ He1 Hm) as (s2 & Hrm & Hst2 & Hrq2).
  pose proof (stable_final _ _ s1 (RemoveRequestStateEntry_frame s1 h)
                (retire_frame_refl s1)) as Hframe.
  rewrite Hrm in Hframe. destruct Hframe as (Hstats & Hq & _).
  exists s2. split; [exact Hrm|]. split.
  - assert (FinishEntryAndClimb fuel h s = Ok (request e, id (request e), -1) s2) as Hfin.
    { unfold FinishEntryAndClimb.
      rewrite (bind_Ok _ _ _ _ _ (load_entry_Ok _ _ _ He)).
      rewrite bool_decide_true by done. cbn [ICHECK bind ret].
      unfold store_entry. cbn [bind modify]. fold s1.
      rewrite (bind_Ok _ _ _ _ _ Hrm).
      assert (is_Some (rstate_store s2 !! id (request e))) as Hrs2.
      { rewrite Hst2. subst s1. unfold write_entry; simpl. by apply store_write_is_Some. }
      rewrite (bind_Ok _ _ _ _ _ (GetRequestState_Ok s2 (request e)
                                     ltac:(by rewrite Hrq2) Hrs2)).
      rewrite Hroot. by destruct fuel. }
    unfold ProcessFinishedEntry. rewrite (bind_Ok _ _ _ _ _ Hfin). cbn [fst snd Z.eqb Pos.eqb].
    unfold RetireRequest. cbn [bind gets].
    simpl in Hq. by rewrite Hq, (find_request_None _ _ Hnq).
  - split; [unfold lookup_entry in *; by rewrite Hst2|].
    split; [by rewrite Hrq2|exact Hstats].
Qed.

Lemma climb_returns (fuel : nat) (rstate : string) (p : Z) (s : Machine) (rs : RequestState) :
  rstate_store s !! rstate = Some rs ->
  tree_wf rs ->
  p = -1 \/ 0 <= p < Z.of_nat (length (entries rs)) ->
  (Z.to_nat (p + 1) <= fuel)%nat ->
  exists p' s' rs',
    climb fuel rstate p s = Ok p' s' /\
    rstate_store s' !! rstate = Some rs' /\
    tree_wf rs' /\
    length (entries rs') = length (entries rs).
Proof.
  revert p s rs. induction fuel as [|fuel IH]; intros p s rs Hrs Hwf Hp Hfuel; simpl.
  - destruct (Z.eqb_spec p (-1)); [by eexists _, _, _|lia].
  - destruct (Z.eqb_spec p (-1)); [by eexists _, _, _|].
    destruct Hp as [|Hp]; [done|].
    rewrite (bind_Ok _ _ _ _ _ (load_rstate_Ok _ _ _ Hrs)).
    assert (exists parent, entries rs !! Z.to_nat p = Some parent) as [parent Hparent].
    { apply lookup_lt_is_Some. lia. }
    assert (at_index (entries rs) p = Some parent) as Hat.
    { unfold at_index. destruct (Z.ltb_spec p 0); [lia|done]. }
    rewrite Hat. cbn [deref bind ret].
    destruct (Hwf _ _ Hparent) as (Hpp & Hc & Hm).
    destruct (all_children_finished_total _ _ Hc) as [b Hb]. rewrite Hb.
    cbn [deref bind ret]. destruct b; simpl; [|by eexists _, _, _].
    unfold store_entry. cbn [bind modify].
    set (s1 := write_entry _ _ s).
    assert (lookup_entry s1 (rstate, Z.to_nat p) = Some (set_status kFinished parent)) as He1.
    { apply (lookup_entry_write_eq _ _ _ parent). apply store_lookup_Some. eauto. }
    destruct (RemoveRequestStateEntry_total s1 _ _ He1 Hm) as (s2 & Hrm & Hst2 & Hrq2).
    rewrite (bind_Ok _ _ _ _ _ Hrm).
    destruct (IH (parent_idx parent) s2
                {| entries := <[Z.to_nat p := set_status kFinished parent]> (entries rs) |})
      as (p' & s' & rs' & Hrun & Hrs' & Hwf' & Hlen').
    + rewrite Hst2. subst s1. unfold write_entry, store_write; simpl.
      by rewrite lookup_alter_eq, Hrs.
    + by apply tree_wf_set_status.
    + simpl. rewrite length_insert. lia.
    + lia.
    + exists p', s', rs'. split; [done|]. split; [done|]. split; [done|].
      rewrite Hlen'. simpl. by rewrite length_insert.
Qed.

(** X16. Processing a finished leaf of a request whose entries are in
    topological order, with valid child indices and a first model state
    each, and whose request is in [running_queue], returns normally: the
    climb takes at most as many steps as the parent index of the leaf plus
    one, and no check or access fails. *)
Theorem finished_leaf_is_processed (now : nat -> Z) (fuel : nat) (h : EntryRef)
    (s : Machine) (e : RequestStateEntry) (rs : RequestState) :
  lookup_entry s h = Some e ->
  h.1 = id (request e) ->
  child_indices e = [] ->
  id (request e) ∈ request_states s ->
  rstate_store s !! id (request e) = Some rs ->
  tree_wf rs ->
  request e ∈ running_queue s ->
  (Z.to_nat (parent_idx e + 1) <= fuel)%nat ->
  exists s', ProcessFinishedEntry now fuel h s = Ok tt s'.
Proof.
  intros He Hh Hleaf Hin Hrs Hwf Hq Hfuel.
  assert (entries rs !! h.2 = Some e) as Hek.
  { apply store_lookup_Some in He as (rs' & Hrs' & He'). rewrite Hh in Hrs'. congruence. }
  destruct (Hwf _ _ Hek) as (Hp & _ & Hm).
  pose proof (lookup_lt_Some _ _ _ Hek) as Hlt.
  set (s1 := write_entry h (set_status kFinished e) s).
  assert (lookup_entry s1 h = Some (set_status kFinished e)) as He1
    by (by apply (lookup_entry_write_eq _ _ _ e)).
  destruct (RemoveRequestStateEntry_total s1 _ _ He1 Hm) as (s2 & Hrm & Hst2 & Hrq2).
  pose proof (stable_final _ _ s1 (RemoveRequestStateEntry_frame s1 h)
                (retire_frame_refl s1)) as Hframe.
  rewrite Hrm in Hframe. destruct Hframe as (_ & Hq2 & _). simpl in Hq2.
  set (rs2 := {| entries := <[h.2 := set_status kFinished e]> (entries rs) |}).
  assert (rstate_store s2 !! id (request e) = Some rs2) as Hrs2.
  { rewrite Hst2. subst s1. unfold write_entry, store_write; simpl.
    by rewrite Hh, lookup_alter_eq, Hrs. }
  destruct (climb_returns fuel (id (request e)) (parent_idx e) s2 rs2)
    as (p & s3 & rs3 & Hclimb & Hrs3 & Hwf3 & Hlen3);
    [done|by apply tree_wf_set_status|simpl; rewrite length_insert; lia|done|].
  assert (FinishEntryAndClimb fuel h s = Ok (request e, id (request e), p) s3) as Hfin.
  { unfold FinishEntryAndClimb.
    rewrite (bind_Ok _ _ _ _ _ (load_entry_Ok _ _ _ He)).
    rewrite bool_decide_true by done. cbn [ICHECK bind ret].
    unfold store_entry. cbn [bind modify]. fold s1.
    rewrite (bind_Ok _ _ _ _ _ Hrm).
    rewrite (bind_Ok _ _ _ _ _ (GetRequestState_Ok s2 (request e) ltac:(by rewrite Hrq2)
                                   ltac:(by eexists))).
    by rewrite (bind_Ok _ _ _ _ _ Hclimb). }
  unfold ProcessFinishedEntry. rewrite (bind_Ok _ _ _ _ _ Hfin). cbn [fst snd].
  destruct (Z.eqb_spec p (-1)) as [->|Hne]; [|by eexists].
  pose proof (stable_final _ _ s2 (climb_frame s2 fuel (id (request e)) (parent_idx e))
                (retire_frame_refl s2)) as Hframe3.
  rewrite Hclimb in Hframe3. destruct Hframe3 as (_ & Hq3 & _). simpl in Hq3.
  destruct (find_request_Some (request e) (running_queue s3)) as [it Hit];
    [by rewrite Hq3, Hq2|].
  assert (exists root, entries rs3 !! 0%nat = Some root) as [root Hroot].
  { apply lookup_lt_is_Some. rewrite Hlen3. simpl. rewrite length_insert. lia. }
  destruct (RetireRequest_Ok now (request e) (id (request e)) s3 it rs3 root Hit Hrs3 Hroot)
    as (s' & Hret & _).
  { apply Forall_lookup. intros i ei Hei. by destruct (Hwf3 _ _ Hei) as (_ & _ & Hmi). }
  by exists s'.
Qed.

(** ** Committed tokens across two reconciliations *)

Lemma committed_slice_app (lo mid hi : nat) (committed : list SampleResult) :
  (lo <= mid <= hi)%nat ->
  committed_slice lo mid committed ++ committed_slice mid hi committed
  = committed_slice lo hi committed.
Proof.
  intros H. unfold committed_slice. rewrite <- fmap_app. f_equal.
  replace (hi - lo)%nat with ((mid - lo) + (hi - mid))%nat by lia.
  rewrite <- take_take_drop, drop_drop. do 3 f_equal. lia.
Qed.

Lemma committed_slice_prefix (lo hi : nat) (committed new : list SampleResult) :
  (hi <= length committed)%nat ->
  committed_slice lo hi (committed ++ new) = committed_slice lo hi committed.
Proof.
  intros H. unfold committed_slice. f_equal.
  destruct (decide (lo <= hi)%nat) as [Hle|Hgt].
  - rewrite drop_app_le by lia. apply take_app_le. rewrite length_drop. lia.
  - by replace (hi - lo)%nat with 0%nat by lia.
Qed.

Lemma committed_slice_empty (lo hi : nat) (committed : list SampleResult) :
  (hi <= lo)%nat -> committed_slice lo hi committed = [].
Proof. intros H. unfold committed_slice. by replace (hi - lo)%nat with 0%nat by lia. Qed.

Lemma pushed_committed_slice (m : RequestModelState) :
  pushed_committed m
  = committed_slice (Z.to_nat (cached_committed_tokens m))
      (length (committed_tokens m) - 1) (committed_tokens m).
Proof. done. Qed.

Lemma reconcile_calls_push (m : RequestModelState) :
  0 <= cached_committed_tokens m ->
  reconcile_calls m
  = block_calls (internal_id m) (prefilled_inputs m)
    ++ push_call (internal_id m) (pushed_committed m).
Proof.
  intros Hpos. unfold reconcile_calls, block_calls, push_call. f_equal.
  destruct (Z.ltb_spec (cached_committed_tokens m)
              (Z.of_nat (length (committed_tokens m)) - 1)) as [Hlt|Hge].
  - rewrite decide_False; [done|]. intros Hnil. apply (f_equal length) in Hnil.
    unfold pushed_committed in Hnil.
    rewrite length_fmap, length_take, length_drop in Hnil. simpl in Hnil. lia.
  - rewrite decide_True; [done|]. rewrite pushed_committed_slice.
    apply committed_slice_empty. lia.
Qed.

(** X17. Two reconciliations of an entry the prefix cache holds, with
    tokens committed in between and the watermark left alone: each run
    announces its prefilled blocks and then pushes, in at most one call,
    the committed tokens it has to; the tokens pushed by the two runs,
    one after the other, are those at the positions from the first
    watermark up to, and without, the last committed token of the second
    run, each once and none left out. *)
Theorem committed_tokens_pushed_once (s s2 : Machine) (h : EntryRef)
    (e e1 e2 : RequestStateEntry) (m0 m1 m2 : RequestModelState)
    (new : list SampleResult) :
  let s1 := final (UpdatePrefixCacheEntry h s) in
  lookup_entry s h = Some e ->
  mstates e !! 0%nat = Some m0 ->
  HasSequence (prefix_cache s) (internal_id m0) = true ->
  Forall is_token_data (prefilled_inputs m0) ->
  0 <= cached_committed_tokens m0 ->
  lookup_entry s1 h = Some e1 ->
  mstates e1 !! 0%nat = Some m1 ->
  lookup_entry s2 h = Some e2 ->
  mstates e2 !! 0%nat = Some m2 ->
  HasSequence (prefix_cache s2) (internal_id m2) = true ->
  Forall is_token_data (prefilled_inputs m2) ->
  internal_id m2 = internal_id m0 ->
  committed_tokens m2 = committed_tokens m0 ++ new ->
  cached_committed_tokens m2 = cached_committed_tokens m1 ->
  Z.of_nat (length (committed_tokens m2)) <= 2 ^ 31 ->
  exists s3 pushed1 pushed2,
    UpdatePrefixCacheEntry h s = Ok tt s1 /\
    UpdatePrefixCacheEntry h s2 = Ok tt s3 /\
    calls_since s s1
    = block_calls (internal_id m0) (prefilled_inputs m0)
      ++ push_call (internal_id m0) pushed1 /\
    calls_since s2 s3
    = block_calls (internal_id m0) (prefilled_inputs m2)
      ++ push_call (internal_id m0) pushed2 /\
    pushed1 ++ pushed2
    = committed_slice (Z.to_nat (cached_committed_tokens m0))
        (length (committed_tokens m2) - 1) (committed_tokens m2).
Proof.
  intros s1 He Hm0 Hheld Htok Hpos He1 Hm1 He2 Hm2 Hheld2 Htok2 Hid HC Hc2 Hlen2.
  assert (Z.of_nat (length (committed_tokens m0)) <= 2 ^ 31) as Hlen0.
  { rewrite HC, length_app in Hlen2. lia. }
  destruct (UpdatePrefixCacheEntry_held s h e m0 He Hm0 Hheld Htok Hpos Hlen0)
    as (s1' & Hrun1 & Hs1 & Htr1 & _).
  assert (s1 = s1') as Heq by (subst s1; by rewrite Hrun1). rewrite <- Heq in *. clear Heq.
  (* the watermark the first run leaves *)
  assert (m1 = reconciled m0) as ->.
  { unfold lookup_entry in He1, He. rewrite Hs1, store_lookup_write, decide_True in He1 by done.
    rewrite He in He1. injection He1 as <-. simpl in Hm1.
    rewrite list_lookup_insert_eq in Hm1 by (by eapply lookup_lt_Some). congruence. }
  assert (0 <= cached_committed_tokens m2) as Hpos2.
  { rewrite Hc2. simpl.
    destruct (Z.ltb_spec (cached_committed_tokens m0)
                (Z.of_nat (length (committed_tokens m0)) - 1)); lia. }
  destruct (UpdatePrefixCacheEntry_held s2 h e2 m2 He2 Hm2 Hheld2 Htok2 Hpos2 Hlen2)
    as (s3 & Hrun2 & _ & Htr2 & _).
  exists s3, (pushed_committed m0), (pushed_committed m2).
  split; [exact Hrun1|]. split; [exact Hrun2|].
  split.
  { unfold calls_since. rewrite Htr1, drop_app_length. by apply reconcile_calls_push. }
  split.
  { unfold calls_since. rewrite Htr2, drop_app_length, <- Hid. by apply reconcile_calls_push. }
  rewrite !pushed_committed_slice, Hc2, HC. simpl.
  set (C := committed_tokens m0) in *.
  set (c0 := cached_committed_tokens m0) in *.
  rewrite <- (committed_slice_prefix _ _ C new) by lia.
  destruct (Z.ltb_spec c0 (Z.of_nat (length C) - 1)) as [Hlt|Hge].
  - replace (Z.to_nat (Z.of_nat (length C) - 1)) with (length C - 1)%nat by lia.
    apply committed_slice_app. rewrite length_app. lia.
  - rewrite (committed_slice_empty (Z.to_nat c0) (length C - 1)) by lia. done.
Qed.

(** ** The order of the calls of a step *)

Ltac calls_leaf :=
  first
    [ eapply extends_by_same; [reflexivity|eassumption]
    | eapply extends_by_app;
        [simpl; reflexivity
        |first [ apply Forall_fmap, Forall_forall; intros ? _; exact I
               | repeat first [apply Forall_cons_2|apply Forall_nil_2]; simpl; tauto ]
        |eassumption] ].

Lemma RemoveRequestStateEntry_releases (s0 : Machine) (h : EntryRef) :
  stable (extends_by is_release s0) (RemoveRequestStateEntry h).
Proof.
  unfold RemoveRequestStateEntry, RemoveRequestFromModel, call_RecycleSequence,
    call_RecycleId.
  repeat stable_step; calls_leaf.
Qed.

Lemma climb_releases (s0 : Machine) (fuel : nat) (rstate : string) (p : Z) :
  stable (extends_by is_release s0) (climb fuel rstate p).
Proof.
  revert p. induction fuel as [|fuel IH]; intros p; simpl.
  - destruct (p =? -1); repeat stable_step.
  - destruct (p =? -1); [repeat stable_step|].
    do 3 (apply stable_bind; [stable_step|intros ?]).
    destruct (negb _); [stable_step|].
    apply stable_bind; [unfold store_entry; stable_step; calls_leaf|]. intros _.
    apply stable_bind; [apply RemoveRequestStateEntry_releases|]. intros _. apply IH.
Qed.

Lemma ProcessFinished_releases (now : nat -> Z) (s0 : Machine) (fuel : nat)
    (hs : list EntryRef) :
  stable (extends_by is_release s0) (ProcessFinishedRequestStateEntries now fuel hs).
Proof.
  unfold ProcessFinishedRequestStateEntries. apply stable_forM_. intros h _.
  unfold ProcessFinishedEntry.
  apply stable_bind.
  - unfold FinishEntryAndClimb.
    do 2 (apply stable_bind; [stable_step|intros ?]).
    apply stable_bind; [unfold store_entry; stable_step; calls_leaf|]. intros _.
    apply stable_bind; [apply RemoveRequestStateEntry_releases|]. intros _.
    apply stable_bind; [stable_step|]. intros rstate.
    apply stable_bind; [apply climb_releases|]. intros p. stable_step.
  - intros r. destruct (r.2 =? -1); [|stable_step].
    unfold RetireRequest, read_clock. repeat stable_step; calls_leaf.
Qed.

Lemma CollectStep_announces_or_reports
    (GetReturnTokenIds : Z -> RequestStateEntry -> DeltaRequestReturn * RequestStateEntry)
    (max_single_sequence_length : Z) (s0 : Machine) (requests : list Request) :
  stable (extends_by (fun ev => is_ExtendSequence ev \/ is_delta_report ev) s0)
    (CollectStep GetReturnTokenIds requests max_single_sequence_length).
Proof.
  unfold CollectStep, UpdatePrefixCache, for_each_entry, CountPrefilledEntry,
    UpdatePrefixCacheEntry, update_mstate0, CollectRequest, CollectEntry, store_entry,
    call_ExtendSequence.
  repeat (cbv zeta; stable_step); calls_leaf.
Qed.

(** X18. The calls of a step come in four blocks: first the
    [ExtendSequence] calls of the reconciliation, then the
    [GetReturnTokenIds] calls of the collection, then the one stream
    callback, and only then the calls that release sequences and ids
    ([RecycleSequence], [RemoveSequence], [RecycleId]), whatever the
    outcome of the processing of the finished entries. *)
Theorem step_calls_in_order (now : nat -> Z)
    (GetReturnTokenIds : Z -> RequestStateEntry -> DeltaRequestReturn * RequestStateEntry)
    (fuel : nat) (requests : list Request) (max_single_sequence_length : Z) (s : Machine) :
  requests_known s requests ->
  store_ready (prefix_cache s) (rstate_store s) ->
  generations_present s requests ->
  exists announced reports outs released,
    calls_since s
      (final (ActionStepPostProcess now GetReturnTokenIds fuel requests
                max_single_sequence_length s))
    = announced ++ reports ++ [EvStreamCallback outs] ++ released /\
    Forall is_ExtendSequence announced /\
    Forall is_delta_report reports /\
    Forall is_release released.
Proof.
  intros Hknown Hready Hgen.
  destruct (CollectStep_run GetReturnTokenIds max_single_sequence_length requests s
              Hknown Hready Hgen)
    as (gs & s1 & pre & Hrun & Hgs & Htr & Hplain & _ & _).
  pose proof (stable_final _ _ s
                (CollectStep_announces_or_reports GetReturnTokenIds
                   max_single_sequence_length s requests) (extends_by_refl _ s))
    as (evs & Hevs & Hkinds).
  rewrite Hrun in Hevs. simpl in Hevs. rewrite Htr in Hevs.
  apply app_inv_head in Hevs. subst evs.
  apply Forall_app in Hkinds as [Hpre _].
  set (outs := omap fst (zip_with request_result requests gs)) in *.
  set (scb := emit (EvStreamCallback outs) s1).
  pose proof (stable_final _ _ scb
                (ProcessFinished_releases now scb fuel
                   (concat (snd <$> zip_with request_result requests gs)))
                (extends_by_refl _ scb)) as (post & Hpost & Hrel).
  exists pre, (concat (report_events <$> gs)), outs, post.
  split.
  { unfold ActionStepPostProcess. rewrite (bind_Ok _ _ _ _ _ Hrun).
    cbn [bind modify fst snd]. fold scb.
    unfold calls_since. rewrite Hpost. subst scb. simpl. rewrite Htr.
    rewrite <- !app_assoc. by rewrite drop_app_length. }
  split.
  { apply Forall_forall. intros ev Hev.
    destruct (proj1 (Forall_forall _ _) Hpre ev Hev) as [Hx|Hr]; [done|].
    by destruct (proj1 (Forall_forall _ _) Hplain ev Hev) as [_ Hn]. }
  split; [|exact Hrel].
  apply Forall_concat, Forall_fmap, Forall_forall. intros g _.
  apply Forall_fmap, Forall_forall. by intros r _.
Qed.

(** ** The last generation of a request finishes *)

Lemma all_children_finished_intro (es : list RequestStateEntry) (cs : list Z) :
  Forall (child_finished es) cs -> all_children_finished es cs = Some true.
Proof.
  induction 1 as [|c cs Hc _ IH]; simpl; [done|].
  unfold child_finished in Hc. destruct (at_index es c) as [ec|]; [|done].
  by rewrite decide_True.
Qed.

(** X19. When the last generation of a request that is not yet finished
    finishes (a leaf below the root, all other children of the root being
    finished), one pass of the loop marks the leaf and the root finished,
    climbs past the root and retires the request: it is no longer in
    [request_states]. *)
Theorem last_generation_retires_request (now : nat -> Z) (fuel : nat) (h : EntryRef)
    (s : Machine) (e root : RequestStateEntry) (rs : RequestState) :
  lookup_entry s h = Some e ->
  h.1 = id (request e) ->
  h.2 <> 0%nat ->
  child_indices e = [] ->
  parent_idx e = 0 ->
  id (request e) ∈ request_states s ->
  rstate_store s !! id (request e) = Some rs ->
  entries rs !! 0%nat = Some root ->
  parent_idx root = -1 ->
  Forall (fun ei => is_Some (mstates ei !! 0%nat)) (entries rs) ->
  Forall (fun c => c = Z.of_nat h.2 \/ child_finished (entries rs) c) (child_indices root) ->
  request e ∈ running_queue s ->
  (1 <= fuel)%nat ->
  exists s',
    ProcessFinishedEntry now fuel h s = Ok tt s' /\
    lookup_entry s' h = Some (set_status kFinished e) /\
    lookup_entry s' (id (request e), 0%nat) = Some (set_status kFinished root) /\
    request_states s' = request_states s ∖ {[ id (request e) ]}.
Proof.
  intros He Hh Hk Hleaf Hpar Hin Hrs Hroot Hrootp Hms Hch Hq Hfuel.
  set (r := id (request e)) in *.
  assert (entries rs !! h.2 = Some e) as Hek.
  { apply store_lookup_Some in He as (rs' & Hrs' & He'). rewrite Hh in Hrs'. congruence. }
  assert (is_Some (mstates e !! 0%nat)) as Hm
    by (by apply (proj1 (Forall_lookup _ _) Hms h.2)).
  assert (is_Some (mstates root !! 0%nat)) as Hmroot
    by (by apply (proj1 (Forall_lookup _ _) Hms 0%nat)).
  (* the leaf *)
  set (s1 := write_entry h (set_status kFinished e) s).
  assert (lookup_entry s1 h = Some (set_status kFinished e)) as He1
    by (by apply (lookup_entry_write_eq _ _ _ e)).
  destruct (RemoveRequestStateEntry_total s1 _ _ He1 Hm) as (s2 & Hrm & Hst2 & Hrq2).
  pose proof (stable_final _ _ s1 (RemoveRequestStateEntry_frame s1 h)
                (retire_frame_refl s1)) as Hframe.
  rewrite Hrm in Hframe. destruct Hframe as (_ & Hq2 & _). simpl in Hq2.
  set (es2 := <[h.2 := set_status kFinished e]> (entries rs)).
  assert (rstate_store s2 !! r = Some {| entries := es2 |}) as Hrs2.
  { rewrite Hst2. subst s1. unfold write_entry, store_write; simpl.
    by rewrite Hh, lookup_alter_eq, Hrs. }
  (* the root *)
  assert (es2 !! 0%nat = Some root) as Hroot2
    by (subst es2; by rewrite list_lookup_insert_ne).
  assert (all_children_finished es2 (child_indices root) = Some true) as Hall.
  { apply all_children_finished_intro. eapply Forall_impl; [exact Hch|].
    intros c [->|Hc]; [|by apply child_finished_insert].
    unfold child_finished, at_index. destruct (Z.ltb_spec (Z.of_nat h.2) 0); [lia|].
    subst es2. rewrite Nat2Z.id, list_lookup_insert_eq by (by eapply lookup_lt_Some). done. }
  set (s3 := write_entry (r, 0%nat) (set_status kFinished root) s2).
  assert (lookup_entry s3 (r, 0%nat) = Some (set_status kFinished root)) as He3.
  { apply (lookup_entry_write_eq _ _ _ root). apply store_lookup_Some. eauto. }
  destruct (RemoveRequestStateEntry_total s3 _ _ He3 Hmroot) as (s4 & Hrm4 & Hst4 & Hrq4).
  pose proof (stable_final _ _ s3 (RemoveRequestStateEntry_frame s3 (r, 0%nat))
                (retire_frame_refl s3)) as Hframe4.
  rewrite Hrm4 in Hframe4. destruct Hframe4 as (_ & Hq4 & _). simpl in Hq4.
  assert (climb fuel r 0 s2 = Ok (-1) s4) as Hclimb.
  { destruct fuel as [|fuel]; [lia|]. cbn [climb Z.eqb].
    rewrite (bind_Ok _ _ _ _ _ (load_rstate_Ok _ _ _ Hrs2)).
    cbn [entries]. unfold at_index at 1. cbn [Z.ltb Z.compare].
    change (Z.to_nat 0) with 0%nat. rewrite Hroot2. cbn [deref bind ret]. rewrite Hall. cbn [deref bind ret negb].
    unfold store_entry. cbn [bind modify]. fold s3.
    rewrite (bind_Ok _ _ _ _ _ Hrm4), Hrootp. by destruct fuel. }
  assert (FinishEntryAndClimb fuel h s = Ok (request e, r, -1) s4) as Hfin.
  { unfold FinishEntryAndClimb.
    rewrite (bind_Ok _ _ _ _ _ (load_entry_Ok _ _ _ He)).
    rewrite bool_decide_true by done. cbn [ICHECK bind ret].
    unfold store_entry. cbn [bind modify]. fold s1.
    rewrite (bind_Ok _ _ _ _ _ Hrm).
    rewrite (bind_Ok _ _ _ _ _ (GetRequestState_Ok s2 (request e) ltac:(by rewrite Hrq2)
                                   ltac:(by eexists))).
    rewrite Hpar. fold r. by rewrite (bind_Ok _ _ _ _ _ Hclimb). }
  (* the retirement *)
  destruct (find_request_Some (request e) (running_queue s4)) as [it Hit];
    [by rewrite Hq4, Hq2|].
  assert (rstate_store s4 !! r
          = Some {| entries := <[0%nat := set_status kFinished root]> es2 |}) as Hrs4.
  { rewrite Hst4. subst s3. unfold write_entry, store_write; simpl.
    by rewrite lookup_alter_eq, Hrs2. }
  destruct (RetireRequest_Ok now (request e) r s4 it _ (set_status kFinished root) Hit Hrs4)
    as (s' & Hret & _ & Hrq' & _ & _ & _ & _ & Hst' & _).
  { simpl. apply list_lookup_insert_eq. by eapply lookup_lt_Some. }
  { simpl. apply Forall_insert; [|done]. subst es2. by apply Forall_insert. }
  exists s'. split.
  { unfold ProcessFinishedEntry. by rewrite (bind_Ok _ _ _ _ _ Hfin). }
  assert (forall h', lookup_entry s' h' = lookup_entry s4 h') as Hsame
    by (intros h'; unfold lookup_entry; by rewrite Hst').
  split.
  { rewrite Hsame. unfold lookup_entry. rewrite Hst4. subst s3. unfold write_entry; simpl.
    rewrite store_lookup_write, decide_False.
    - unfold lookup_entry in He1. by rewrite Hst2, He1.
    - destruct h as [hr hk]. simpl in *. intros [= _ Hk']. by apply Hk. }
  split.
  { rewrite Hsame. unfold lookup_entry in *. by rewrite Hst4. }
  rewrite Hrq', Hrq4. change (request_states s3) with (request_states s2).
  by rewrite Hrq2.
Qed.

(** ** The further properties at the scenarios *)

Lemma world_a_first_mstates (h : EntryRef) (e : RequestStateEntry) :
  lookup_entry world_a h = Some e -> is_Some (mstates e !! 0%nat).
Proof.
  intros He. apply store_lookup_singleton in He as [_ He].
  destruct h.2 as [|i]; simpl in He; [|discriminate He].
  injection He as <-. by eexists.
Defined.

Lemma world_b_sizes (r : string) (rs : RequestState) :
  rstate_store world_b !! r = Some rs -> Z.of_nat (length (entries rs)) < 2 ^ 31.
Proof.
  intros Hrs. cbn [rstate_store world_b] in Hrs.
  apply lookup_singleton_Some in Hrs as [_ <-]. reflexivity.
Defined.

Lemma entries_b_tree_wf : tree_wf {| entries := entries_b |}.
Proof.
  intros i e He. destruct i as [|[|[|i]]]; simpl in He; try discriminate He;
    injection He as <-; simpl.
  - split; [by left|]. split; [repeat constructor; by eexists|by eexists].
  - split; [right; lia|]. split; [constructor|by eexists].
  - split; [right; lia|]. split; [constructor|by eexists].
Defined.

Lemma UpdatePrefixCache_twice_witness :
  requests_known world_a [request_a] /\
  store_ready (prefix_cache world_a) (rstate_store world_a) /\
  exists s1,
    UpdatePrefixCache [request_a] world_a = Ok tt s1 /\
    UpdatePrefixCache [request_a] s1 = Ok tt s1.
Proof.
  split; [exact world_a_known|]. split; [exact world_a_ready|].
  exact (UpdatePrefixCache_twice [request_a] world_a world_a_known world_a_ready).
Defined.

Lemma ActionStepPostProcess_prefill_length_witness :
  requests_known world_a [request_a] /\
  total_prefill_length
    (stats (final (ActionStepPostProcess clock_1000 nothing_new 1 [request_a] 100 world_a)))
  = 3.
Proof.
  split; [exact world_a_known|].
  rewrite (ActionStepPostProcess_prefill_length clock_1000 nothing_new 1 [request_a] 100
             world_a world_a_known world_a_first_mstates).
  reflexivity.
Defined.

Lemma finished_entries_collected_witness :
  requests_known world_a [request_a] /\
  store_ready (prefix_cache world_a) (rstate_store world_a) /\
  generations_present world_a [request_a] /\
  exists outs finished_rsentries s1,
    CollectStep reports_stop [request_a] 100 world_a = Ok (outs, finished_rsentries) s1 /\
    reported_entries (calls_since world_a s1) = [("a", 0%nat)] /\
    finished_rsentries `sublist_of` [("a", 0%nat)].
Proof.
  split; [exact world_a_known|]. split; [exact world_a_ready|].
  split; [exact world_a_generations|].
  destruct (finished_entries_collected clock_1000 reports_stop 1 [request_a] 100 world_a
              world_a_known world_a_ready world_a_generations)
    as (outs & fin & s1 & Hrun & _ & Hrep & Hsub & _).
  exists outs, fin, s1. split; [exact Hrun|]. split; [exact Hrep|exact Hsub].
Defined.

Lemma quiet_step_empty_batch_witness :
  requests_known world_a [request_a] /\
  store_ready (prefix_cache world_a) (rstate_store world_a) /\
  generations_present world_a [request_a] /\
  (forall e, ~ new_delta (nothing_new 100 e).1) /\
  exists s1,
    ActionStepPostProcess clock_1000 nothing_new 1 [request_a] 100 world_a
      = Ok tt (emit (EvStreamCallback []) s1) /\
    request_states s1 = {[ "a" ]}.
Proof.
  assert (forall e, ~ new_delta (nothing_new 100 e).1) as Hquiet.
  { intros e [Hd|[x Hx]]; [by apply Hd|discriminate Hx]. }
  split; [exact world_a_known|]. split; [exact world_a_ready|].
  split; [exact world_a_generations|]. split; [exact Hquiet|].
  destruct (quiet_step_empty_batch clock_1000 nothing_new 1 [request_a] 100 world_a
              world_a_known world_a_ready world_a_generations Hquiet)
    as (s1 & _ & Hrun & _ & Hrq & _).
  exists s1. split; [exact Hrun|exact Hrq].
Defined.

Lemma world_short_known : requests_known world_short [request_b].
Proof.
  constructor; [|constructor]. split.
  - change ("b" ∈ ({[ "b" ]} : gset string)). by apply elem_of_singleton_2.
  - by eexists.
Defined.

Lemma world_short_ready : store_ready (prefix_cache world_short) (rstate_store world_short).
Proof.
  apply store_ready_singleton. repeat constructor.
  eexists. split; [reflexivity|]. intros H. discriminate H.
Defined.

Lemma world_short_generations : ~ generations_present world_short [request_b].
Proof.
  intros Hg. apply Forall_cons in Hg as [Hg _].
  change (generation_refs request_b) with [("b", 1%nat); ("b", 2%nat)] in Hg.
  apply Forall_cons in Hg as [[x Hx] _]. discriminate Hx.
Defined.

Lemma missing_generation_entry_faults_witness :
  requests_known world_short [request_b] /\
  store_ready (prefix_cache world_short) (rstate_store world_short) /\
  ~ generations_present world_short [request_b] /\
  exists s',
    ActionStepPostProcess clock_1000 reports_stop 1 [request_b] 100 world_short = Fault s' /\
    Forall no_callback (calls_since world_short s') /\
    running_queue s' = [request_b].
Proof.
  split; [exact world_short_known|]. split; [exact world_short_ready|].
  split; [exact world_short_generations|].
  destruct (missing_generation_entry_faults clock_1000 reports_stop 1 [request_b] 100
              world_short world_short_known world_short_ready world_short_generations)
    as (s' & Hrun & Hquiet & _ & Hq).
  exists s'. split; [exact Hrun|]. split; [exact Hquiet|exact Hq].
Defined.

Lemma preemption_frame_witness :
  preemptible world_a request_a {| entries := [entry_a] |} 0 entry_a mstate_a /\
  exists s' e',
    PreemptLastRunningRequestStateEntry false world_a = Ok ("a", 0%nat) s' /\
    lookup_entry s' ("a", 0%nat) = Some e' /\
    stats s' = no_stats /\
    tadd e' = 10 /\
    Forall (fun ev => ~ is_FreeSlots ev) (calls_since world_a s').
Proof.
  split; [exact world_a_preemptible|].
  destruct (preemption_frame false world_a _ _ _ _ _ world_a_preemptible)
    as (s' & e' & Hrun & He' & _ & Hst & _ & _ & _ & _ & _ & _ & Hta & _ & _ & Hfree).
  exists s', e'. split; [exact Hrun|]. split; [exact He'|]. split; [exact Hst|].
  split; [exact Hta|exact (Hfree eq_refl)].
Defined.

Lemma preemption_calls_witness :
  preemptible world_b request_b {| entries := entries_b |} 2
    {| status := kAlive; request := request_b; parent_idx := 0; child_indices := [];
       mstates := [fresh_mstate 3 [9; 10; 11] []]; next_callback_token_pos := 3;
       tadd := 100; tprefill_finish := 130 |}
    (fresh_mstate 3 [9; 10; 11] []) /\
  exists s' new_seq_id,
    PreemptLastRunningRequestStateEntry false world_b = Ok ("b", 2%nat) s' /\
    calls_since world_b s' = [EvRemoveSequence 0 3; EvGetNewId new_seq_id].
Proof.
  split; [exact world_b_preemptible|].
  destruct (preemption_calls false world_b _ _ _ _ _ world_b_preemptible)
    as (s' & e' & slots & new_seq_id & Hrun & _ & _ & Hcalls & _).
  exists s', new_seq_id. split; [exact Hrun|exact Hcalls].
Defined.

Lemma preemption_inputs_length_witness :
  preemptible world_a request_a {| entries := [entry_a] |} 0 entry_a mstate_a /\
  exists s' e',
    PreemptLastRunningRequestStateEntry false world_a = Ok ("a", 0%nat) s' /\
    lookup_entry s' ("a", 0%nat) = Some e' /\
    exists m', mstates e' !! 0%nat = Some m' /\ sum_lengths (inputs m') = 6.
Proof.
  split; [exact world_a_preemptible|].
  destruct (preemption_inputs_length false world_a _ _ _ _ _ world_a_preemptible)
    as (s' & e' & Hrun & He' & Hlen).
  destruct (Forall2_lookup_l _ _ _ 0%nat mstate_a Hlen eq_refl) as (m' & Hm' & Hsum).
  exists s', e'. split; [exact Hrun|]. split; [exact He'|].
  exists m'. split; [exact Hm'|exact Hsum].
Defined.

Lemma preemption_narrows_prompt_tokens_witness :
  preemptible world_a request_a {| entries := [entry_a] |} 0 entry_a mstate_a /\
  parent_idx entry_a = -1 /\
  req_inputs request_a = [] ++ [TokenData [1; 2; 3]] /\
  exists s' e',
    PreemptLastRunningRequestStateEntry false world_a = Ok ("a", 0%nat) s' /\
    lookup_entry s' ("a", 0%nat) = Some e' /\
    exists m', mstates e' !! 0%nat = Some m' /\
      inputs m' = [TokenData [1; 2; 3; 7; 8; 9]].
Proof.
  split; [exact world_a_preemptible|]. split; [reflexivity|]. split; [reflexivity|].
  destruct (preemption_narrows_prompt_tokens false world_a _ _ _ _ _ [] [1; 2; 3]
              world_a_preemptible eq_refl eq_refl)
    as (s' & e' & Hrun & He' & Hin & _).
  destruct (Forall2_lookup_l _ _ _ 0%nat mstate_a Hin eq_refl) as (m' & Hm' & Hinputs).
  exists s', e'. split; [exact Hrun|]. split; [exact He'|].
  exists m'. split; [exact Hm'|exact Hinputs].
Defined.

Lemma preemption_returns_iff_witness :
  (forall r rs, rstate_store world_b !! r = Some rs ->
     Z.of_nat (length (entries rs)) < 2 ^ 31) /\
  exists h s', PreemptLastRunningRequestStateEntry true world_b = Ok h s'.
Proof.
  split; [exact world_b_sizes|].
  apply (preemption_returns_iff true world_b world_b_sizes).
  eexists _, _, _, _, _. exact world_b_preemptible.
Defined.

Lemma preemption_without_alive_entry_witness :
  last (running_queue world_idle) = Some request_b /\
  Forall (fun e => status e <> kAlive) (set_status kPending <$> entries_b) /\
  PreemptLastRunningRequestStateEntry true world_idle = Fault world_idle.
Proof.
  assert (Forall (fun e => status e <> kAlive) (set_status kPending <$> entries_b)) as Hall.
  { repeat constructor; intros H; discriminate H. }
  split; [reflexivity|]. split; [exact Hall|].
  apply (preemption_without_alive_entry true world_idle request_b
           {| entries := set_status kPending <$> entries_b |});
    first [ exact Hall
          | reflexivity
          | change ("b" ∈ ({[ "b" ]} : gset string)); by apply elem_of_singleton_2 ].
Defined.

Lemma preemption_walks_backwards_witness :
  exists s1 s2,
    PreemptLastRunningRequestStateEntry false world_b = Ok ("b", 2%nat) s1 /\
    last (running_queue s1) = Some request_b /\
    PreemptLastRunningRequestStateEntry false s1 = Ok ("b", 0%nat) s2.
Proof.
  destruct (preemption_walks_backwards false world_b _ _ _ _ _ 0
              {| status := kAlive; request := request_b; parent_idx := -1;
                 child_indices := [1; 2]; mstates := [fresh_mstate 1 [] []];
                 next_callback_token_pos := 0; tadd := 100; tprefill_finish := 130 |}
              (fresh_mstate 1 [] []) world_b_preemptible eq_refl eq_refl eq_refl)
    as (s1 & s2 & Hrun1 & Hlast & Hrun2 & _).
  { intros _ H. discriminate H. }
  exists s1, s2. split; [exact Hrun1|]. split; [exact Hlast|exact Hrun2].
Defined.

Lemma retirement_outside_running_queue_witness :
  (request entry_a ∉ running_queue world_parked) /\
  exists s',
    ProcessFinishedEntry clock_1000 1 ("a", 0%nat) world_parked = Fault s' /\
    lookup_entry s' ("a", 0%nat) = Some (set_status kFinished entry_a) /\
    request_states s' = {[ "a" ]}.
Proof.
  assert (request entry_a ∉ running_queue world_parked) as Hnq by apply not_elem_of_nil.
  split; [exact Hnq|].
  assert ("a" ∈ request_states world_parked) as Hin.
  { change ("a" ∈ ({[ "a" ]} : gset string)). by apply elem_of_singleton_2. }
  destruct (retirement_outside_running_queue clock_1000 1 ("a", 0%nat) world_parked entry_a
              eq_refl eq_refl eq_refl (ex_intro _ mstate_a eq_refl) Hin
              (ex_intro _ {| entries := [entry_a] |} eq_refl) Hnq)
    as (s' & _ & Hrun & He' & Hrq & _).
  exists s'. split; [exact Hrun|]. split; [exact He'|exact Hrq].
Defined.

Lemma finished_leaf_is_processed_witness :
  tree_wf {| entries := entries_b |} /\
  exists s', ProcessFinishedEntry clock_1000 1 ("b", 2%nat) world_b = Ok tt s'.
Proof.
  split; [exact entries_b_tree_wf|].
  assert ("b" ∈ request_states world_b) as Hin.
  { change ("b" ∈ ({[ "b" ]} : gset string)). by apply elem_of_singleton_2. }
  assert (request_b ∈ running_queue world_b) as Hq by (by apply list_elem_of_singleton).
  exact (finished_leaf_is_processed clock_1000 1 ("b", 2%nat) world_b
           {| status := kAlive; request := request_b; parent_idx := 0; child_indices := [];
              mstates := [fresh_mstate 3 [9; 10; 11] []]; next_callback_token_pos := 3;
              tadd := 100; tprefill_finish := 130 |}
           {| entries := entries_b |}
           eq_refl eq_refl eq_refl Hin eq_refl entries_b_tree_wf Hq (le_n 1)).
Defined.

Lemma committed_tokens_pushed_once_witness :
  exists s3 pushed1 pushed2,
    UpdatePrefixCacheEntry ("a", 0%nat) world_a_later = Ok tt s3 /\
    calls_since world_a (final (UpdatePrefixCacheEntry ("a", 0%nat) world_a))
    = [EvExtendSequence 0 [1; 2; 3]] ++ push_call 0 pushed1 /\
    calls_since world_a_later s3 = [] ++ push_call 0 pushed2 /\
    pushed1 ++ pushed2 = [7; 8; 9; 10].
Proof.
  destruct (committed_tokens_pushed_once world_a world_a_later ("a", 0%nat)
              entry_a
              {| status := kAlive; request := request_a; parent_idx := -1;
                 child_indices := [];
                 mstates := [reconciled mstate_a]; next_callback_token_pos := 0;
                 tadd := 10; tprefill_finish := 25 |}
              entry_a_later mstate_a (reconciled mstate_a) mstate_a_later
              (token <$> [10; 11]))
    as (s3 & p1 & p2 & _ & Hrun2 & Hc1 & Hc2 & Hp); try reflexivity.
  - repeat constructor. by eexists.
  - change (Forall is_token_data []). constructor.
  - vm_compute. discriminate.
  - exists s3, p1, p2. split; [exact Hrun2|]. split; [exact Hc1|]. split; [exact Hc2|exact Hp].
Defined.

Lemma step_calls_in_order_witness :
  requests_known world_a [request_a] /\
  store_ready (prefix_cache world_a) (rstate_store world_a) /\
  generations_present world_a [request_a] /\
  exists announced reports outs released,
    trace (final (ActionStepPostProcess clock_1000 reports_stop 1 [request_a] 100 world_a))
    = announced ++ reports ++ [EvStreamCallback outs] ++ released /\
    Forall is_ExtendSequence announced /\
    Forall is_delta_report reports /\
    Forall is_release released.
Proof.
  split; [exact world_a_known|]. split; [exact world_a_ready|].
  split; [exact world_a_generations|].
  destruct (step_calls_in_order clock_1000 reports_stop 1 [request_a] 100 world_a
              world_a_known world_a_ready world_a_generations)
    as (announced & reports & outs & released & Hcalls & H1 & H2 & H3).
  exists announced, reports, outs, released.
  split; [exact Hcalls|]. split; [exact H1|]. split; [exact H2|exact H3].
Defined.

Lemma last_generation_retires_request_witness :
  exists s',
    ProcessFinishedEntry clock_1000 1 ("b", 2%nat) world_b = Ok tt s' /\
    (status <$> lookup_entry s' ("b", 0%nat)) = Some kFinished /\
    request_states s' = {[ "b" ]} ∖ {[ "b" ]}.
Proof.
  assert ("b" ∈ request_states world_b) as Hin.
  { change ("b" ∈ ({[ "b" ]} : gset string)). by apply elem_of_singleton_2. }
  assert (request_b ∈ running_queue world_b) as Hq by (by apply list_elem_of_singleton).
  assert (Forall (fun ei => is_Some (mstates ei !! 0%nat)) entries_b) as Hms
    by (repeat constructor; by eexists).
  assert (Forall (fun c => c = Z.of_nat 2 \/ child_finished entries_b c) [1; 2]) as Hch.
  { constructor; [right; reflexivity|]. constructor; [by left|constructor]. }
  destruct (last_generation_retires_request clock_1000 1 ("b", 2%nat) world_b
              {| status := kAlive; request := request_b; parent_idx := 0; child_indices := [];
                 mstates := [fresh_mstate 3 [9; 10; 11] []]; next_callback_token_pos := 3;
                 tadd := 100; tprefill_finish := 130 |}
              {| status := kAlive; request := request_b; parent_idx := -1;
                 child_indices := [1; 2]; mstates := [fresh_mstate 1 [] []];
                 next_callback_token_pos := 0; tadd := 100; tprefill_finish := 130 |}
              {| entries := entries_b |}
              eq_refl eq_refl ltac:(discriminate) eq_refl eq_refl Hin eq_refl eq_refl eq_refl
              Hms Hch Hq (le_n 1))
    as (s' & Hrun & _ & Hroot & Hrq).
  exists s'. split; [exact Hrun|]. split; [exact (f_equal (fmap status) Hroot)|exact Hrq].
Defined.
